(** * RBC notebook: XML-RPC note store and failover client

    A shallow embedding of [rpc_notebook/notebook_client.py] and
    [rpc_notebook/notebook_server.py].  Python strings are modelled by
    [string] (one [ascii] per code point, so code points below 256), Python
    exceptions by an explicit [result] type, module-level mutable state (the
    round-robin iterator, standard output, the database file) by explicit
    state passing.  The functions of [xml.etree] the server calls ([find],
    [findall], [SubElement], [indent], [write], [parse]) are embedded along
    with it, after CPython 3.11.

    Layout: the definitions come first (client, ElementTree, server, the
    vocabulary of the statements, what Python prints and reads, the menu
    loop of the client, the start-up of the server), the properties after
    them. *)

From Stdlib Require Import String Ascii List ZArith Lia Bool Arith PeanoNat.
From Stdlib Require Import DecimalString Permutation.
From Stdlib Require DecimalPos.
From Stdlib Require SpecFloat.
Import ListNotations.
Set Warnings "-register-all,-notation-for-abbreviation".
Open Scope string_scope.
Open Scope list_scope.

Infix "+++" := String.append (right associativity, at level 60).

(** ** Python values, exceptions, results *)

(** The values that travel over XML-RPC in this program. *)
Inductive value : Type :=
| VNone
| VBool (b : bool)
| VInt (z : Z)
| VStr (s : string)
| VList (l : list value).

(** An exception: its class name and the message it carries (for the
    exceptions of the XML parser, the message without the position). *)
Inductive exn : Type :=
| PyExc (cls : string) (msg : string).

(** What an f-string prints for [{e}]. *)
Definition exn_str (e : exn) : string :=
  match e with PyExc _ msg => msg end.

(** Outcome of a Python call: a returned value or a raised exception. *)
Inductive result (A : Type) : Type :=
| Return (a : A)
| Raise (e : exn).
Arguments Return {A} a.
Arguments Raise {A} e.

(** [str(z)] for a Python [int]. *)
Definition str_of_int (z : Z) : string :=
  NilEmpty.string_of_int (Z.to_int z).

(** ** The client: round-robin dispatcher ([notebook_client.py]) *)

Module Client.

(** [ports = [8000, 8001]] *)
Definition ports : list Z := [8000; 8001]%Z.

(** [server_urls = [f'http://localhost:{port}' for port in ports]] *)
Definition server_urls : list string :=
  map (fun port => "http://localhost:" +++ str_of_int port) ports.

Section Dispatcher.

(** The pool the iterator cycles over ([server_urls] in the source). *)
Variable pool : list string.

(** Everything behind the wire: the replicas and the network.
    [xmlrpc_call url method args] stands for
    [getattr(ServerProxy(url), method)( *args )]: it answers with a value or
    raises, and may change the remote state. *)
Variable Net : Type.
Variable xmlrpc_call : string -> string -> list value -> Net -> result value * Net.

(** Client process state.  [server_cycle] is the position of
    [itertools.cycle(server_urls)]: the index of the element the next
    [next(server_cycle)] yields.  [stdout] collects the lines printed,
    [wire] the URLs a call was attempted on, in order. *)
Record state : Type := mkState {
  server_cycle : nat;
  stdout : list string;
  wire : list string;
  net : Net
}.

(** [next(server_cycle)] *)
Definition cycle_next (c : nat) : string * nat :=
  (nth c pool "", S c mod length pool).

Definition print (line : string) (st : state) : state :=
  mkState (server_cycle st) (stdout st ++ [line]) (wire st) (net st).

Definition error_line (url : string) (e : exn) : string :=
  "Error contacting server " +++ url +++ ": " +++ exn_str e.

(** The [for _ in range(...)] loop of [perform_rpc] with [n] iterations
    left; [Some v] is the early [return result], [None] means the loop ran
    to its end. *)
Fixpoint attempts (n : nat) (method : string) (args : list value)
         (st : state) : option value * state :=
  match n with
  | O => (None, st)
  | S n' =>
      let (url, c') := cycle_next (server_cycle st) in
      let (r, net') := xmlrpc_call url method args (net st) in
      let st' := mkState c' (stdout st) (wire st ++ [url]) net' in
      match r with
      | Return v => (Some v, st')
      | Raise e => attempts n' method args (print (error_line url e) st')
      end
  end.

(** [perform_rpc(method, *args)] *)
Definition perform_rpc (method : string) (args : list value)
           (st : state) : value * state :=
  match attempts (length pool) method args st with
  | (Some v, st') => (v, st')
  | (None, st') => (VNone, print "All servers failed." st')
  end.

(** The pool read cyclically from position [c]. *)
Definition rotation (c : nat) : list string :=
  skipn c pool ++ firstn c pool.

(** The next [n] values [next(server_cycle)] yields from position [c]. *)
Fixpoint cycle_take (c n : nat) : list string :=
  match n with
  | O => []
  | S n' => fst (cycle_next c) :: cycle_take (snd (cycle_next c)) n'
  end.

(** The position of the iterator after [k] more [next(server_cycle)]. *)
Definition advance (c k : nat) : nat :=
  Nat.iter k (fun c => snd (cycle_next c)) c.

(** [failing method args urls n es n']: contacting [urls] one after the
    other, starting with the network in state [n], every call raises (the
    exceptions are [es], in order) and the network ends in state [n']. *)
Inductive failing (method : string) (args : list value)
  : list string -> Net -> list exn -> Net -> Prop :=
| failing_nil : forall n, failing method args [] n [] n
| failing_cons : forall url urls n e n1 es n2,
    xmlrpc_call url method args n = (Raise e, n1) ->
    failing method args urls n1 es n2 ->
    failing method args (url :: urls) n (e :: es) n2.

(** The lines [perform_rpc] prints for failed attempts. *)
Fixpoint error_lines (urls : list string) (es : list exn) : list string :=
  match urls, es with
  | url :: urls', e :: es' => error_line url e :: error_lines urls' es'
  | _, _ => []
  end.

End Dispatcher.

Arguments server_cycle {Net} _.
Arguments stdout {Net} _.
Arguments wire {Net} _.
Arguments net {Net} _.
Arguments mkState {Net} _ _ _ _.

End Client.

(** ** Strings the way Python sees them *)

Definition chr (n : nat) : ascii := ascii_of_nat n.

Definition in_str (c : ascii) (s : string) : bool :=
  existsb (Ascii.eqb c) (list_ascii_of_string s).

(** [str.isspace] on one character (code points below 256); also the class
    [\s] of [re] on [str] patterns. *)
Definition isspace (c : ascii) : bool :=
  let n := nat_of_ascii c in
  (((9 <=? n) && (n <=? 13)) || ((28 <=? n) && (n <=? 32))
   || (n =? 133) || (n =? 160))%nat.

Definition isdigit (c : ascii) : bool :=
  let n := nat_of_ascii c in ((48 <=? n) && (n <=? 57))%nat.

Fixpoint str_forall (p : ascii -> bool) (s : string) : bool :=
  match s with
  | EmptyString => true
  | String c r => p c && str_forall p r
  end.

(** Longest prefix of characters satisfying [p], and the rest. *)
Fixpoint span (p : ascii -> bool) (s : string) : string * string :=
  match s with
  | EmptyString => (EmptyString, EmptyString)
  | String c r =>
      if p c then let (a, b) := span p r in (String c a, b)
      else (EmptyString, s)
  end.

(** Split at the first occurrence of [q]: the text before it and after it. *)
Fixpoint break_at (q : ascii) (s : string) : option (string * string) :=
  match s with
  | EmptyString => None
  | String c r =>
      if Ascii.eqb c q then Some (EmptyString, r)
      else match break_at q r with
           | Some (a, b) => Some (String c a, b)
           | None => None
           end
  end.

Definition starts_with (p s : string) : bool := String.prefix p s.

(** [s[n:]] *)
Fixpoint drop (n : nat) (s : string) : string :=
  match n, s with
  | O, _ => s
  | S n', String _ r => drop n' r
  | S _, EmptyString => EmptyString
  end.

(** [s[:n]] *)
Fixpoint take (n : nat) (s : string) : string :=
  match n, s with
  | O, _ => EmptyString
  | S n', String c r => String c (take n' r)
  | S _, EmptyString => EmptyString
  end.

(** [s[-n:]] for [n >= 1] *)
Definition take_last (n : nat) (s : string) : string :=
  drop (String.length s - n) s.

Definition ends_with (p s : string) : bool :=
  (String.length p <=? String.length s)%nat && String.eqb (take_last (String.length p) s) p.

(** [not s or not s.strip()] on an optional string. *)
Definition blank (s : option string) : bool :=
  match s with
  | None => true
  | Some s => str_forall isspace s
  end.

Definition opt_str (s : option string) : string :=
  match s with Some s => s | None => EmptyString end.

(** ** ElementTree ([xml.etree.ElementTree], CPython 3.11) *)

Module ET.

(** An [Element]: tag, attribute dictionary (in insertion order), [text],
    [tail] and the child elements. *)
Inductive Element : Type :=
| mkElement (tag : string) (attrib : list (string * string))
            (text tail : option string) (children : list Element).

Definition tag (e : Element) := let (t, _, _, _, _) := e in t.
Definition attrib (e : Element) := let (_, a, _, _, _) := e in a.
Definition text (e : Element) := let (_, _, t, _, _) := e in t.
Definition tail (e : Element) := let (_, _, _, t, _) := e in t.
Definition children (e : Element) := let (_, _, _, _, c) := e in c.

(** [Element(tag, attrib)] *)
Definition new_element (t : string) (a : list (string * string)) : Element :=
  mkElement t a None None [].

(** [elem.get(key)] *)
Fixpoint get (a : list (string * string)) (key : string) : option string :=
  match a with
  | [] => None
  | (k, v) :: r => if String.eqb k key then Some v else get r key
  end.

(** Elements are mutable objects with identity.  Inside one tree an element
    is identified by its position: the child indices on the way down from the
    root. *)
Definition pos : Type := list nat.

Fixpoint subtree (e : Element) (p : pos) : option Element :=
  match p with
  | [] => Some e
  | i :: p' =>
      match nth_error (children e) i with
      | Some c => subtree c p'
      | None => None
      end
  end.

Fixpoint update_nth {A} (i : nat) (f : A -> A) (l : list A) : list A :=
  match l, i with
  | [], _ => []
  | x :: r, O => f x :: r
  | x :: r, S i' => x :: update_nth i' f r
  end.

(** In-place mutation of the element at position [p]. *)
Fixpoint update (p : pos) (f : Element -> Element) (e : Element) : Element :=
  match p with
  | [] => f e
  | i :: p' =>
      let (t, a, tx, tl, cs) := e in
      mkElement t a tx tl (update_nth i (update p' f) cs)
  end.

(** Positions of the children of the element at [p]. *)
Definition child_positions (root : Element) (p : pos) : list pos :=
  match subtree root p with
  | Some e => map (fun i => p ++ [i]) (seq 0 (length (children e)))
  | None => []
  end.

Definition tag_at (root : Element) (p : pos) : string :=
  match subtree root p with Some e => tag e | None => EmptyString end.

(** *** ElementPath: the tokenizer *)

(** A token is the pair [(ttype, tag)] that [xpath_tokenizer_re.findall]
    produces. *)
Definition token : Type := (string * string)%type.

Definition single_chars : string := "/.*:[]()@=".

(** The class [[^/\[\]\(\)@!=\s]] *)
Definition tagchar (c : ascii) : bool :=
  negb (in_str c "/[]()@!=") && negb (isspace c).

Definition str1 (c : ascii) : string := String c EmptyString.

(** One step of [findall]: the match at the start of [s] (a token, or [None]
    for a character no alternative matches) and the rest of the input. *)
Definition next_match (s : string) : option token * string :=
  match s with
  | EmptyString => (None, EmptyString)
  | String c r =>
      let tag_run :=
        (* ((?:\{[^}]+\})?[^/\[\]\(\)@!=\s]+) | \s+ *)
        let plain :=
          if tagchar c then let (y, r') := span tagchar s in (Some (EmptyString, y), r')
          else if isspace c then let (_, r') := span isspace s in (Some (EmptyString, EmptyString), r')
          else (None, r) in
        if Ascii.eqb c "{" then
          match break_at "}" r with
          | Some (String x0 x, after) =>
              match span tagchar after with
              | (String y0 y, r') =>
                  (Some (EmptyString, "{" +++ String x0 x +++ "}" +++ String y0 y), r')
              | _ => plain
              end
          | _ => plain
          end
        else plain in
      let quoted (q : string) :=
        match break_at c r with
        | Some (body, r') => (Some (q +++ body +++ q, EmptyString), r')
        | None => tag_run
        end in
      let two (d : ascii) (both : string) (otherwise : option token * string) :=
        match r with
        | String c2 r2 =>
            if Ascii.eqb c2 d then (Some (both, EmptyString), r2) else otherwise
        | EmptyString => otherwise
        end in
      let single := (Some (str1 c, EmptyString), r) in
      if Ascii.eqb c "'" then quoted "'"
      else if Ascii.eqb c (chr 34) then quoted (str1 c)
      else if Ascii.eqb c ":" then two ":"%char "::" single
      else if Ascii.eqb c "/" then two "/"%char "//" single
      else if Ascii.eqb c "." then two "."%char ".." single
      else if Ascii.eqb c "(" then two ")"%char "()" single
      else if Ascii.eqb c "!" then two "="%char "!=" tag_run
      else if in_str c single_chars then single
      else tag_run
  end.

(** [xpath_tokenizer_re.findall(pattern)]; every step consumes at least one
    character, so [length pattern] steps are enough. *)
Fixpoint findall_tokens (fuel : nat) (s : string) : list token :=
  match fuel with
  | O => []
  | S fuel' =>
      match s with
      | EmptyString => []
      | _ =>
          match next_match s with
          | (Some t, r) => t :: findall_tokens fuel' r
          | (None, r) => findall_tokens fuel' r
          end
      end
  end.

(** What the generator [xpath_tokenizer(pattern)] yields, without
    namespaces: the tokens in order; a tag with a [:] that does not start
    with a brace raises [SyntaxError] when the generator reaches it. *)
Definition check_token (t : token) : result token :=
  let (ttype, tg) := t in
  match tg with
  | String c _ =>
      if negb (Ascii.eqb c "{") && in_str ":" tg
      then Raise (PyExc "SyntaxError" "prefix not found in prefix map")
      else Return t
  | EmptyString => Return t
  end.

Definition xpath_tokenizer (pattern : string) : list (result token) :=
  map check_token (findall_tokens (String.length pattern) pattern).

(** *** ElementPath: compiling a path into selectors *)

(** How a step compares tags: plainly, or through one of the wildcard forms
    of [_prepare_tag]. *)
Inductive tagsel : Type :=
| TagIs (t : string)              (* e.tag == t *)
| TagAny                          (* '{*}*', and iter('*') *)
| TagNoNs                         (* '{}*' *)
| TagLocal (t suffix : string)    (* '{*}name' *)
| TagInNs (ns : string).          (* '{ns}*' *)

(** The closures [select] that the [prepare_*] functions return. *)
Inductive selector : Type :=
| SelChild (t : tagsel)
| SelStar
| SelSelf
| SelDescendant (t : tagsel)
| SelParent
| SelHasAttr (key : string)
| SelAttrEq (key value : string)
| SelAttrNe (key value : string)
| SelHasChild (tg : string)
| SelText (tg value : string) (negated : bool)
| SelIndex (index : Z)
| SelNone.                        (* a [prepare_*] that returned None *)

Definition syntax_error (msg : string) : exn := PyExc "SyntaxError" msg.

Definition is_wildcard_tag (t : string) : bool :=
  String.eqb (take 3 t) "{*}" || String.eqb (take_last 2 t) "}*".

Definition prepare_tag (t : string) : tagsel :=
  if String.eqb t "{*}*" then TagAny
  else if String.eqb t "{}*" then TagNoNs
  else if String.eqb (take 3 t) "{*}" then TagLocal (drop 3 t) (drop 2 t)
  else TagInNs (take (String.length t - 1) t).

(** ['{}tag' == 'tag'] *)
Definition strip_empty_ns (t : string) : string :=
  if String.eqb (take 2 t) "{}" then drop 2 t else t.

(** The tag test of [prepare_child]. *)
Definition child_tagsel (t : string) : tagsel :=
  if is_wildcard_tag t then prepare_tag t else TagIs (strip_empty_ns t).

(** The tag test of [prepare_descendant]; [elem.iter('*')] visits every
    element. *)
Definition descendant_tagsel (t : string) : tagsel :=
  if is_wildcard_tag t then prepare_tag t
  else let t' := strip_empty_ns t in
       if String.eqb t' "*" then TagAny else TagIs t'.

(** The rest of the token generator, as seen by [next()]. *)
Definition tokens : Type := list (result token).

Definition prepare_descendant (toks : tokens) : result (selector * tokens) :=
  match toks with
  | [] => Return (SelNone, [])
  | Raise e :: _ => Raise e
  | Return (ttype, tg) :: r =>
      if String.eqb ttype "*" then Return (SelDescendant (descendant_tagsel "*"), r)
      else if String.eqb ttype "" then Return (SelDescendant (descendant_tagsel tg), r)
      else Raise (syntax_error "invalid descendant")
  end.

(** [s[1:-1]] *)
Definition slice_1_m1 (s : string) : string :=
  take (String.length s - 2) (drop 1 s).

(** The loop of [prepare_predicate] that collects [signature] and
    [predicate] up to the closing bracket; [None] when the tokens run out. *)
Fixpoint gather_predicate (toks : tokens) (signature predicate : list string)
  : result (option (list string * list string * tokens)) :=
  match toks with
  | [] => Return None
  | Raise e :: _ => Raise e
  | Return (ttype, tg) :: r =>
      if String.eqb ttype "]" then Return (Some (rev signature, rev predicate, r))
      else if String.eqb ttype "" && String.eqb tg "" then
        gather_predicate r signature predicate
      else
        let quoted := match ttype with
                      | String c _ => Ascii.eqb c "'" || Ascii.eqb c (chr 34)
                      | EmptyString => false
                      end in
        let ttype' := if quoted then "'" else ttype in
        let tg' := if quoted then slice_1_m1 ttype else tg in
        gather_predicate r ((if String.eqb ttype' "" then "-" else ttype') :: signature)
                         (tg' :: predicate)
  end.

(** [re.match(r"\-?\d+$", s)] on a token (tokens hold no white space). *)
Definition is_int_literal (s : string) : bool :=
  let digits := match s with
                | String c r => if Ascii.eqb c "-" then r else s
                | EmptyString => s
                end in
  negb (String.eqb digits "") && str_forall isdigit digits.

Fixpoint digits_value (s : string) (acc : Z) : Z :=
  match s with
  | EmptyString => acc
  | String c r =>
      if Ascii.eqb c "_" then digits_value r acc
      else digits_value r (10 * acc + Z.of_nat (nat_of_ascii c - 48))%Z
  end.

(** Digits separated by single underscores. *)
Fixpoint digit_groups (s : string) (after_digit : bool) : bool :=
  match s with
  | EmptyString => after_digit
  | String c r =>
      if isdigit c then digit_groups r true
      else if Ascii.eqb c "_" then after_digit && digit_groups r false
      else false
  end.

(** [int(s)] on a token: an optional sign, then digits. *)
Definition py_int (s : string) : option Z :=
  let (neg, body) :=
    match s with
    | String c r => if Ascii.eqb c "-" then (true, r)
                    else if Ascii.eqb c "+" then (false, r) else (false, s)
    | EmptyString => (false, s)
    end in
  if digit_groups body false
  then Some (if neg then (- digits_value body 0)%Z else digits_value body 0)
  else None.

Definition last_str (l : list string) : string := last l EmptyString.

(** The dispatch on [signature] at the end of [prepare_predicate]. *)
Definition predicate_selector (signature : string) (predicate : list string)
  : result selector :=
  let p0 := nth 0 predicate EmptyString in
  if String.eqb signature "@-" then Return (SelHasAttr (nth 1 predicate EmptyString))
  else if String.eqb signature "@-='" then
    Return (SelAttrEq (nth 1 predicate EmptyString) (last_str predicate))
  else if String.eqb signature "@-!='" then
    Return (SelAttrNe (nth 1 predicate EmptyString) (last_str predicate))
  else if String.eqb signature "-" && negb (is_int_literal p0) then
    Return (SelHasChild p0)
  else if String.eqb signature ".='"
          || (String.eqb signature "-='" && negb (is_int_literal p0)) then
    Return (SelText p0 (last_str predicate) false)
  else if String.eqb signature ".!='"
          || (String.eqb signature "-!='" && negb (is_int_literal p0)) then
    Return (SelText p0 (last_str predicate) true)
  else if String.eqb signature "-" then
    match py_int p0 with
    | Some n => if (n - 1 <? 0)%Z then Raise (syntax_error "XPath position >= 1 expected")
                else Return (SelIndex (n - 1))
    | None => Raise (PyExc "ValueError" "invalid literal for int()")
    end
  else if String.eqb signature "-()" || String.eqb signature "-()-" then
    if negb (String.eqb p0 "last") then Raise (syntax_error "unsupported function")
    else if String.eqb signature "-()-" then
      match py_int (nth 2 predicate EmptyString) with
      | Some n => if (-2 <? n - 1)%Z
                  then Raise (syntax_error "XPath offset from last() must be negative")
                  else Return (SelIndex (n - 1))
      | None => Raise (syntax_error "unsupported expression")
      end
    else Return (SelIndex (-1))
  else Raise (syntax_error "invalid predicate").

Definition prepare_predicate (toks : tokens) : result (selector * tokens) :=
  match gather_predicate toks [] [] with
  | Raise e => Raise e
  | Return None => Return (SelNone, [])
  | Return (Some (signature, predicate, r)) =>
      match predicate_selector (String.concat "" signature) predicate with
      | Raise e => Raise e
      | Return sel => Return (sel, r)
      end
  end.

(** [ops[token[0]](next, token)] *)
Definition prepare (t : token) (toks : tokens) : result (selector * tokens) :=
  let (ttype, tg) := t in
  if String.eqb ttype "" then Return (SelChild (child_tagsel tg), toks)
  else if String.eqb ttype "*" then Return (SelStar, toks)
  else if String.eqb ttype "." then Return (SelSelf, toks)
  else if String.eqb ttype ".." then Return (SelParent, toks)
  else if String.eqb ttype "//" then prepare_descendant toks
  else if String.eqb ttype "[" then prepare_predicate toks
  else Raise (PyExc "KeyError" ttype).

(** The [while 1] loop of [iterfind] that builds [selector], entered with
    the current [token]; each round consumes at least one token. *)
Fixpoint compile_loop (fuel : nat) (t : token) (toks : tokens)
  : result (list selector) :=
  match fuel with
  | O => Return []
  | S fuel' =>
      match prepare t toks with
      | Raise e => Raise e
      | Return (sel, toks1) =>
          let continue (t' : token) (toks' : tokens) :=
            match compile_loop fuel' t' toks' with
            | Raise e => Raise e
            | Return sels => Return (sel :: sels)
            end in
          match toks1 with
          | [] => Return [sel]
          | Raise e :: _ => Raise e
          | Return (ttype, tg) :: toks2 =>
              if String.eqb ttype "/" then
                match toks2 with
                | [] => Return [sel]
                | Raise e :: _ => Raise e
                | Return t' :: toks3 => continue t' toks3
                end
              else continue (ttype, tg) toks2
          end
      end
  end.

(** The compiling half of [iterfind(elem, path)]: [None] is the bare
    [return] taken on an empty token stream. *)
Definition compile (path : string) : result (option (list selector)) :=
  let path := if String.eqb (take_last 1 path) "/" then path +++ "*" else path in
  if String.eqb (take 1 path) "/"
  then Raise (syntax_error "cannot use absolute path on element")
  else
    match xpath_tokenizer path with
    | [] => Return None
    | Raise e :: _ => Raise e
    | Return t :: toks =>
        match compile_loop (S (length toks)) t toks with
        | Raise e => Raise e
        | Return sels => Return (Some sels)
        end
    end.

(** *** ElementPath: running the selectors *)

Definition tag_matches (ts : tagsel) (el_tag : string) : bool :=
  match ts with
  | TagIs t => String.eqb el_tag t
  | TagAny => true
  | TagNoNs => negb (String.eqb (take 1 el_tag) "{")
  | TagLocal t suffix =>
      String.eqb el_tag t
      || String.eqb (take_last (String.length suffix) el_tag) suffix
  | TagInNs ns => String.eqb (take (String.length ns) el_tag) ns
  end.

(** [checkpath] of the C accelerator: does [Element.find] hand the path to
    ElementPath, or compare it with the child tags directly? *)
Fixpoint has_pathchar (check : bool) (s : string) : bool :=
  match s with
  | EmptyString => false
  | String c r =>
      if Ascii.eqb c "{" then has_pathchar false r
      else if Ascii.eqb c "}" then has_pathchar true r
      else (check && in_str c "/*[@.") || has_pathchar check r
  end.

Definition checkpath (path : string) : bool :=
  String.eqb (take 2 path) "{}" && (3 <=? String.length path)%nat
  || String.eqb (take 3 path) "{*}"
  || has_pathchar true path.

(** All positions of the subtree of [e], which sits at [p], in document
    order ([elem.iter()]). *)
Fixpoint iter_positions (e : Element) (p : pos) : list pos :=
  match e with
  | mkElement _ _ _ _ cs =>
      p :: (fix go (cs : list Element) (i : nat) : list pos :=
              match cs with
              | [] => []
              | c :: r => iter_positions c (p ++ [i]) ++ go r (S i)
              end) cs O
  end.

Definition descendants (root : Element) (p : pos) : list pos :=
  match subtree root p with
  | Some e => List.tl (iter_positions e p)
  | None => []
  end.

(** ["".join(e.itertext())] *)
Fixpoint itertext (e : Element) : string :=
  match e with
  | mkElement _ _ tx _ cs =>
      opt_str tx +++
      (fix go (cs : list Element) : string :=
         match cs with
         | [] => EmptyString
         | c :: r => itertext c +++ opt_str (tail c) +++ go r
         end) cs
  end.

Definition itertext_at (root : Element) (p : pos) : string :=
  match subtree root p with Some e => itertext e | None => EmptyString end.

Definition attrib_at (root : Element) (p : pos) : list (string * string) :=
  match subtree root p with Some e => attrib e | None => [] end.

(** The children that [elem.find(tg)], [elem.findall(tg)] and
    [elem.iterfind(tg)] look at when [tg] is a single tag token: ElementPath
    compiles such a path to one child step; [find] and [findall] only go
    through ElementPath when [checkpath] says so. *)
Definition children_by_tag (via_path : bool) (root : Element) (p : pos)
           (tg : string) : list pos :=
  let ts := if via_path || checkpath tg then child_tagsel tg else TagIs tg in
  filter (fun q => tag_matches ts (tag_at root q)) (child_positions root p).

Definition pos_eqb (p q : pos) : bool :=
  if list_eq_dec Nat.eq_dec p q then true else false.

(** [elems[index]] with Python's negative indices. *)
Definition py_index {A} (l : list A) (index : Z) : option A :=
  if (0 <=? index)%Z then nth_error l (Z.to_nat index)
  else if (0 <=? Z.of_nat (length l) + index)%Z
       then nth_error l (Z.to_nat (Z.of_nat (length l) + index))
       else None.

Fixpoint select_parent (result seen : list pos) : list pos :=
  match result with
  | [] => []
  | p :: r =>
      match p with
      | [] => select_parent r seen
      | _ :: _ =>
          let parent := removelast p in
          if existsb (pos_eqb parent) seen then select_parent r seen
          else parent :: select_parent r (parent :: seen)
      end
  end.

(** [select(context, result)]; [root] is [context.root]. *)
Definition select (root : Element) (sel : selector) (result : list pos) : list pos :=
  match sel with
  | SelChild ts =>
      flat_map (fun p => filter (fun q => tag_matches ts (tag_at root q))
                                (child_positions root p)) result
  | SelStar => flat_map (child_positions root) result
  | SelSelf => result
  | SelDescendant ts =>
      flat_map (fun p => filter (fun q => tag_matches ts (tag_at root q))
                                (descendants root p)) result
  | SelParent => select_parent result []
  | SelHasAttr key =>
      filter (fun p => match get (attrib_at root p) key with
                       | Some _ => true | None => false end) result
  | SelAttrEq key value =>
      filter (fun p => match get (attrib_at root p) key with
                       | Some v => String.eqb v value | None => false end) result
  | SelAttrNe key value =>
      filter (fun p => match get (attrib_at root p) key with
                       | Some v => negb (String.eqb v value) | None => false end) result
  | SelHasChild tg =>
      filter (fun p => match children_by_tag false root p tg with
                       | [] => false | _ :: _ => true end) result
  | SelText tg value negated =>
      let hit q := xorb negated (String.eqb (itertext_at root q) value) in
      if String.eqb tg "" then filter hit result
      else filter (fun p => existsb hit (children_by_tag negated root p tg)) result
  | SelIndex index =>
      filter (fun p =>
                match p with
                | [] => false
                | _ :: _ =>
                    let elems := children_by_tag false root (removelast p) (tag_at root p) in
                    match py_index elems index with
                    | Some q => pos_eqb q p
                    | None => false
                    end
                end) result
  | SelNone => result
  end.

Definition is_none (sel : selector) : bool :=
  match sel with SelNone => true | _ => false end.

(** [ElementPath.findall(elem, path)] with [elem] the root of the tree. *)
Definition path_findall (root : Element) (path : string) : result (list pos) :=
  match compile path with
  | Raise e => Raise e
  | Return None => Raise (PyExc "TypeError" "'NoneType' object is not iterable")
  | Return (Some sels) =>
      if existsb is_none sels
      then Raise (PyExc "TypeError" "'NoneType' object is not callable")
      else Return (fold_left (fun result sel => select root sel result) sels [[]])
  end.

(** [root.findall(path)] *)
Definition findall (root : Element) (path : string) : result (list pos) :=
  if checkpath path then path_findall root path
  else Return (filter (fun q => String.eqb (tag_at root q) path)
                      (child_positions root [])).

(** [root.find(path)]: the first match or [None]. *)
Definition find (root : Element) (path : string) : result (option pos) :=
  match findall root path with
  | Raise e => Raise e
  | Return l => Return (hd_error l)
  end.

(** *** Building and mutating trees *)

Definition set_text (tx : option string) (e : Element) : Element :=
  let (t, a, _, tl, cs) := e in mkElement t a tx tl cs.

Definition set_tail (tl : option string) (e : Element) : Element :=
  let (t, a, tx, _, cs) := e in mkElement t a tx tl cs.

Definition append_child (c : Element) (e : Element) : Element :=
  let (t, a, tx, tl, cs) := e in mkElement t a tx tl (cs ++ [c]).

(** [ET.SubElement(parent, tag, attrib)] with [parent] the element at [p]:
    the mutated tree and the position of the new element. *)
Definition SubElement (root : Element) (p : pos) (t : string)
           (a : list (string * string)) : Element * pos :=
  let n := match subtree root p with
           | Some e => length (children e)
           | None => O
           end in
  (update p (append_child (new_element t a)) root, p ++ [n]).

(** *** [ET.indent(tree, space="  ", level=0)] *)

Fixpoint repeat_str (n : nat) (s : string) : string :=
  match n with
  | O => EmptyString
  | S n' => s +++ repeat_str n' s
  end.

Definition newline : string := str1 (chr 10).

(** [indentations[level]] *)
Definition indentation (level : nat) : string :=
  newline +++ repeat_str level "  ".

Definition has_children (e : Element) : bool :=
  match children e with [] => false | _ :: _ => true end.

(** [_indent_children(elem, level)] *)
Fixpoint indent_children (level : nat) (e : Element) : Element :=
  match e with
  | mkElement t a tx tl cs =>
      let child_indentation := indentation (S level) in
      mkElement t a (if blank tx then Some child_indentation else tx) tl
        ((fix each (cs : list Element) : list Element :=
            match cs with
            | [] => []
            | c :: r =>
                let c1 := match c with
                          | mkElement _ _ _ _ (_ :: _) => indent_children (S level) c
                          | _ => c
                          end in
                let c2 := if blank (tail c1)
                          then set_tail (Some (match r with
                                               | [] => indentation level
                                               | _ :: _ => child_indentation
                                               end)) c1
                          else c1 in
                c2 :: each r
            end) cs)
  end.

Definition indent (root : Element) : Element :=
  if has_children root then indent_children 0 root else root.

(** *** Writing and parsing

    The database file is modelled by the sequence of markup events that
    [tree.write] puts into it and that expat reports on reading it back:
    start tags with their attributes, character data, end tags.  The
    escaping of [&], [<], [>] (and of quotes, tabs and line breaks in
    attribute values) by the writer and its undoing by the parser are
    not represented. *)
Inductive event : Type :=
| Start (t : string) (a : list (string * string))
| Data (s : string)
| End_ (t : string).

(** [if text: write(_escape_cdata(text))] *)
Definition chardata (s : option string) : list event :=
  match s with
  | None => []
  | Some EmptyString => []
  | Some s => [Data s]
  end.

(** [_serialize_xml(write, elem, ...)]; an element without text and
    children is written [<tag />], which reads back as a start tag followed
    by an end tag. *)
Fixpoint serialize (e : Element) : list event :=
  match e with
  | mkElement t a tx tl cs =>
      Start t a :: chardata tx ++ flat_map serialize cs ++ End_ t :: chardata tl
  end.

(** A character XML 1.0 allows in a document. *)
Definition xml_char (c : ascii) : bool :=
  let n := nat_of_ascii c in
  ((32 <=? n) || (n =? 9) || (n =? 10) || (n =? 13))%nat.

(** White space as XML defines it, the only text allowed outside the root
    element. *)
Definition xml_space (c : ascii) : bool :=
  let n := nat_of_ascii c in
  ((n =? 32) || (n =? 9) || (n =? 10) || (n =? 13))%nat.

(** Line-break normalisation of character data by the parser: a carriage
    return, with the line feed that may follow it, becomes one line feed. *)
Fixpoint normalize_newlines (s : string) : string :=
  match s with
  | EmptyString => EmptyString
  | String c r =>
      if Ascii.eqb c (chr 13) then
        String (chr 10)
               (match r with
                | String c2 r2 => if Ascii.eqb c2 (chr 10) then normalize_newlines r2
                                  else normalize_newlines r
                | EmptyString => EmptyString
                end)
      else String c (normalize_newlines r)
  end.

Definition parse_error (msg : string) : exn := PyExc "ParseError" msg.

(** An element under construction by the [TreeBuilder]: its tag,
    attributes, text and the children closed so far, last one first. *)
Record frame : Type := mkFrame {
  ftag : string;
  fattrib : list (string * string);
  ftext : option string;
  fkids : list Element
}.

(** Parser state: open elements (innermost first), the finished root, the
    pending character data ([self._data]) and [self._tail]. *)
Record builder : Type := mkBuilder {
  stack : list frame;
  root_done : option Element;
  data : list string;
  after_end : bool
}.

(** [TreeBuilder._flush] *)
Definition flush (b : builder) : builder :=
  match data b with
  | [] => b
  | _ :: _ =>
      let tx := String.concat "" (data b) in
      match stack b with
      | [] => mkBuilder [] (root_done b) [] (after_end b)
      | f :: fs =>
          let f' :=
            if after_end b then
              match fkids f with
              | k :: ks => mkFrame (ftag f) (fattrib f) (ftext f) (set_tail (Some tx) k :: ks)
              | [] => f
              end
            else mkFrame (ftag f) (fattrib f) (Some tx) (fkids f) in
          mkBuilder (f' :: fs) (root_done b) [] (after_end b)
      end
  end.

(** One event fed to the parser. *)
Definition feed (b : builder) (ev : event) : result builder :=
  match ev with
  | Start t a =>
      if negb (forallb (fun kv => str_forall xml_char (snd kv)) a)
      then Raise (parse_error "not well-formed (invalid token)")
      else
        match stack b, root_done b with
        | [], Some _ => Raise (parse_error "junk after document element")
        | _, _ =>
            let b1 := flush b in
            Return (mkBuilder (mkFrame t a None [] :: stack b1) (root_done b1) [] false)
        end
  | Data s =>
      if negb (str_forall xml_char s)
      then Raise (parse_error "not well-formed (invalid token)")
      else
        match stack b with
        | [] => if str_forall xml_space s then Return b
                else Raise (parse_error "syntax error")
        | _ :: _ =>
            Return (mkBuilder (stack b) (root_done b)
                              (data b ++ [normalize_newlines s]) (after_end b))
        end
  | End_ t =>
      let b1 := flush b in
      match stack b1 with
      | [] => Raise (parse_error "syntax error")
      | f :: fs =>
          if negb (String.eqb (ftag f) t) then Raise (parse_error "mismatched tag")
          else
            let e := mkElement (ftag f) (fattrib f) (ftext f) None (rev (fkids f)) in
            match fs with
            | [] => Return (mkBuilder [] (Some e) [] true)
            | g :: gs =>
                Return (mkBuilder (mkFrame (ftag g) (fattrib g) (ftext g) (e :: fkids g) :: gs)
                                  (root_done b1) [] true)
            end
      end
  end.

Fixpoint feed_all (b : builder) (evs : list event) : result builder :=
  match evs with
  | [] => Return b
  | ev :: r =>
      match feed b ev with
      | Raise e => Raise e
      | Return b' => feed_all b' r
      end
  end.

(** [ET.parse(file).getroot()] on the events of the file. *)
Definition parse (evs : list event) : result Element :=
  match feed_all (mkBuilder [] None [] false) evs with
  | Raise e => Raise e
  | Return b =>
      match stack b, root_done b with
      | [], Some e => Return e
      | _, _ => Raise (parse_error "no element found")
      end
  end.

End ET.

(** ** The server: note store and lookup ([notebook_server.py]) *)

Module Server.

Import ET.

(** A reading of the UTC clock: [datetime.datetime.utcnow()]. *)
Record datetime : Type := mkDatetime {
  year : Z; month : Z; day : Z;
  hour : Z; minute : Z; second : Z
}.

(** What [utcnow()] can return. *)
Definition valid_datetime (d : datetime) : Prop :=
  (1 <= year d <= 9999 /\ 1 <= month d <= 12 /\ 1 <= day d <= 31 /\
   0 <= hour d <= 23 /\ 0 <= minute d <= 59 /\ 0 <= second d <= 59)%Z.

(** A ["%02d"] field of [strftime]. *)
Definition pad2 (n : Z) : string :=
  let s := str_of_int n in
  if (String.length s <? 2)%nat then "0" +++ s else s.

(** [d.strftime("%m/%d/%y - %H:%M:%S")] *)
Definition strftime (d : datetime) : string :=
  pad2 (month d) +++ "/" +++ pad2 (day d) +++ "/" +++ pad2 (year d mod 100)%Z
  +++ " - " +++ pad2 (hour d) +++ ":" +++ pad2 (minute d) +++ ":" +++ pad2 (second d).

(** The file at [DB_PATH]: absent, or holding a document. *)
Definition file : Type := option (list event).

(** [_load_tree()]: the root of the parsed tree and the file afterwards. *)
Definition _load_tree (f : file) : result Element * file :=
  match f with
  | Some doc => (parse doc, f)
  | None =>
      let doc := serialize (new_element "data" []) in
      (parse doc, Some doc)
  end.

(** The path both [add_note] and [get_notes] look the topic up with. *)
Definition topic_path (topic : string) : string :=
  "./topic[@name='" +++ topic +++ "']".

(** [timestamp or datetime.datetime.utcnow().strftime(...)] *)
Definition timestamp_or_now (timestamp : option string) (now : datetime) : string :=
  match timestamp with
  | None => strftime now
  | Some EmptyString => strftime now
  | Some ts => ts
  end.

(** The body of [add_note] between loading and writing the tree. *)
Definition add_note_tree (root : Element) (topic_el : option pos)
           (topic text timestamp : string) : Element :=
  let (root1, topic_el) :=
    match topic_el with
    | None => SubElement root [] "topic" [("name", topic)]
    | Some p => (root, p)
    end in
  let note_name := if (String.length text <=? 30)%nat then text else take 30 text in
  let (root2, note_el) := SubElement root1 topic_el "note" [("name", note_name)] in
  let (root3, text_el) := SubElement root2 note_el "text" [] in
  let root4 := update text_el (set_text (Some text)) root3 in
  let (root5, timestamp_el) := SubElement root4 note_el "timestamp" [] in
  let root6 := update timestamp_el (set_text (Some timestamp)) root5 in
  indent root6.

(** [add_note(topic, text, timestamp=None)], called when the clock reads
    [now], on the database file [f]. *)
Definition add_note (topic text : string) (timestamp : option string)
           (now : datetime) (f : file) : result bool * file :=
  let timestamp := timestamp_or_now timestamp now in
  match _load_tree f with
  | (Raise e, f1) => (Raise e, f1)
  | (Return root, f1) =>
      match find root (topic_path topic) with
      | Raise e => (Raise e, f1)
      | Return topic_el =>
          (Return true,
           Some (serialize (add_note_tree root topic_el topic text timestamp)))
      end
  end.

Definition value_of_text (s : option string) : value :=
  match s with Some s => VStr s | None => VNone end.

(** [note.find(tg).text if note.find(tg) is not None else ""] *)
Definition child_text (note : Element) (tg : string) : value :=
  match List.find (fun c => String.eqb (tag c) tg) (children note) with
  | Some c => value_of_text (text c)
  | None => VStr ""
  end.

(** [get_notes(topic)] *)
Definition get_notes (topic : string) (f : file) : result value * file :=
  match _load_tree f with
  | (Raise e, f1) => (Raise e, f1)
  | (Return root, f1) =>
      match find root (topic_path topic) with
      | Raise e => (Raise e, f1)
      | Return None => (Return (VList []), f1)
      | Return (Some p) =>
          match subtree root p with
          | None => (Return (VList []), f1)
          | Some topic_el =>
              if negb (has_children topic_el) then (Return (VList []), f1)
              else
                (Return (VList
                   (map (fun note => VList [child_text note "timestamp";
                                            child_text note "text"])
                        (filter (fun c => String.eqb (tag c) "note")
                                (children topic_el)))), f1)
          end
      end
  end.

(** [[topic.attrib['name'] for topic in root.findall('topic')]] *)
Fixpoint topic_names (topics : list Element) : result (list value) :=
  match topics with
  | [] => Return []
  | t :: r =>
      match get (attrib t) "name" with
      | None => Raise (PyExc "KeyError" "'name'")
      | Some n =>
          match topic_names r with
          | Raise e => Raise e
          | Return l => Return (VStr n :: l)
          end
      end
  end.

(** [list_topics()] *)
Definition list_topics (f : file) : result value * file :=
  match _load_tree f with
  | (Raise e, f1) => (Raise e, f1)
  | (Return root, f1) =>
      match topic_names (filter (fun c => String.eqb (tag c) "topic") (children root)) with
      | Raise e => (Raise e, f1)
      | Return l => (Return (VList l), f1)
      end
  end.

(** *** [wiki_lookup] *)

(** A decoded JSON document, as [json.loads] builds it: [None], a [bool],
    an [int] (a number written without fraction and exponent), a [float]
    (any other number, a binary64 value, with the infinities and NaN the
    decoder accepts), a [str], a [list], or a [dict] given by its items
    (the keys pairwise different). *)
Inductive json : Type :=
| JNull
| JBool (b : bool)
| JNum (z : Z)
| JFloat (x : SpecFloat.spec_float)
| JStr (s : string)
| JArr (l : list json)
| JObj (l : list (string * json)).

(** [type(x).__name__] *)
Definition json_type (x : json) : string :=
  match x with
  | JNull => "NoneType"
  | JBool _ => "bool"
  | JNum _ => "int"
  | JFloat _ => "float"
  | JStr _ => "str"
  | JArr _ => "list"
  | JObj _ => "dict"
  end.

(** [bool(x)] *)
Definition truthy (x : json) : bool :=
  match x with
  | JNull => false
  | JBool b => b
  | JNum z => negb (z =? 0)%Z
  | JFloat x => match x with SpecFloat.S754_zero _ => false | _ => true end
  | JStr s => negb (String.eqb s "")
  | JArr l => match l with [] => false | _ :: _ => true end
  | JObj l => match l with [] => false | _ :: _ => true end
  end.

(** [x[i]] for a literal index [i >= 0] *)
Definition subscript (x : json) (i : nat) : result json :=
  match x with
  | JArr l =>
      match nth_error l i with
      | Some y => Return y
      | None => Raise (PyExc "IndexError" "list index out of range")
      end
  | JStr s =>
      match String.get i s with
      | Some c => Return (JStr (str1 c))
      | None => Raise (PyExc "IndexError" "string index out of range")
      end
  | JObj _ => Raise (PyExc "KeyError" (str_of_int (Z.of_nat i)))
  | _ => Raise (PyExc "TypeError" ("'" +++ json_type x +++ "' object is not subscriptable"))
  end.

(** [len(x)] *)
Definition len (x : json) : result nat :=
  match x with
  | JArr l => Return (length l)
  | JStr s => Return (String.length s)
  | JObj l => Return (length l)
  | _ => Raise (PyExc "TypeError" ("object of type '" +++ json_type x +++ "' has no len()"))
  end.

(** [wiki_lookup(topic)].  [service topic] is the outcome of
    [requests.get(<opensearch query for topic>).json()]: the decoded
    body, or the exception raised because the service cannot be reached or
    the body is not JSON. *)
Definition wiki_lookup (service : string -> result json) (topic : string)
  : result json :=
  match service topic with
  | Raise e => Raise e
  | Return resp =>
      if negb (truthy resp) then Return (JStr "")
      else
        match subscript resp 3 with
        | Raise e => Raise e
        | Return urls =>
            match len urls with
            | Raise e => Raise e
            | Return O => Return (JStr "")
            | Return (S _) => subscript urls 0
            end
        end
  end.

End Server.


(** ** Vocabulary for statements about the store *)

Module Store.

Import ET Server.

(** The position [p] denotes an element of the tree. *)
Definition valid (root : Element) (p : pos) : Prop :=
  exists e, subtree root p = Some e.

(** The [<note>] element [add_note] builds for a text and a time stamp. *)
Definition note_element (text timestamp : string) : Element :=
  mkElement "note"
    [("name", if (String.length text <=? 30)%nat then text else take 30 text)]
    None None
    [mkElement "text" [] (Some text) None [];
     mkElement "timestamp" [] (Some timestamp) None []].

(** The tree and the topic element [add_note] goes on with once the lookup
    has returned [topic_el]. *)
Definition located_topic (root : Element) (topic_el : option pos)
           (topic : string) : Element * pos :=
  match topic_el with
  | None => SubElement root [] "topic" [("name", topic)]
  | Some p => (root, p)
  end.

(** The topic is free of the character that ends the quoted value in
    [topic_path]. *)
Definition no_apostrophe (topic : string) : bool :=
  negb (in_str "'" topic).

(** Character data that reads back as it was written: only characters XML
    allows, and no carriage return. *)
Definition clean (s : string) : bool :=
  str_forall xml_char s && negb (in_str (chr 13) s).

(** A [text] or [tail] that reads back as it was written: absent, or
    non-empty and clean. *)
Definition clean_text (s : option string) : bool :=
  match s with
  | None => true
  | Some s => negb (String.eqb s "") && clean s
  end.

(** A tree that reads back as it was written. *)
Fixpoint tree_ok (e : Element) : bool :=
  match e with
  | mkElement _ a tx tl cs =>
      forallb (fun kv => str_forall xml_char (snd kv)) a
      && clean_text tx && clean_text tl && forallb tree_ok cs
  end.

(** A tree without its layout: the text of elements that have children and
    all tails, which is where [ET.indent] puts the white space. *)
Fixpoint skeleton (e : Element) : Element :=
  match e with
  | mkElement t a tx _ cs =>
      mkElement t a (match cs with [] => tx | _ :: _ => None end) None
                (map skeleton cs)
  end.

(** The notebook as the specification sees it: topics in order of creation,
    each with its notes, a note being a time stamp and a text. *)
Definition note : Type := (string * string)%type.
Definition notebook : Type := list (string * list note).

Fixpoint nb_add (topic : string) (n : note) (nb : notebook) : notebook :=
  match nb with
  | [] => [(topic, [n])]
  | (name, notes) :: r =>
      if String.eqb name topic then (name, notes ++ [n]) :: r
      else (name, notes) :: nb_add topic n r
  end.

Fixpoint nb_get (topic : string) (nb : notebook) : list note :=
  match nb with
  | [] => []
  | (name, notes) :: r =>
      if String.eqb name topic then notes else nb_get topic r
  end.

(** Index of the first topic called [topic]. *)
Fixpoint nb_index (topic : string) (nb : notebook) : option nat :=
  match nb with
  | [] => None
  | (name, _) :: r =>
      if String.eqb name topic then Some O
      else option_map S (nb_index topic r)
  end.

(** The frame [f] with one more closed child. *)
Definition push_kid (e : Element) (f : frame) : frame :=
  mkFrame (ftag f) (fattrib f) (ftext f) (e :: fkids f).

(** Index of the first element of a list that satisfies [P]. *)
Fixpoint first_index {A} (P : A -> bool) (l : list A) : option nat :=
  match l with
  | [] => None
  | x :: r => if P x then Some O else option_map S (first_index P r)
  end.

(** The test the compiled [topic_path] applies to a child of the root. *)
Definition is_topic (topic : string) (c : Element) : bool :=
  String.eqb (tag c) "topic"
  && match get (attrib c) "name" with
     | Some v => String.eqb v topic
     | None => false
     end.

(** The tree of a notebook, without layout. *)
Definition note_tree (n : note) : Element := note_element (snd n) (fst n).

Definition topic_tree (t : string * list note) : Element :=
  mkElement "topic" [("name", fst t)] None None (map note_tree (snd t)).

Definition notebook_tree (nb : notebook) : Element :=
  mkElement "data" [] None None (map topic_tree nb).

(** The database file holds the notebook [nb]. *)
Definition holds (f : file) (nb : notebook) : Prop :=
  match f with
  | None => nb = []
  | Some doc =>
      exists root, doc = serialize root /\ tree_ok root = true
                   /\ tail root = None /\ skeleton root = notebook_tree nb
  end.

(** What [get_notes] returns for a list of notes. *)
Definition notes_value (notes : list note) : value :=
  VList (map (fun n => VList [VStr (fst n); VStr (snd n)]) notes).

(** One call of [add_note]. *)
Record call : Type := mkCall {
  c_topic : string;
  c_text : string;
  c_timestamp : option string;
  c_now : datetime
}.

Definition call_note (c : call) : note :=
  (timestamp_or_now (c_timestamp c) (c_now c), c_text c).

(** The calls this development proves the round trip for: no apostrophe in
    the topic, XML characters only, no carriage return and no empty string
    in text and time stamp. *)
Definition plain_call (c : call) : bool :=
  no_apostrophe (c_topic c) && str_forall xml_char (c_topic c)
  && clean_text (Some (c_text c))
  && clean_text (Some (timestamp_or_now (c_timestamp c) (c_now c))).

(** The file after a sequence of [add_note] calls. *)
Definition run_calls (calls : list call) (f : file) : file :=
  fold_left (fun f c => snd (add_note (c_topic c) (c_text c) (c_timestamp c)
                                      (c_now c) f)) calls f.

(** The notebook after a sequence of additions. *)
Definition nb_run (calls : list call) (nb : notebook) : notebook :=
  fold_left (fun nb c => nb_add (c_topic c) (call_note c) nb) calls nb.

Definition notes_under (topic : string) (calls : list call) : list note :=
  map call_note (filter (fun c => String.eqb (c_topic c) topic) calls).

(** The shape [MM/DD/YY - HH:MM:SS]: two digits wherever a letter stands. *)
Definition timestamp_format (s : string) : bool :=
  match list_ascii_of_string s with
  | [m1; m2; a; d1; d2; b; y1; y2; c; d; e; h1; h2; f; n1; n2; g; s1; s2] =>
      forallb isdigit [m1; m2; d1; d2; y1; y2; h1; h2; n1; n2; s1; s2]
      && String.eqb (string_of_list_ascii [a; b; c; d; e; f; g]) "// - ::"
  | _ => false
  end.

End Store.

(** ** Concrete situations used to exercise the statements *)

Module Scenario.

Import Client.

Definition refused : exn :=
  PyExc "ConnectionRefusedError" "[Errno 111] Connection refused".

(** No replica is running. *)
Definition all_down (url method : string) (args : list value) (n : unit)
  : result value * unit := (Raise refused, n).

(** Every replica is running and answers [v]. *)
Definition answering (v : value) (url method : string) (args : list value)
           (n : unit) : result value * unit := (Return v, n).

(** The replica on port 8000 is down, the one on port 8001 answers [v]. *)
Definition first_down (v : value) (url method : string) (args : list value)
           (n : unit) : result value * unit :=
  if String.eqb url "http://localhost:8000" then (Raise refused, n)
  else (Return v, n).

(** The replicas answer [v] while the network is up ([true]) and cannot be
    reached while it is down. *)
Definition when_up (v : value) (url method : string) (args : list value)
           (up : bool) : result value * bool :=
  if up then (Return v, up) else (Raise refused, up).

(** A clock reading. *)
Definition morning : Server.datetime := Server.mkDatetime 2025 3 7 9 5 59.

(** The reference service cannot be reached. *)
Definition unreachable (topic : string) : result Server.json :=
  Raise (PyExc "ConnectionError" "Max retries exceeded").

(** The reference service answers with a body that is no JSON. *)
Definition not_json (topic : string) : result Server.json :=
  Raise (PyExc "JSONDecodeError" "Expecting value: line 1 column 1 (char 0)").

(** The reference service answers with JSON of another shape. *)
Definition error_body (topic : string) : result Server.json :=
  Return (Server.JObj [("error", Server.JStr "badrequest")]).

(** The reference service answers an opensearch query with these URLs. *)
Definition opensearch (urls : list string) (topic : string) : result Server.json :=
  Return (Server.JArr [Server.JStr topic; Server.JArr (map Server.JStr urls);
                       Server.JArr (map (fun _ => Server.JStr "") urls);
                       Server.JArr (map Server.JStr urls)]).

(** The client right after start-up. *)
Definition start : state unit := mkState 0 [] [] tt.

End Scenario.

(** ** What Python prints and reads *)

Module PyText.

(** [str.isprintable] on one character. *)
Definition isprintable (c : ascii) : bool :=
  let n := nat_of_ascii c in
  (((32 <=? n) && (n <? 127)) || ((161 <=? n) && negb (n =? 173)))%nat.

Definition hex_digit (n : nat) : ascii :=
  if (n <? 10)%nat then chr (48 + n) else chr (87 + n).

Definition backslash : ascii := chr 92.

Definition double_quote : ascii := chr 34.

(** One character of [repr(s)], [quote] being the quote chosen for [s]. *)
Definition repr_char (quote c : ascii) : string :=
  let n := nat_of_ascii c in
  if Ascii.eqb c quote || Ascii.eqb c backslash then String backslash (ET.str1 c)
  else if (n =? 9)%nat then String backslash "t"
  else if (n =? 10)%nat then String backslash "n"
  else if (n =? 13)%nat then String backslash "r"
  else if isprintable c then ET.str1 c
  else String backslash
         (String "x" (String (hex_digit (n / 16)) (ET.str1 (hex_digit (n mod 16))))).

(** [repr(s)] for a [str] *)
Definition repr_str (s : string) : string :=
  let quote := if in_str "'" s && negb (in_str double_quote s)
               then double_quote else "'"%char in
  String quote
    (String.concat "" (map (repr_char quote) (list_ascii_of_string s)) +++ ET.str1 quote).

(** [repr(v)] *)
Fixpoint py_repr (v : value) : string :=
  match v with
  | VNone => "None"
  | VBool true => "True"
  | VBool false => "False"
  | VInt z => str_of_int z
  | VStr s => repr_str s
  | VList l => "[" +++ String.concat ", " (map py_repr l) +++ "]"
  end.

(** [str(v)], which is also what [print] and an f-string field write. *)
Definition py_str (v : value) : string :=
  match v with
  | VStr s => s
  | _ => py_repr v
  end.

(** [bool(v)] *)
Definition truthy (v : value) : bool :=
  match v with
  | VNone => false
  | VBool b => b
  | VInt z => negb (z =? 0)%Z
  | VStr s => negb (String.eqb s "")
  | VList l => match l with [] => false | _ :: _ => true end
  end.

(** [type(v).__name__] *)
Definition type_name (v : value) : string :=
  match v with
  | VNone => "NoneType"
  | VBool _ => "bool"
  | VInt _ => "int"
  | VStr _ => "str"
  | VList _ => "list"
  end.

(** [list(iter(v))]: the items a [for] loop over [v] sees. *)
Definition iterate (v : value) : result (list value) :=
  match v with
  | VList l => Return l
  | VStr s => Return (map (fun c => VStr (ET.str1 c)) (list_ascii_of_string s))
  | _ => Raise (PyExc "TypeError" ("'" +++ type_name v +++ "' object is not iterable"))
  end.

(** [a, b = v] *)
Definition unpack2 (v : value) : result (value * value) :=
  match iterate v with
  | Raise _ =>
      Raise (PyExc "TypeError"
                   ("cannot unpack non-iterable " +++ type_name v +++ " object"))
  | Return [a; b] => Return (a, b)
  | Return (_ :: _ :: _ :: _) =>
      Raise (PyExc "ValueError" "too many values to unpack (expected 2)")
  | Return l =>
      Raise (PyExc "ValueError"
                   ("not enough values to unpack (expected 2, got "
                    +++ str_of_int (Z.of_nat (length l)) +++ ")"))
  end.

(** The items of [sep.join(v)] from position [i] on: all of them have to be
    [str]. *)
Fixpoint join_items (i : nat) (l : list value) : result (list string) :=
  match l with
  | [] => Return []
  | VStr s :: r =>
      match join_items (S i) r with
      | Raise e => Raise e
      | Return ss => Return (s :: ss)
      end
  | v :: _ =>
      Raise (PyExc "TypeError"
                   ("sequence item " +++ str_of_int (Z.of_nat i)
                    +++ ": expected str instance, " +++ type_name v +++ " found"))
  end.

(** [sep.join(v)] *)
Definition join (sep : string) (v : value) : result string :=
  match iterate v with
  | Raise _ => Raise (PyExc "TypeError" "can only join an iterable")
  | Return l =>
      match join_items 0 l with
      | Raise e => Raise e
      | Return ss => Return (String.concat sep ss)
      end
  end.

(** [str.lower] on one character (code points below 256). *)
Definition lower_char (c : ascii) : ascii :=
  let n := nat_of_ascii c in
  if (((65 <=? n) && (n <=? 90))
      || ((192 <=? n) && (n <=? 222) && negb (n =? 215)))%nat
  then chr (n + 32) else c.

(** [s.lower()] *)
Fixpoint lower (s : string) : string :=
  match s with
  | EmptyString => EmptyString
  | String c r => String (lower_char c) (lower r)
  end.

(** The white space [int] ignores around a literal. *)
Definition int_space (c : ascii) : bool :=
  let n := nat_of_ascii c in
  (((9 <=? n) && (n <=? 13)) || (n =? 32) || (n =? 133) || (n =? 160))%nat.

Fixpoint lstrip (p : ascii -> bool) (s : string) : string :=
  match s with
  | EmptyString => EmptyString
  | String c r => if p c then lstrip p r else s
  end.

Definition reverse (s : string) : string :=
  string_of_list_ascii (rev (list_ascii_of_string s)).

(** [s] without the characters satisfying [p] at its two ends. *)
Definition strip (p : ascii -> bool) (s : string) : string :=
  reverse (lstrip p (reverse (lstrip p s))).

(** The sign of an integer literal, and the literal without it. *)
Definition split_sign (s : string) : bool * string :=
  match s with
  | String c r => if Ascii.eqb c "-" then (true, r)
                  else if Ascii.eqb c "+" then (false, r) else (false, s)
  | EmptyString => (false, s)
  end.

Definition digit_or_underscore (c : ascii) : bool :=
  isdigit c || Ascii.eqb c "_".

Definition count_digits (s : string) : nat :=
  length (filter isdigit (list_ascii_of_string s)).

(** [sys.get_int_max_str_digits()] *)
Definition int_max_str_digits : nat := 4300.

(** The message carries at most 200 characters of [repr(s)]. *)
Definition invalid_literal (s : string) : exn :=
  PyExc "ValueError"
        ("invalid literal for int() with base 10: " +++ take 200 (repr_str s)).

(** [int(s)] for a [str]: white space around the literal is ignored; after
    the sign come digits, single underscores allowed between them; a run of
    more digits than the interpreter's limit is refused. *)
Definition int_of_str (s : string) : result Z :=
  let (neg, body) := split_sign (strip int_space s) in
  let (run, rest) := span digit_or_underscore body in
  if negb (ET.digit_groups run false) then Raise (invalid_literal s)
  else if (int_max_str_digits <? count_digits run)%nat then
    Raise (PyExc "ValueError"
             ("Exceeds the limit (4300 digits) for integer string conversion: value has "
              +++ str_of_int (Z.of_nat (count_digits run))
              +++ " digits; use sys.set_int_max_str_digits() to increase the limit"))
  else if negb (String.eqb rest "") then Raise (invalid_literal s)
  else Return (if neg then (- ET.digits_value run 0)%Z else ET.digits_value run 0).

End PyText.

(** ** The client: the menu loop ([notebook_client.py]) *)

Module Console.

Import PyText.

(** The dash of [f"{ts} — {txt}"], U+2014.  It lies outside the code points
    [string] carries and is kept as its UTF-8 bytes, the form in which it
    reaches the terminal. *)
Definition em_dash : string :=
  String (chr 226) (String (chr 128) (String (chr 148) EmptyString)).

Section Loop.

Variable pool : list string.
Variable Net : Type.
Variable xmlrpc_call : string -> string -> list value -> Net -> result value * Net.

(** The client process at the terminal: the dispatcher's state and the
    lines still to be read from standard input.  The [stdout] of the
    dispatcher's state collects what is written: one entry per [print] (a
    line) and one per prompt of [input] (which ends no line). *)
Record session : Type := mkSession {
  client : Client.state Net;
  stdin : list string
}.

(** Statements that may raise, threading the session. *)
Definition M (A : Type) : Type := session -> result A * session.

Definition ret {A} (a : A) : M A := fun s => (Return a, s).

Definition raise {A} (e : exn) : M A := fun s => (Raise e, s).

Definition bind {A B} (m : M A) (k : A -> M B) : M B :=
  fun s =>
    match m s with
    | (Return a, s1) => k a s1
    | (Raise e, s1) => (Raise e, s1)
    end.

Notation "x <- m ;; k" := (bind m (fun x => k))
  (at level 61, m at next level, right associativity).
Notation "m ;;; k" := (bind m (fun _ => k))
  (at level 61, right associativity).

(** [print(line)] *)
Definition print (line : string) : M unit :=
  fun s => (Return tt, mkSession (Client.print Net line (client s)) (stdin s)).

(** [input(prompt)]: the prompt is written, a line is read; at the end of
    the input [EOFError] is raised. *)
Definition input (prompt : string) : M string :=
  fun s =>
    let st := Client.print Net prompt (client s) in
    match stdin s with
    | [] => (Raise (PyExc "EOFError" "EOF when reading a line"), mkSession st [])
    | line :: rest => (Return line, mkSession st rest)
    end.

(** [perform_rpc(method, *args)] *)
Definition perform_rpc (method : string) (args : list value) : M value :=
  fun s =>
    let (v, st) := Client.perform_rpc pool Net xmlrpc_call method args (client s) in
    (Return v, mkSession st (stdin s)).

(** [menu()] *)
Definition menu : M string :=
  print (ET.newline +++ "1) Add note") ;;;
  print "2) Fetch notes" ;;;
  print "3) Wikipedia lookup" ;;;
  print "Enter: Exit" ;;;
  input "Choice: ".

(** [for ts, txt in notes: print(f"{ts} — {txt}")] over the items of
    [notes]. *)
Fixpoint print_notes (notes : list value) : M unit :=
  match notes with
  | [] => ret tt
  | note :: rest =>
      match unpack2 note with
      | Raise e => raise e
      | Return (ts, txt) =>
          print (py_str ts +++ " " +++ em_dash +++ " " +++ py_str txt) ;;;
          print_notes rest
      end
  end.

(** The branch [choice == '1'] *)
Definition add_note_choice : M unit :=
  topic <- input "Topic: " ;;
  text <- input "Text: " ;;
  result <- perform_rpc "add_note" [VStr topic; VStr text] ;;
  print ("Success? " +++ py_str result).

(** The branch [choice == '2'] *)
Definition fetch_notes_choice : M unit :=
  topic <- input "Topic: " ;;
  notes <- perform_rpc "get_notes" [VStr topic] ;;
  if negb (truthy notes) then
    print ("No notes found for '" +++ topic +++ "'.") ;;;
    topics <- perform_rpc "list_topics" [] ;;
    if truthy topics then
      match join ", " topics with
      | Raise e => raise e
      | Return names => print ("Available topics: " +++ names)
      end
    else print "There are currently no topics."
  else
    match iterate notes with
    | Raise e => raise e
    | Return items => print_notes items
    end.

(** The branch [choice == '3'] *)
Definition wiki_choice : M unit :=
  topic <- input "Wiki topic: " ;;
  link <- perform_rpc "wiki_lookup" [VStr topic] ;;
  if truthy link then
    print ("Found: " +++ py_str link) ;;;
    answer <- input "Append to a notebook topic? (y/n) " ;;
    if String.eqb (lower answer) "y" then
      notebook <- input "Notebook topic: " ;;
      perform_rpc "add_note" [VStr notebook; VStr ("Wikipedia link: " +++ py_str link)] ;;;
      print "Success"
    else ret tt
  else print "No article found.".

(** One round of the [while True] loop: [true] when the loop goes on,
    [false] on [break]. *)
Definition round : M bool :=
  choice <- menu ;;
  if String.eqb choice "1" then add_note_choice ;;; ret true
  else if String.eqb choice "2" then fetch_notes_choice ;;; ret true
  else if String.eqb choice "3" then wiki_choice ;;; ret true
  else ret false.

(** The [while True] loop, for at most [fuel] rounds; [None] when the
    rounds did not suffice. *)
Fixpoint main_loop (fuel : nat) (s : session) : option (result unit * session) :=
  match fuel with
  | O => None
  | S fuel' =>
      match round s with
      | (Raise e, s1) => Some (Raise e, s1)
      | (Return false, s1) => Some (Return tt, s1)
      | (Return true, s1) => main_loop fuel' s1
      end
  end.

(** The program on the input it is given: every round reads a line, so one
    round more than there are lines suffices. *)
Definition main (s : session) : option (result unit * session) :=
  main_loop (S (length (stdin s))) s.

(** The lines of the menu and its prompt. *)
Definition menu_lines : list string :=
  [ET.newline +++ "1) Add note"; "2) Fetch notes"; "3) Wikipedia lookup";
   "Enter: Exit"; "Choice: "].

End Loop.

Arguments client {Net} _.
Arguments stdin {Net} _.
Arguments mkSession {Net} _ _.

End Console.

(** ** The server's start-up ([notebook_server.py]) *)

Module Bootstrap.

(** [port = int(sys.argv[1]) if len(sys.argv) > 1 else 8000] *)
Definition port (argv : list string) : result Z :=
  match argv with
  | _ :: arg :: _ => PyText.int_of_str arg
  | _ => Return 8000%Z
  end.

End Bootstrap.

(** ** Vocabulary for statements about sequences of calls *)

Module Usage.

Import ET Server Store.

(** The topics of a sequence of additions in the order of their first use,
    [seen] being the topics in use before. *)
Fixpoint first_uses (seen : list string) (topics : list string) : list string :=
  match topics with
  | [] => []
  | t :: r =>
      if existsb (fun n => String.eqb n t) seen then first_uses seen r
      else t :: first_uses (seen ++ [t]) r
  end.

(** The topic name that closes the quoted value of [topic_path] after [a]
    and opens a second predicate on the name [b]. *)
Definition two_names (a b : string) : string :=
  a +++ "'][@name='" +++ b.

Section Dispatcher.

Variable pool : list string.
Variable Net : Type.
Variable xmlrpc_call : string -> string -> list value -> Net -> result value * Net.

(** The replica at [url] answers every call. *)
Definition up (url : string) : Prop :=
  forall method args n, exists v n', xmlrpc_call url method args n = (Return v, n').

(** The replica at [url] fails every call. *)
Definition down (url : string) : Prop :=
  forall method args n, exists e n', xmlrpc_call url method args n = (Raise e, n').

(** The client state after [lines] have been written. *)
Definition printed (lines : list string) (st : Client.state Net) : Client.state Net :=
  Client.mkState (Client.server_cycle st) (Client.stdout st ++ lines)
                 (Client.wire st) (Client.net st).

(** One call of [perform_rpc] after the other. *)
Fixpoint perform_all (requests : list (string * list value))
         (st : Client.state Net) : list value * Client.state Net :=
  match requests with
  | [] => ([], st)
  | (method, args) :: rest =>
      let (v, st1) := Client.perform_rpc pool Net xmlrpc_call method args st in
      let (vs, st2) := perform_all rest st1 in
      (v :: vs, st2)
  end.

End Dispatcher.

Arguments printed {Net} _ _.

End Usage.

(** ** More concrete situations *)

Module Examples.

Import Server Store Scenario.

(** Three additions to two topics. *)
Definition three_calls : list call :=
  [mkCall "cooking" "boil water" None morning;
   mkCall "garden" "water the roses" (Some "yesterday") morning;
   mkCall "cooking" "add salt" None morning].


(** The replicas answer [wiki_lookup] with [link] and cannot be reached
    for anything else. *)
Definition lookup_only (link : string) (url method : string) (args : list value)
           (n : unit) : result value * unit :=
  if String.eqb method "wiki_lookup" then (Return (VStr link), n)
  else (Raise refused, n).

(** The notes of a topic as [get_notes] sends them, the second one with a
    text that came back as [None]. *)
Definition two_notes : list (value * value) :=
  [(VStr "03/07/25 - 09:05:59", VStr "boil water");
   (VStr "03/07/25 - 09:06:10", VNone)].

End Examples.

(** * Properties of the dispatcher *)

Module ClientFacts.

Import Client.

Section Dispatcher.

Variable pool : list string.
Variable Net : Type.
Variable xmlrpc_call : string -> string -> list value -> Net -> result value * Net.

Notation N := (length pool).
Notation attempts := (attempts pool Net xmlrpc_call).
Notation perform_rpc := (perform_rpc pool Net xmlrpc_call).
Notation failing := (failing Net xmlrpc_call).
Notation cycle_take := (cycle_take pool).
Notation rotation := (rotation pool).
Notation advance := (advance pool).

Lemma cycle_take_length : forall n c, length (cycle_take c n) = n.
Proof. induction n; intros; simpl; auto. Qed.

Lemma advance_succ : forall k c, advance (S c mod N) k = advance c (S k).
Proof.
  intros k c. unfold Client.advance. now rewrite Nat.iter_succ_r.
Qed.

Lemma advance_mod : forall k c, 0 < k -> advance c k = (c + k) mod N.
Proof.
  induction k as [|k IH]; intros c Hk; [lia|].
  destruct k as [|k].
  - unfold Client.advance. simpl. now rewrite Nat.add_1_r.
  - unfold Client.advance in *. rewrite Nat.iter_succ.
    rewrite IH by lia. cbn [cycle_next snd].
    rewrite <- (Nat.add_1_r ((c + S k) mod N)).
    rewrite Nat.Div0.add_mod_idemp_l. f_equal. lia.
Qed.

Lemma advance_lt : forall k c, c < N -> advance c k < N.
Proof.
  intros k c Hc. destruct k; [exact Hc|].
  rewrite advance_mod by lia. apply Nat.mod_upper_bound. lia.
Qed.

Lemma cycle_take_app : forall a b c,
  cycle_take c (a + b) = cycle_take c a ++ cycle_take (advance c a) b.
Proof.
  induction a as [|a IH]; intros b c; [reflexivity|].
  simpl. f_equal. rewrite IH. f_equal. f_equal. apply advance_succ.
Qed.

Lemma cycle_take_straight : forall n c,
  c + n <= N -> cycle_take c n = firstn n (skipn c pool).
Proof.
  induction n as [|n IH]; intros c Hc; [reflexivity|].
  simpl. assert (Hlt : c < N) by lia.
  destruct (skipn c pool) as [|x r] eqn:E.
  - apply (f_equal (@length _)) in E. rewrite length_skipn in E. simpl in E. lia.
  - assert (Hx : nth c pool "" = x).
    { rewrite <- (firstn_skipn c pool) at 1. rewrite E.
      rewrite app_nth2; rewrite length_firstn, Nat.min_l by lia; [|lia].
      now rewrite Nat.sub_diag. }
    rewrite Hx. simpl. f_equal.
    destruct n as [|n]; [reflexivity|].
    rewrite Nat.mod_small by lia. rewrite IH by lia.
    replace (skipn (S c) pool) with r; [reflexivity|].
    replace (S c) with (1 + c) by lia. rewrite <- skipn_skipn, E. reflexivity.
Qed.

Lemma cycle_take_rotation : forall c, c < N -> cycle_take c N = rotation c.
Proof.
  intros c Hc. unfold Client.rotation.
  replace N with ((N - c) + c) at 1 by lia.
  rewrite cycle_take_app.
  rewrite (cycle_take_straight (N - c) c) by lia.
  assert (Hadv : advance c (N - c) = 0).
  { rewrite advance_mod by lia. replace (c + (N - c)) with N by lia.
    apply Nat.Div0.mod_same. }
  rewrite Hadv, (cycle_take_straight c 0) by lia. simpl skipn.
  f_equal. rewrite firstn_all2; [reflexivity|]. rewrite length_skipn. lia.
Qed.

Lemma cycle_take_prefix : forall k c,
  c < N -> k <= N -> cycle_take c k = firstn k (rotation c).
Proof.
  intros k c Hc Hk. rewrite <- cycle_take_rotation by exact Hc.
  replace (cycle_take c N) with (cycle_take c (k + (N - k)))
    by (f_equal; lia).
  rewrite cycle_take_app, firstn_app, cycle_take_length, Nat.sub_diag.
  simpl. rewrite app_nil_r. rewrite firstn_all2; [reflexivity|].
  rewrite cycle_take_length. lia.
Qed.

Lemma rotation_permutation : forall c, Permutation (rotation c) pool.
Proof.
  intros c. unfold Client.rotation.
  rewrite Permutation_app_comm. now rewrite firstn_skipn.
Qed.

Lemma rotation_length : forall c, length (rotation c) = N.
Proof. intros c. apply Permutation_length, rotation_permutation. Qed.

Lemma failing_length : forall m a urls n es n',
  failing m a urls n es n' -> length urls = length es.
Proof. induction 1; simpl; auto. Qed.

(** The loop, run over [k] failing endpoints with [j] more rounds to go,
    reaches the state after [k] failed attempts. *)
Lemma attempts_failing : forall m a k j st es n',
  failing m a (cycle_take (server_cycle st) k) (net st) es n' ->
  attempts (k + j) m a st =
  attempts j m a
    (mkState (advance (server_cycle st) k)
             (stdout st ++ error_lines (cycle_take (server_cycle st) k) es)
             (wire st ++ cycle_take (server_cycle st) k) n').
Proof.
  induction k as [|k IH]; intros j st es n' Hf.
  - inversion Hf; subst. simpl. rewrite !app_nil_r. now destruct st.
  - simpl in Hf. inversion Hf as [|url urls n0 e n1 es' n2 Hcall Hrest]; subst.
    cbn [Nat.add Client.attempts cycle_next]. rewrite Hcall.
    rewrite (IH j _ es' n'); [|exact Hrest].
    cbn [server_cycle stdout wire net print Client.cycle_take cycle_next fst snd
         Client.error_lines].
    rewrite advance_succ, <- !app_assoc. reflexivity.
Qed.

(** Every endpoint fails: the call ends with the sentinel after a full
    turn of the rotation. *)
Lemma perform_rpc_all_fail : forall m a st es n',
  server_cycle st < N ->
  failing m a (rotation (server_cycle st)) (net st) es n' ->
  perform_rpc m a st =
  (VNone, mkState (server_cycle st)
                  (stdout st ++ error_lines (rotation (server_cycle st)) es
                          ++ ["All servers failed."])
                  (wire st ++ rotation (server_cycle st)) n').
Proof.
  intros m a st es n' Hc Hf. unfold Client.perform_rpc.
  rewrite <- cycle_take_rotation in Hf by exact Hc.
  replace N with (N + 0) at 1 by lia.
  rewrite (attempts_failing m a N 0 st es n' Hf).
  cbn [Client.attempts print server_cycle stdout wire net].
  rewrite cycle_take_rotation by exact Hc.
  rewrite advance_mod by lia.
  rewrite <- (Nat.add_0_r N) at 1.
  replace (server_cycle st + (N + 0)) with (server_cycle st + 1 * N) by lia.
  rewrite Nat.Div0.mod_add, Nat.mod_small by exact Hc.
  unfold print. cbn [server_cycle stdout wire net].
  now rewrite <- app_assoc.
Qed.

(** [k] endpoints fail, the next one answers: the call ends there. *)
Lemma perform_rpc_success : forall m a st k es n1 v n2,
  k < N ->
  failing m a (cycle_take (server_cycle st) k) (net st) es n1 ->
  xmlrpc_call (nth (advance (server_cycle st) k) pool "") m a n1 = (Return v, n2) ->
  perform_rpc m a st =
  (v, mkState (advance (server_cycle st) (S k))
              (stdout st ++ error_lines (cycle_take (server_cycle st) k) es)
              (wire st ++ cycle_take (server_cycle st) (S k)) n2).
Proof.
  intros m a st k es n1 v n2 Hk Hf Hcall. unfold Client.perform_rpc.
  replace N with (k + S (N - S k)) at 1 by lia.
  rewrite (attempts_failing m a k _ st es n1 Hf).
  cbn [Client.attempts cycle_next server_cycle stdout wire net].
  rewrite Hcall.
  replace (S k) with (k + 1) at 2 by lia.
  rewrite cycle_take_app. cbn [Client.cycle_take cycle_next fst].
  rewrite <- app_assoc. unfold Client.advance at 3.
  rewrite Nat.iter_succ. reflexivity.
Qed.

(** C4.  When every endpoint of the pool fails, [perform_rpc] contacts each
    endpoint exactly once, in pool order starting at the cursor, prints one
    error line per endpoint followed by the final line, makes [N] attempts
    in all and returns the sentinel [None].  (The cursor is a position of the
    pool, unless the pool is empty.) *)
Theorem perform_rpc_exhaustion : forall method args st es n',
  server_cycle st < N \/ pool = [] ->
  failing method args (rotation (server_cycle st)) (net st) es n' ->
  perform_rpc method args st =
    (VNone, mkState (server_cycle st)
                    (stdout st ++ error_lines (rotation (server_cycle st)) es
                            ++ ["All servers failed."])
                    (wire st ++ rotation (server_cycle st)) n')
  /\ rotation (server_cycle st)
     = skipn (server_cycle st) pool ++ firstn (server_cycle st) pool
  /\ Permutation (rotation (server_cycle st)) pool
  /\ length (rotation (server_cycle st)) = N
  /\ length (error_lines (rotation (server_cycle st)) es) = N.
Proof.
  intros method args st es n' Hc Hf. repeat split.
  - destruct Hc as [Hc|Hnil]; [now apply perform_rpc_all_fail|].
    revert Hf. unfold Client.perform_rpc, Client.rotation. rewrite Hnil.
    rewrite skipn_nil, firstn_nil. intros Hf. inversion Hf; subst.
    cbn [length Client.attempts Client.error_lines app]. unfold print.
    now rewrite app_nil_r.
  - apply rotation_permutation.
  - apply rotation_length.
  - pose proof (failing_length _ _ _ _ _ _ Hf) as Hlen.
    rewrite <- (rotation_length (server_cycle st)).
    revert Hlen. generalize (rotation (server_cycle st)) as urls. clear.
    intros urls. revert es.
    induction urls; destruct es; simpl; intros; try discriminate; auto.
Qed.

(** C5.  If the first [k] endpoints tried fail and the next one answers
    [v], [perform_rpc] returns [v] at once: the requests sent are exactly
    those [k + 1] (the first [k + 1] endpoints of the rotation), the only
    lines printed are the [k] error lines, and the network is left as the
    successful call left it. *)
Theorem perform_rpc_first_success : forall method args st k es n1 v n2,
  server_cycle st < N ->
  k < N ->
  failing method args (firstn k (rotation (server_cycle st))) (net st) es n1 ->
  xmlrpc_call (nth k (rotation (server_cycle st)) "") method args n1 = (Return v, n2) ->
  perform_rpc method args st =
    (v, mkState ((server_cycle st + S k) mod N)
                (stdout st ++ error_lines (firstn k (rotation (server_cycle st))) es)
                (wire st ++ firstn (S k) (rotation (server_cycle st))) n2).
Proof.
  intros method args st k es n1 v n2 Hc Hk Hf Hcall.
  rewrite <- !cycle_take_prefix in * by lia.
  assert (Hnth : nth k (rotation (server_cycle st)) ""
                 = nth (advance (server_cycle st) k) pool "").
  { rewrite <- cycle_take_rotation by exact Hc.
    replace (cycle_take (server_cycle st) N)
      with (cycle_take (server_cycle st) (k + S (N - S k))) by (f_equal; lia).
    rewrite cycle_take_app, app_nth2; rewrite cycle_take_length; [|lia].
    now rewrite Nat.sub_diag. }
  rewrite Hnth in Hcall.
  rewrite (perform_rpc_success method args st k es n1 v n2 Hk Hf Hcall).
  now rewrite advance_mod by lia.
Qed.

Lemma attempts_trace : forall n m a st,
  exists k, k <= n
    /\ wire (snd (attempts n m a st)) = wire st ++ cycle_take (server_cycle st) k
    /\ server_cycle (snd (attempts n m a st)) = advance (server_cycle st) k
    /\ (0 < n -> 0 < k).
Proof.
  induction n as [|n IH]; intros m a st.
  - exists 0. simpl. rewrite app_nil_r. repeat split; auto; lia.
  - cbn [Client.attempts cycle_next].
    destruct (xmlrpc_call _ m a (net st)) as [[v|e] n1].
    + exists 1. cbn [snd wire server_cycle Client.cycle_take cycle_next fst].
      repeat split; auto; lia.
    + match goal with |- context [attempts n m a ?s] =>
        destruct (IH m a s) as (k & Hk & Hw & Hcur & _)
      end.
      exists (S k). rewrite Hw, Hcur.
      cbn [print wire server_cycle Client.cycle_take cycle_next fst snd].
      rewrite <- app_assoc, advance_succ. repeat split; auto; lia.
Qed.

(** C6.  The cursor lives in the client state and is only ever moved by
    [next(server_cycle)]: a call starts at the cursor it finds, sends its
    requests to the next [k] endpoints of the cycle and leaves the cursor
    advanced by exactly [k], the number of attempts it made, whether they
    failed or succeeded.  Hence, when the first attempt of a call succeeds,
    the next call starts at the following position, which is a different one
    precisely when the pool has more than one endpoint. *)
Theorem cursor_advances_once_per_attempt : forall method args st,
  (exists k, k <= N /\ (0 < N -> 0 < k)
     /\ wire (snd (perform_rpc method args st))
        = wire st ++ cycle_take (server_cycle st) k
     /\ server_cycle (snd (perform_rpc method args st))
        = (server_cycle st + k) mod N)
  /\ (forall v n1 method2 args2,
        server_cycle st < N ->
        xmlrpc_call (nth (server_cycle st) pool "") method args (net st)
          = (Return v, n1) ->
        let st1 := snd (perform_rpc method args st) in
        wire st1 = wire st ++ [nth (server_cycle st) pool ""]
        /\ server_cycle st1 = (server_cycle st + 1) mod N
        /\ (server_cycle st1 <> server_cycle st <-> 1 < N)
        /\ exists rest,
             wire (snd (perform_rpc method2 args2 st1))
             = wire st1 ++ nth ((server_cycle st + 1) mod N) pool "" :: rest).
Proof.
  intros method args st. split.
  - destruct (attempts_trace N method args st) as (k & Hk & Hw & Hcur & Hpos).
    exists k. unfold Client.perform_rpc.
    destruct (attempts N method args st) as [[v|] st'] eqn:E;
      cbn [snd print wire server_cycle] in *; rewrite Hw, Hcur;
      (repeat split; auto);
      (destruct k as [|k]; [|now rewrite advance_mod by lia]);
      (destruct pool; [unfold Client.advance; simpl; lia|simpl in Hpos; lia]).
  - intros v n1 method2 args2 Hc Hcall st1.
    assert (Hf : failing method args (cycle_take (server_cycle st) 0) (net st) [] (net st))
      by constructor.
    assert (E : perform_rpc method args st
                = (v, mkState (advance (server_cycle st) 1) (stdout st ++ [])
                              (wire st ++ cycle_take (server_cycle st) 1) n1)).
    { apply (perform_rpc_success method args st 0 [] (net st) v n1); auto; lia. }
    subst st1. rewrite E. cbn [snd wire server_cycle Client.cycle_take cycle_next fst].
    rewrite advance_mod by lia.
    repeat split.
    + intros Hne. destruct pool as [|x [|y l]]; simpl in *; lia.
    + intros HN Heq.
      destruct (Nat.eq_dec (S (server_cycle st)) N) as [Hlast|Hmid].
      * rewrite Nat.add_1_r, Hlast, Nat.Div0.mod_same in Heq. lia.
      * rewrite Nat.mod_small in Heq by lia. lia.
    + match goal with |- context [perform_rpc method2 args2 ?s] =>
        destruct (attempts_trace N method2 args2 s) as (k & Hk & Hw & _ & Hpos);
        assert (Hcase : wire (snd (perform_rpc method2 args2 s))
                        = wire (snd (attempts N method2 args2 s)))
      end.
      { unfold Client.perform_rpc.
        now destruct (attempts N method2 args2 _) as [[w|] s']. }
      rewrite Hcase, Hw. cbn [wire server_cycle].
      destruct k as [|k]; [lia|].
      cbn [Client.cycle_take cycle_next fst]. eauto.
Qed.

(** C1, as the code has it.  When all attempts fail, [perform_rpc] returns
    Python's [None].  That differs from the empty list, and a call that
    succeeded (after [k] failed attempts) with the value [v] returns the same
    as the exhausted call exactly when [v] is [None]. *)
Theorem exhausted_returns_none : forall method args st es n',
  server_cycle st < N ->
  failing method args (rotation (server_cycle st)) (net st) es n' ->
  fst (perform_rpc method args st) = VNone
  /\ fst (perform_rpc method args st) <> VList []
  /\ forall method2 args2 st2 k es2 n1 v n2,
       server_cycle st2 < N -> k < N ->
       failing method2 args2 (firstn k (rotation (server_cycle st2))) (net st2) es2 n1 ->
       xmlrpc_call (nth k (rotation (server_cycle st2)) "") method2 args2 n1
         = (Return v, n2) ->
       (fst (perform_rpc method2 args2 st2) = fst (perform_rpc method args st)
        <-> v = VNone).
Proof.
  intros method args st es n' Hc Hf.
  rewrite (perform_rpc_all_fail method args st es n' Hc Hf). cbn [fst].
  repeat split; try discriminate.
  - intros Heq. revert Heq.
    rewrite <- !cycle_take_prefix in * by lia.
    match goal with H : xmlrpc_call (nth k ?r "") _ _ _ = _ |- _ =>
      assert (Hnth : nth k r "" = nth (advance (server_cycle st2) k) pool "")
    end.
    { rewrite <- cycle_take_rotation by assumption.
      replace (cycle_take (server_cycle st2) N)
        with (cycle_take (server_cycle st2) (k + S (N - S k))) by (f_equal; lia).
      rewrite cycle_take_app, app_nth2; rewrite cycle_take_length; [|lia].
      now rewrite Nat.sub_diag. }
    rewrite Hnth in *.
    erewrite perform_rpc_success by eassumption. auto.
  - intros ->.
    rewrite <- !cycle_take_prefix in * by lia.
    match goal with H : xmlrpc_call (nth k ?r "") _ _ _ = _ |- _ =>
      assert (Hnth : nth k r "" = nth (advance (server_cycle st2) k) pool "")
    end.
    { rewrite <- cycle_take_rotation by assumption.
      replace (cycle_take (server_cycle st2) N)
        with (cycle_take (server_cycle st2) (k + S (N - S k))) by (f_equal; lia).
      rewrite cycle_take_app, app_nth2; rewrite cycle_take_length; [|lia].
      now rewrite Nat.sub_diag. }
    rewrite Hnth in *.
    erewrite perform_rpc_success by eassumption. auto.
Qed.

End Dispatcher.

Import Scenario.

Lemma perform_rpc_exhaustion_witness :
  fst (perform_rpc server_urls unit all_down "get_notes" [VStr "cooking"] start) = VNone
  /\ wire (snd (perform_rpc server_urls unit all_down "get_notes" [VStr "cooking"] start))
     = ["http://localhost:8000"; "http://localhost:8001"].
Proof.
  destruct (perform_rpc_exhaustion server_urls unit all_down "get_notes"
              [VStr "cooking"] start [refused; refused] tt) as [H _].
  - left. simpl. lia.
  - repeat econstructor.
  - rewrite H. split; reflexivity.
Defined.

Lemma perform_rpc_first_success_witness :
  perform_rpc server_urls unit (first_down (VBool true)) "add_note"
              [VStr "cooking"; VStr "boil water"] start
  = (VBool true,
     mkState 0
       ["Error contacting server http://localhost:8000: [Errno 111] Connection refused"]
       ["http://localhost:8000"; "http://localhost:8001"] tt).
Proof.
  apply (perform_rpc_first_success server_urls unit (first_down (VBool true))
           "add_note" [VStr "cooking"; VStr "boil water"] start 1 [refused] tt
           (VBool true) tt).
  - simpl. lia.
  - simpl. lia.
  - repeat econstructor.
  - reflexivity.
Defined.

Lemma cursor_advances_once_per_attempt_witness :
  let st1 := snd (perform_rpc server_urls unit (answering (VBool true)) "add_note"
                              [VStr "cooking"; VStr "boil water"] start) in
  server_cycle st1 = 1
  /\ exists rest,
       wire (snd (perform_rpc server_urls unit (answering (VBool true)) "get_notes"
                              [VStr "cooking"] st1))
       = wire st1 ++ "http://localhost:8001" :: rest.
Proof.
  destruct (cursor_advances_once_per_attempt server_urls unit (answering (VBool true))
              "add_note" [VStr "cooking"; VStr "boil water"] start) as [_ H].
  destruct (H (VBool true) tt "get_notes" [VStr "cooking"]) as (_ & Hcur & _ & Hnext).
  - simpl. lia.
  - reflexivity.
  - split; [exact Hcur | exact Hnext].
Defined.

Lemma exhausted_returns_none_witness :
  fst (perform_rpc server_urls bool (when_up (VList [])) "get_notes" [VStr "cooking"]
                   (mkState 0 [] [] false)) = VNone
  /\ (fst (perform_rpc server_urls bool (when_up (VList [])) "get_notes" [VStr "cooking"]
                       (mkState 0 [] [] true))
      = fst (perform_rpc server_urls bool (when_up (VList [])) "get_notes" [VStr "cooking"]
                         (mkState 0 [] [] false))
      <-> VList [] = VNone).
Proof.
  destruct (exhausted_returns_none server_urls bool (when_up (VList [])) "get_notes"
              [VStr "cooking"] (mkState 0 [] [] false) [refused; refused] false)
    as (H1 & _ & H3).
  - simpl. lia.
  - repeat econstructor.
  - split; [exact H1|].
    apply (H3 "get_notes" [VStr "cooking"] (mkState 0 [] [] true) 0 [] true (VList []) true).
    + simpl. lia.
    + simpl. lia.
    + constructor.
    + reflexivity.
Defined.

(** C1 as stated fails: an exhausted call and a call that succeeded with
    the answer [None] hand the same value to the caller.  (The replicas are
    started with [allow_none=True]; [wiki_lookup], for one, answers [None]
    when the first URL of the service's answer is [null].) *)
Lemma sentinel_equals_none_answer :
  failing unit all_down "wiki_lookup" [VStr "x"] (rotation server_urls 0) tt
          [refused; refused] tt
  /\ answering VNone (nth 0 (rotation server_urls 0) "") "wiki_lookup" [VStr "x"] tt
     = (Return VNone, tt)
  /\ fst (perform_rpc server_urls unit all_down "wiki_lookup" [VStr "x"] start)
     = fst (perform_rpc server_urls unit (answering VNone) "wiki_lookup" [VStr "x"] start)
  /\ Server.wiki_lookup
       (fun topic => Return (Server.JArr [Server.JStr topic; Server.JArr [];
                                          Server.JArr []; Server.JArr [Server.JNull]]))
       "x"
     = Return Server.JNull.
Proof.
  split; [repeat econstructor|]. repeat split; reflexivity.
Qed.

End ClientFacts.

(** * Properties of the tree operations *)

Module TreeFacts.

Import ET Store.

(** Induction on elements that reaches into the list of children. *)
Lemma Element_rect' (P : Element -> Prop)
  (H : forall t a tx tl cs, Forall P cs -> P (mkElement t a tx tl cs)) :
  forall e, P e.
Proof.
  fix IH 1. intros [t a tx tl cs]. apply H.
  induction cs as [|c cs IHcs]; constructor; [apply IH | exact IHcs].
Qed.

Lemma subtree_app : forall p q root,
  subtree root (p ++ q) =
  match subtree root p with Some e => subtree e q | None => None end.
Proof.
  induction p as [|i p IH]; intros q root; [reflexivity|].
  simpl. destruct (nth_error (children root) i); [apply IH|reflexivity].
Qed.

Lemma update_nth_ext {A} (f g : A -> A) : forall i l,
  (forall x, nth_error l i = Some x -> f x = g x) ->
  update_nth i f l = update_nth i g l.
Proof.
  induction i as [|i IH]; destruct l as [|x l]; simpl; intros Hfg; auto.
  - now rewrite Hfg.
  - f_equal. now apply IH.
Qed.

Lemma update_nth_twice {A} (f g : A -> A) : forall i l,
  update_nth i f (update_nth i g l) = update_nth i (fun x => f (g x)) l.
Proof.
  induction i as [|i IH]; destruct l as [|x l]; simpl; auto.
  now rewrite IH.
Qed.

Lemma nth_error_update_nth {A} (f : A -> A) : forall i l,
  nth_error (update_nth i f l) i = option_map f (nth_error l i).
Proof.
  induction i as [|i IH]; destruct l as [|x l]; simpl; auto.
Qed.

Lemma update_nth_app_length {A} (f : A -> A) : forall l x,
  update_nth (length l) f (l ++ [x]) = l ++ [f x].
Proof.
  induction l as [|y l IH]; intros x; simpl; [reflexivity|].
  now rewrite IH.
Qed.

(** Two mutations of the same element amount to one. *)
Lemma update_twice : forall p f g root,
  update p f (update p g root) = update p (fun e => f (g e)) root.
Proof.
  induction p as [|i p IH]; intros f g [t a tx tl cs]; [reflexivity|].
  simpl. f_equal. rewrite update_nth_twice.
  apply update_nth_ext. intros x _. apply IH.
Qed.

(** Only the element at [p] matters to a mutation at [p]. *)
Lemma update_ext_at : forall p f g root e,
  subtree root p = Some e -> f e = g e -> update p f root = update p g root.
Proof.
  induction p as [|i p IH]; intros f g [t a tx tl cs] e Hsub Hfg.
  - simpl in *. now inversion Hsub; subst.
  - simpl in *. f_equal. apply update_nth_ext. intros x Hx.
    rewrite Hx in Hsub. now apply (IH f g x e).
Qed.

Lemma update_app : forall p q f root,
  update (p ++ q) f root = update p (update q f) root.
Proof.
  induction p as [|i p IH]; intros q f [t a tx tl cs]; [reflexivity|].
  simpl. f_equal. apply update_nth_ext. intros x _. apply IH.
Qed.

Lemma subtree_update : forall p f root e,
  subtree root p = Some e -> subtree (update p f root) p = Some (f e).
Proof.
  induction p as [|i p IH]; intros f [t a tx tl cs] e Hsub.
  - simpl in *. now inversion Hsub.
  - simpl in *. rewrite nth_error_update_nth.
    destruct (nth_error cs i) as [c|]; [|discriminate].
    simpl. now apply IH.
Qed.

(** The three [SubElement] calls and two assignments of [add_note] append
    one complete note element to the topic element. *)
Lemma add_note_tree_appends : forall root topic_el topic text timestamp,
  valid (fst (located_topic root topic_el topic))
        (snd (located_topic root topic_el topic)) ->
  Server.add_note_tree root topic_el topic text timestamp
  = indent (update (snd (located_topic root topic_el topic))
                   (append_child (note_element text timestamp))
                   (fst (located_topic root topic_el topic))).
Proof.
  intros root topic_el topic text timestamp [e He].
  unfold Server.add_note_tree.
  fold (located_topic root topic_el topic).
  destruct (located_topic root topic_el topic) as [root1 p]. cbn [fst snd] in *.
  unfold SubElement. rewrite He.
  set (note0 := new_element "note" _).
  set (q := p ++ [length (children e)]).
  assert (H2 : subtree (update p (append_child note0) root1) q = Some note0).
  { unfold q. rewrite subtree_app, (subtree_update p _ root1 e He).
    destruct e as [t a tx tl cs]. cbn [append_child children subtree].
    rewrite nth_error_app2, Nat.sub_diag by lia. reflexivity. }
  rewrite H2. cbn [children length note0 new_element].
  rewrite !(update_app q), !update_twice.
  rewrite (subtree_update q _ _ _ H2).
  cbn [children length note0 new_element append_child update update_nth app set_text].
  unfold q. rewrite (update_app p), update_twice.
  f_equal. apply (update_ext_at p _ _ root1 e He).
  destruct e as [t a tx tl cs]. cbn [append_child children update].
  f_equal. rewrite update_nth_app_length. reflexivity.
Qed.

(** *** Lookups return positions of the tree *)

Lemma valid_root : forall root, valid root [].
Proof. intros root. now exists root. Qed.

Lemma valid_prefix : forall root p q, valid root (p ++ q) -> valid root p.
Proof.
  intros root p q [e He]. rewrite subtree_app in He.
  destruct (subtree root p) as [e'|] eqn:E; [now exists e'|discriminate].
Qed.

Lemma child_positions_valid : forall root p,
  Forall (valid root) (child_positions root p).
Proof.
  intros root p. unfold child_positions.
  destruct (subtree root p) as [e|] eqn:He; [|constructor].
  apply Forall_map, Forall_forall. intros i Hi. apply in_seq in Hi.
  unfold valid. rewrite subtree_app, He. simpl.
  destruct (nth_error (children e) i) as [c|] eqn:Hc; [now exists c|].
  apply nth_error_None in Hc. lia.
Qed.

Lemma iter_positions_valid : forall e root p,
  subtree root p = Some e -> Forall (valid root) (iter_positions e p).
Proof.
  induction e as [t a tx tl cs IH] using Element_rect'.
  intros root p He. simpl. constructor; [now exists (mkElement t a tx tl cs)|].
  assert (Hgo : forall cs' i,
             (forall j c, nth_error cs' j = Some c -> nth_error cs (i + j) = Some c) ->
             Forall (fun c => forall root p, subtree root p = Some c ->
                                Forall (valid root) (iter_positions c p)) cs' ->
             Forall (valid root)
               ((fix go (cs : list Element) (i : nat) : list pos :=
                   match cs with
                   | [] => []
                   | c :: r => iter_positions c (p ++ [i]) ++ go r (S i)
                   end) cs' i)).
  { induction cs' as [|c cs' IHcs]; intros i Hnth Hall; [constructor|].
    inversion Hall as [|? ? Hc Hrest]; subst.
    apply Forall_app. split.
    - apply Hc. rewrite subtree_app, He. simpl.
      rewrite <- (Nat.add_0_r i). rewrite (Hnth 0 c eq_refl). reflexivity.
    - apply IHcs; [|exact Hrest].
      intros j c' Hj. replace (S i + j) with (i + S j) by lia. now apply Hnth. }
  apply Hgo; [|exact IH]. intros j c Hj. exact Hj.
Qed.

Lemma descendants_valid : forall root p,
  Forall (valid root) (descendants root p).
Proof.
  intros root p. unfold descendants.
  destruct (subtree root p) as [e|] eqn:He; [|constructor].
  pose proof (iter_positions_valid e root p He) as H.
  destruct (iter_positions e p); [constructor|]. now inversion H.
Qed.

Lemma select_parent_valid : forall root result seen,
  Forall (valid root) result -> Forall (valid root) (select_parent result seen).
Proof.
  intros root result. induction result as [|p r IH]; intros seen H; [constructor|].
  inversion H as [|? ? Hp Hr]; subst. simpl.
  destruct p as [|i p]; [now apply IH|].
  destruct (existsb _ seen); [now apply IH|].
  constructor; [|now apply IH].
  apply (valid_prefix root _ [last (i :: p) 0]).
  rewrite <- app_removelast_last by discriminate. exact Hp.
Qed.

Lemma Forall_filter_valid {A} (P : A -> Prop) (f : A -> bool) : forall l,
  Forall P l -> Forall P (filter f l).
Proof.
  intros l H. apply Forall_forall. intros x Hx. apply filter_In in Hx.
  rewrite Forall_forall in H. now apply H.
Qed.

Lemma Forall_flat_map_valid {A B} (P : B -> Prop) (f : A -> list B) : forall l,
  (forall x, Forall P (f x)) -> Forall P (flat_map f l).
Proof.
  intros l H. induction l as [|x l IH]; simpl; [constructor|].
  apply Forall_app. split; [apply H|exact IH].
Qed.

Lemma select_valid : forall root sel result,
  Forall (valid root) result -> Forall (valid root) (select root sel result).
Proof.
  intros root sel result H.
  destruct sel; simpl; try exact H; try (now apply Forall_filter_valid).
  - apply Forall_flat_map_valid. intros p.
    apply Forall_filter_valid, child_positions_valid.
  - apply Forall_flat_map_valid. intros p. apply child_positions_valid.
  - apply Forall_flat_map_valid. intros p.
    apply Forall_filter_valid, descendants_valid.
  - now apply select_parent_valid.
  - destruct (String.eqb tg ""); now apply Forall_filter_valid.
Qed.

Lemma findall_valid : forall root path l,
  findall root path = Return l -> Forall (valid root) l.
Proof.
  intros root path l. unfold findall, path_findall.
  destruct (checkpath path).
  - destruct (compile path) as [[sels|]|]; try discriminate.
    destruct (existsb is_none sels); [discriminate|].
    intros H. inversion H; subst; clear H.
    assert (Hgen : forall sels result, Forall (valid root) result ->
              Forall (valid root)
                (fold_left (fun result sel => select root sel result) sels result)).
    { clear. induction sels as [|sel sels IH]; intros result H; [exact H|].
      simpl. apply IH. now apply select_valid. }
    apply Hgen. constructor; [apply valid_root|constructor].
  - intros H. inversion H; subst.
    apply Forall_filter_valid, child_positions_valid.
Qed.

Lemma find_valid : forall root path p,
  find root path = Return (Some p) -> valid root p.
Proof.
  intros root path p. unfold find.
  destruct (findall root path) as [l|] eqn:E; [|discriminate].
  intros H. inversion H as [Hhd]. apply findall_valid in E.
  destruct l as [|x l]; [discriminate|]. simpl in Hhd.
  inversion Hhd; subst. now inversion E.
Qed.

(** Whatever the lookup returned, [add_note] goes on with an element of
    the tree. *)
Lemma located_topic_valid : forall root path topic_el topic,
  find root path = Return topic_el ->
  valid (fst (located_topic root topic_el topic))
        (snd (located_topic root topic_el topic)).
Proof.
  intros root path [p|] topic Hfind; simpl.
  - now apply (find_valid root path).
  - destruct root as [t a tx tl cs]. unfold valid. simpl.
    rewrite nth_error_app2, Nat.sub_diag by lia. simpl. eauto.
Qed.

End TreeFacts.

(** * Properties of the server functions *)

Module ServerFacts.

Import ET Server Store TreeFacts Scenario.

(** The lookup path built from a topic with an apostrophe does not compile,
    whatever the tree. *)
Lemma find_apostrophe : forall root,
  find root (topic_path "it's") = Raise (syntax_error "invalid predicate").
Proof. intros root. reflexivity. Qed.

(** *** The lookup path of a topic without an apostrophe *)

Lemma length_append : forall a b,
  String.length (a +++ b) = String.length a + String.length b.
Proof. induction a; intros; simpl; auto. Qed.

Lemma take_append : forall a b, take (String.length a) (a +++ b) = a.
Proof. induction a; intros; simpl; [now destruct b|]. now rewrite IHa. Qed.

Lemma drop_append : forall a b, drop (String.length a) (a +++ b) = b.
Proof. induction a; intros; simpl; auto. Qed.

Lemma break_at_apostrophe : forall topic rest,
  no_apostrophe topic = true ->
  break_at "'" (topic +++ String "'" rest) = Some (topic, rest).
Proof.
  unfold no_apostrophe, in_str.
  induction topic as [|c topic IH]; intros rest H; [reflexivity|].
  cbn [String.append break_at]. cbn [list_ascii_of_string existsb] in H.
  apply negb_true_iff, orb_false_iff in H. destruct H as [Hc Hrest].
  rewrite Ascii.eqb_sym, Hc, IH; [reflexivity|]. now rewrite Hrest.
Qed.

Lemma findall_tokens_step : forall fuel c s t r,
  next_match (String c s) = (Some t, r) ->
  findall_tokens (S fuel) (String c s) = t :: findall_tokens fuel r.
Proof. intros fuel c s t r H. cbn [findall_tokens]. now rewrite H. Qed.

Lemma findall_tokens_empty : forall fuel, findall_tokens fuel "" = [].
Proof. now destruct fuel. Qed.

Lemma next_match_quoted : forall topic rest,
  no_apostrophe topic = true ->
  next_match (String "'" (topic +++ String "'" rest))
  = (Some ("'" +++ topic +++ "'", ""), rest).
Proof.
  intros topic rest H.
  lazy beta iota zeta delta [next_match Ascii.eqb Bool.eqb].
  now rewrite (break_at_apostrophe topic rest H).
Qed.

Lemma findall_tokens_topic_path : forall topic,
  no_apostrophe topic = true ->
  xpath_tokenizer (topic_path topic) =
  map Return [(".", ""); ("/", ""); ("", "topic"); ("[", ""); ("@", "");
              ("", "name"); ("=", ""); ("'" +++ topic +++ "'", ""); ("]", "")].
Proof.
  intros topic H. unfold xpath_tokenizer, topic_path.
  rewrite !length_append.
  cbn [String.length Nat.add String.append].
  do 7 (erewrite findall_tokens_step; [|lazy; reflexivity]).
  erewrite findall_tokens_step; [|apply (next_match_quoted topic "]" H)].
  erewrite findall_tokens_step; [|lazy; reflexivity].
  rewrite findall_tokens_empty. reflexivity.
Qed.

Lemma append_assoc : forall a b c, (a +++ b) +++ c = a +++ b +++ c.
Proof. induction a; intros; simpl; [reflexivity|]. now rewrite IHa. Qed.

Lemma take_last_append : forall a b, take_last (String.length b) (a +++ b) = b.
Proof.
  intros a b. unfold take_last. rewrite length_append.
  replace (String.length a + String.length b - String.length b)
    with (String.length a) by lia.
  apply drop_append.
Qed.

Lemma slice_quoted : forall topic, slice_1_m1 ("'" +++ topic +++ "'") = topic.
Proof.
  intros topic. unfold slice_1_m1. cbn [String.append String.length drop].
  rewrite length_append. cbn [String.length].
  replace (S (String.length topic + 1) - 2) with (String.length topic) by lia.
  apply take_append.
Qed.

Lemma prepare_predicate_name : forall topic,
  prepare_predicate
    [Return ("@", ""); Return ("", "name"); Return ("=", "");
     Return ("'" +++ topic +++ "'", ""); Return ("]", "")]
  = Return (SelAttrEq "name" topic, []).
Proof.
  intros topic. unfold prepare_predicate.
  cbn -[String.append slice_1_m1].
  change (String "'" (topic +++ "'")) with ("'" +++ topic +++ "'").
  rewrite slice_quoted. reflexivity.
Qed.

Lemma compile_loop_eq : forall fuel t toks,
  compile_loop (S fuel) t toks =
  match prepare t toks with
  | Raise e => Raise e
  | Return (sel, toks1) =>
      let continue (t' : token) (toks' : tokens) :=
        match compile_loop fuel t' toks' with
        | Raise e => Raise e
        | Return sels => Return (sel :: sels)
        end in
      match toks1 with
      | [] => Return [sel]
      | Raise e :: _ => Raise e
      | Return (ttype, tg) :: toks2 =>
          if String.eqb ttype "/" then
            match toks2 with
            | [] => Return [sel]
            | Raise e :: _ => Raise e
            | Return t' :: toks3 => continue t' toks3
            end
          else continue (ttype, tg) toks2
      end
  end.
Proof. reflexivity. Qed.

(** For a topic without an apostrophe the path means what the source
    intends: the children of the root tagged [topic] whose [name] attribute
    is the topic. *)
Lemma compile_topic_path : forall topic,
  no_apostrophe topic = true ->
  compile (topic_path topic)
  = Return (Some [SelSelf; SelChild (TagIs "topic"); SelAttrEq "name" topic]).
Proof.
  intros topic H. unfold compile.
  assert (Hlast : take_last 1 (topic_path topic) = "]").
  { unfold topic_path.
    replace ("./topic[@name='" +++ topic +++ "']")
      with (("./topic[@name='" +++ topic +++ "'") +++ "]")
      by (now rewrite !append_assoc).
    apply (take_last_append _ "]"). }
  rewrite Hlast.
  replace (String.eqb "]" "/") with false by reflexivity.
  replace (String.eqb (take 1 (topic_path topic)) "/") with false by reflexivity.
  rewrite (findall_tokens_topic_path topic H).
  cbn [map length].
  rewrite compile_loop_eq.
  replace (prepare (".", "") _) with
    (Return (SelSelf,
       map (@Return token) [("/", ""); ("", "topic"); ("[", ""); ("@", "");
                   ("", "name"); ("=", ""); ("'" +++ topic +++ "'", ""); ("]", "")]))
    by reflexivity.
  cbn [map]. cbv iota zeta beta.
  replace (String.eqb "/" "/") with true by reflexivity. cbv iota.
  rewrite compile_loop_eq.
  replace (prepare ("", "topic") _) with
    (Return (SelChild (TagIs "topic"),
       map (@Return token) [("[", ""); ("@", "");
                   ("", "name"); ("=", ""); ("'" +++ topic +++ "'", ""); ("]", "")]))
    by reflexivity.
  cbn [map]. cbv iota zeta beta.
  replace (String.eqb "[" "/") with false by reflexivity. cbv iota.
  rewrite compile_loop_eq.
  replace (prepare ("[", "") _) with
    (prepare_predicate
       [Return ("@", ""); Return ("", "name"); Return ("=", "");
        Return ("'" +++ topic +++ "'", ""); Return ("]", "")])
    by reflexivity.
  rewrite prepare_predicate_name. reflexivity.
Qed.

(** A call of [add_note] that returns has appended one note element, built
    from the text and the time stamp in force, to the topic element it
    located or created, and has written the indented tree. *)
Lemma add_note_returns : forall topic text timestamp now f b f',
  add_note topic text timestamp now f = (Return b, f') ->
  b = true
  /\ exists root topic_el,
       fst (_load_tree f) = Return root
       /\ find root (topic_path topic) = Return topic_el
       /\ f' = Some (serialize (indent
                 (update (snd (located_topic root topic_el topic))
                         (append_child
                            (note_element text (timestamp_or_now timestamp now)))
                         (fst (located_topic root topic_el topic))))).
Proof.
  intros topic text timestamp now f b f'. unfold add_note.
  destruct (_load_tree f) as [[root|e] f1]; [|discriminate].
  destruct (find root (topic_path topic)) as [topic_el|e] eqn:Hfind; [|discriminate].
  intros H. inversion H; subst. split; [reflexivity|].
  exists root, topic_el. repeat split; [exact Hfind|].
  rewrite add_note_tree_appends; [reflexivity|].
  now apply (located_topic_valid root (topic_path topic)).
Qed.

Lemma pad2_two_digits : forall n, (0 <= n < 100)%Z ->
  exists a b, pad2 n = String a (String b EmptyString)
              /\ isdigit a = true /\ isdigit b = true.
Proof.
  intros n Hn.
  assert (Hall : forallb (fun k => match pad2 (Z.of_nat k) with
                                    | String a (String b EmptyString) =>
                                        isdigit a && isdigit b
                                    | _ => false
                                    end) (seq 0 100) = true) by (vm_compute; reflexivity).
  rewrite forallb_forall in Hall.
  specialize (Hall (Z.to_nat n)). rewrite Z2Nat.id in Hall by lia.
  assert (Hin : In (Z.to_nat n) (seq 0 100)) by (apply in_seq; lia).
  apply Hall in Hin.
  destruct (pad2 n) as [|a [|b [|? ?]]]; try discriminate.
  apply andb_true_iff in Hin. exists a, b. tauto.
Qed.

(** The time stamp generated from a clock reading has the shape
    [MM/DD/YY - HH:MM:SS]. *)
Lemma strftime_format : forall d,
  valid_datetime d -> timestamp_format (strftime d) = true.
Proof.
  intros d (Hy & Hm & Hd & Hh & Hmi & Hs). unfold strftime.
  destruct (pad2_two_digits (month d)) as (m1 & m2 & -> & ? & ?); [lia|].
  destruct (pad2_two_digits (day d)) as (d1 & d2 & -> & ? & ?); [lia|].
  destruct (pad2_two_digits (year d mod 100)%Z) as (y1 & y2 & -> & ? & ?).
  { apply Z.mod_pos_bound. lia. }
  destruct (pad2_two_digits (hour d)) as (h1 & h2 & -> & ? & ?); [lia|].
  destruct (pad2_two_digits (minute d)) as (n1 & n2 & -> & ? & ?); [lia|].
  destruct (pad2_two_digits (second d)) as (s1 & s2 & -> & ? & ?); [lia|].
  unfold timestamp_format. simpl.
  repeat match goal with H : isdigit _ = true |- _ => rewrite H; clear H end.
  reflexivity.
Qed.

Lemma strftime_nonempty : forall d, strftime d <> "".
Proof.
  intros d. unfold strftime. destruct (pad2 (month d)); discriminate.
Qed.

(** C7 at a topic with an apostrophe: [get_notes("it's")] raises on every
    store instead of returning the empty list.  The lookup path is not a
    valid path for such a name (the defect behind C3). *)
Theorem get_notes_faults_on_apostrophe :
  (forall f, fst (get_notes "it's" f) <> Return (VList []))
  /\ get_notes "it's" None
     = (Raise (PyExc "SyntaxError" "invalid predicate"),
        Some [Start "data" []; End_ "data"]).
Proof.
  split; [|reflexivity].
  intros f. unfold get_notes.
  destruct (_load_tree f) as [[root|e] f1]; [|discriminate].
  rewrite find_apostrophe. discriminate.
Qed.

(** C8 at a topic with an apostrophe: [add_note("it's", ...)] raises on
    every store, so it does not return [True] and records no note, with or
    without a time stamp of its own (the defect behind C3). *)
Theorem add_note_faults_on_apostrophe :
  (forall text timestamp now f,
     fst (add_note "it's" text timestamp now f) <> Return true)
  /\ add_note "it's" "bring an umbrella" None morning None
     = (Raise (PyExc "SyntaxError" "invalid predicate"),
        Some [Start "data" []; End_ "data"]).
Proof.
  split; [|reflexivity].
  intros text timestamp now f. unfold add_note.
  destruct (_load_tree f) as [[root|e] f1]; [|discriminate].
  rewrite find_apostrophe. discriminate.
Qed.

(** C3 at a topic whose name closes the quoted value and opens a second
    predicate: the lookup never finds the topic, so each [add_note] creates
    another topic element with the same name, and [get_notes] returns
    nothing for it. *)
Theorem add_note_duplicates_topic :
  let topic := "x'][@name='y" in
  let r1 := add_note topic "first" None morning None in
  let r2 := add_note topic "second" None morning (snd r1) in
  fst r1 = Return true
  /\ fst r2 = Return true
  /\ fst (list_topics (snd r2)) = Return (VList [VStr topic; VStr topic])
  /\ fst (get_notes topic (snd r2)) = Return (VList []).
Proof. vm_compute. repeat split. Qed.

(** C2 at a topic with an apostrophe, at an empty text and at a text with
    a carriage return: what [get_notes] returns after [add_note] is not what
    was added.  Under the topic of C3 both notes are stored and none comes
    back; under ["it's"] nothing is stored and both calls raise; an empty
    text comes back as [None]; a carriage return comes back as a line
    feed. *)
Theorem get_notes_after_add_note_differs :
  (let topic := "x'][@name='y" in
   let r1 := add_note topic "first" None morning None in
   let r2 := add_note topic "second" None morning (snd r1) in
   fst r1 = Return true /\ fst r2 = Return true
   /\ fst (get_notes topic (snd r2)) = Return (VList []))
  /\ (let r := add_note "it's" "bring an umbrella" None morning None in
      fst r = Raise (PyExc "SyntaxError" "invalid predicate")
      /\ fst (get_notes "it's" (snd r))
         = Raise (PyExc "SyntaxError" "invalid predicate"))
  /\ (let r := add_note "todo" "" None morning None in
      fst r = Return true
      /\ fst (get_notes "todo" (snd r))
         = Return (VList [VList [VStr "03/07/25 - 09:05:59"; VNone]]))
  /\ (let text := "a" +++ str1 (chr 13) +++ "b" in
      let r := add_note "todo" text None morning None in
      fst r = Return true
      /\ fst (get_notes "todo" (snd r))
         = Return (VList [VList [VStr "03/07/25 - 09:05:59";
                                 VStr ("a" +++ str1 (chr 10) +++ "b")]])).
Proof. vm_compute. repeat split. Qed.

(** C9, as the code has it: [wiki_lookup] handles no exception, and its
    answer is fixed by the decoded body alone.  What
    [requests.get(...).json()] raises leaves [wiki_lookup] as it is.  A
    falsy body ([None], [False], zero, the empty string, list or object)
    gives the empty string.  A body that is [True] or a number other than
    zero raises [TypeError], a non-empty object [KeyError], a non-empty list
    or string with fewer than four items [IndexError].  A string of four
    characters or more gives its fourth character.  A list with a fourth
    item gives the empty string when that item is an empty list, string or
    object, the first element of the item when it is a non-empty list (the
    first URL of an opensearch answer, whatever value stands there), its
    first character when it is a non-empty string, and raises [KeyError]
    when it is a non-empty object and [TypeError] when it is [None], a
    boolean or a number. *)
Theorem wiki_lookup_answers : forall service topic,
  wiki_lookup service topic =
  match service topic with
  | Raise e => Raise e
  | Return resp =>
      match resp with
      | JNull | JBool false | JStr EmptyString | JArr [] | JObj [] => Return (JStr "")
      | JNum z =>
          if (z =? 0)%Z then Return (JStr "")
          else Raise (PyExc "TypeError" "'int' object is not subscriptable")
      | JFloat (SpecFloat.S754_zero _) => Return (JStr "")
      | JFloat _ => Raise (PyExc "TypeError" "'float' object is not subscriptable")
      | JBool true => Raise (PyExc "TypeError" "'bool' object is not subscriptable")
      | JObj (_ :: _) => Raise (PyExc "KeyError" "3")
      | JStr s =>
          match String.get 3 s with
          | Some c => Return (JStr (str1 c))
          | None => Raise (PyExc "IndexError" "string index out of range")
          end
      | JArr l =>
          match nth_error l 3 with
          | None => Raise (PyExc "IndexError" "list index out of range")
          | Some urls =>
              match urls with
              | JArr [] | JStr EmptyString | JObj [] => Return (JStr "")
              | JArr (url :: _) => Return url
              | JStr (String c _) => Return (JStr (str1 c))
              | JObj (_ :: _) => Raise (PyExc "KeyError" "0")
              | JNull =>
                  Raise (PyExc "TypeError" "object of type 'NoneType' has no len()")
              | JBool _ =>
                  Raise (PyExc "TypeError" "object of type 'bool' has no len()")
              | JNum _ =>
                  Raise (PyExc "TypeError" "object of type 'int' has no len()")
              | JFloat _ =>
                  Raise (PyExc "TypeError" "object of type 'float' has no len()")
              end
          end
      end
  end.
Proof.
  intros service topic. unfold wiki_lookup.
  destruct (service topic) as [resp|e]; [|reflexivity].
  destruct resp as [|[|]|z|x|s|l|l].
  - reflexivity.
  - reflexivity.
  - reflexivity.
  - cbn [truthy]. destruct (z =? 0)%Z; reflexivity.
  - destruct x; reflexivity.
  - destruct s as [|c s]; [reflexivity|].
    cbn [truthy String.eqb negb subscript].
    destruct (String.get 3 (String c s)); reflexivity.
  - destruct l as [|x l]; [reflexivity|].
    cbn [truthy negb subscript].
    destruct (nth_error (x :: l) 3) as [urls|]; [|reflexivity].
    destruct urls as [|b|z|y|[|c s]|[|u us]|[|kv kvs]]; reflexivity.
  - destruct l; reflexivity.
Qed.

Lemma wiki_lookup_answers_witness :
  wiki_lookup unreachable "Rocq" = Raise (PyExc "ConnectionError" "Max retries exceeded")
  /\ wiki_lookup error_body "Rocq" = Raise (PyExc "KeyError" "3")
  /\ wiki_lookup (fun _ => Return (JArr [])) "Rocq" = Return (JStr "")
  /\ wiki_lookup (opensearch ["https://en.wikipedia.org/wiki/Rocq"]) "Rocq"
     = Return (JStr "https://en.wikipedia.org/wiki/Rocq")
  /\ wiki_lookup (fun _ => Return (JStr "abcd")) "Rocq" = Return (JStr "d")
  /\ wiki_lookup (fun _ => Return (JArr [JNum 1; JNum 2; JNum 3; JNum 4])) "Rocq"
     = Raise (PyExc "TypeError" "object of type 'int' has no len()")
  /\ wiki_lookup (fun _ => Return (JArr [JNum 1; JNum 2; JNum 3;
                                         JObj [("a", JNull)]])) "Rocq"
     = Raise (PyExc "KeyError" "0")
  /\ wiki_lookup (fun _ => Return (JFloat (SpecFloat.S754_finite false 1 (-1)))) "Rocq"
     = Raise (PyExc "TypeError" "'float' object is not subscriptable").
Proof.
  split; [exact (wiki_lookup_answers unreachable "Rocq")|].
  split; [exact (wiki_lookup_answers error_body "Rocq")|].
  split; [exact (wiki_lookup_answers (fun _ => Return (JArr [])) "Rocq")|].
  split; [exact (wiki_lookup_answers
                   (opensearch ["https://en.wikipedia.org/wiki/Rocq"]) "Rocq")|].
  split; [exact (wiki_lookup_answers (fun _ => Return (JStr "abcd")) "Rocq")|].
  split; [exact (wiki_lookup_answers
                   (fun _ => Return (JArr [JNum 1; JNum 2; JNum 3; JNum 4])) "Rocq")|].
  split; [exact (wiki_lookup_answers
                   (fun _ => Return (JArr [JNum 1; JNum 2; JNum 3;
                                           JObj [("a", JNull)]])) "Rocq")|].
  exact (wiki_lookup_answers
           (fun _ => Return (JFloat (SpecFloat.S754_finite false 1 (-1)))) "Rocq").
Defined.

(** C9 as stated fails: when the service cannot be reached, answers with
    something that is no JSON, or with JSON of another shape, [wiki_lookup]
    raises instead of returning the empty string. *)
Lemma wiki_lookup_propagates_faults :
  wiki_lookup unreachable "Rocq" = Raise (PyExc "ConnectionError" "Max retries exceeded")
  /\ wiki_lookup not_json "Rocq"
     = Raise (PyExc "JSONDecodeError" "Expecting value: line 1 column 1 (char 0)")
  /\ wiki_lookup error_body "Rocq" = Raise (PyExc "KeyError" "3")
  /\ wiki_lookup unreachable "Rocq" <> Return (JStr "").
Proof. repeat split; discriminate. Qed.

End ServerFacts.

(** * The store holds a notebook *)

Module StoreFacts.

Import ET Server Store TreeFacts ServerFacts.

(** *** Looking a topic up *)

Lemma filter_filter {A} (f g : A -> bool) : forall l,
  filter g (filter f l) = filter (fun x => f x && g x) l.
Proof.
  induction l as [|x l IH]; [reflexivity|]. simpl.
  destruct (f x); simpl; [destruct (g x)|]; now rewrite IH.
Qed.

Lemma hd_filter_positions : forall (g : pos -> bool) (P : Element -> bool) cs k,
  (forall i c, nth_error cs i = Some c -> g [k + i] = P c) ->
  hd_error (filter g (map (fun i => [i]) (seq k (length cs))))
  = option_map (fun i => [k + i]) (first_index P cs).
Proof.
  intros g P. induction cs as [|c cs IH]; intros k H; [reflexivity|].
  simpl. rewrite <- (H 0 c eq_refl), Nat.add_0_r.
  destruct (g [k]); [simpl; now rewrite Nat.add_0_r|].
  rewrite (IH (S k)).
  - destruct (first_index P cs); simpl; [|reflexivity].
    do 2 f_equal. lia.
  - intros i c' Hi. rewrite <- (H (S i) c' Hi). do 2 f_equal. lia.
Qed.

(** For a topic without an apostrophe, [find] returns the first child of
    the root that is a topic element of that name. *)
Lemma find_topic_path : forall root topic,
  no_apostrophe topic = true ->
  find root (topic_path topic)
  = Return (option_map (fun i => [i]) (first_index (is_topic topic) (children root))).
Proof.
  intros root topic H. unfold find, findall.
  replace (checkpath (topic_path topic)) with true by reflexivity.
  unfold path_findall. rewrite (compile_topic_path topic H).
  cbn [existsb is_none orb fold_left select flat_map].
  rewrite app_nil_r, filter_filter.
  f_equal. unfold child_positions. cbn [subtree app].
  apply (hd_filter_positions _ (is_topic topic) (children root) 0).
  intros i c Hi. unfold tag_at, attrib_at, is_topic. cbn [Nat.add subtree].
  rewrite Hi. reflexivity.
Qed.

Lemma skeleton_tag : forall e, tag (skeleton e) = tag e.
Proof. now destruct e. Qed.

Lemma skeleton_attrib : forall e, attrib (skeleton e) = attrib e.
Proof. now destruct e. Qed.

Lemma skeleton_children : forall e, children (skeleton e) = map skeleton (children e).
Proof. now destruct e. Qed.

Lemma first_index_map {A B} (f : A -> B) (P : B -> bool) : forall l,
  first_index P (map f l) = first_index (fun x => P (f x)) l.
Proof. induction l as [|x l IH]; simpl; [reflexivity|]. now rewrite IH. Qed.

Lemma first_index_ext {A} (P Q : A -> bool) : forall l,
  (forall x, P x = Q x) -> first_index P l = first_index Q l.
Proof.
  intros l H. induction l as [|x l IH]; simpl; [reflexivity|].
  now rewrite H, IH.
Qed.

Lemma first_index_topic_tree : forall topic nb,
  first_index (is_topic topic) (map topic_tree nb) = nb_index topic nb.
Proof.
  intros topic. induction nb as [|[name notes] nb IH]; [reflexivity|].
  cbn [map first_index nb_index]. unfold is_topic at 1.
  cbn [topic_tree tag attrib get fst].
  replace (String.eqb "name" "name") with true by reflexivity.
  replace (String.eqb "topic" "topic") with true by reflexivity.
  cbn [andb]. destruct (String.eqb name topic); [reflexivity|]. now rewrite IH.
Qed.

Lemma first_index_skeleton : forall root topic nb,
  skeleton root = notebook_tree nb ->
  first_index (is_topic topic) (children root) = nb_index topic nb.
Proof.
  intros root topic nb H.
  rewrite <- first_index_topic_tree.
  replace (map topic_tree nb) with (children (skeleton root)) by now rewrite H.
  rewrite skeleton_children, first_index_map.
  apply first_index_ext. intros c. unfold is_topic.
  now rewrite skeleton_tag, skeleton_attrib.
Qed.

(** *** Reading back what was written *)

Lemma normalize_newlines_clean : forall s,
  in_str (chr 13) s = false -> normalize_newlines s = s.
Proof.
  unfold in_str. induction s as [|c s IH]; intros H; [reflexivity|].
  cbn [list_ascii_of_string existsb] in H. apply orb_false_iff in H.
  destruct H as [Hc Hs]. cbn [normalize_newlines].
  rewrite Ascii.eqb_sym, Hc. now rewrite IH.
Qed.

Lemma clean_text_some : forall s,
  clean_text (Some s) = true ->
  s <> "" /\ str_forall xml_char s = true /\ normalize_newlines s = s.
Proof.
  intros s H. unfold clean_text, clean in H.
  apply andb_true_iff in H. destruct H as [Hne H].
  apply andb_true_iff in H. destruct H as [Hx Hcr].
  repeat split; [|exact Hx|].
  - intros ->. discriminate.
  - apply normalize_newlines_clean. now apply negb_true_iff.
Qed.

Lemma tree_ok_inv : forall t a tx tl cs,
  tree_ok (mkElement t a tx tl cs) = true ->
  forallb (fun kv => str_forall xml_char (snd kv)) a = true
  /\ clean_text tx = true /\ clean_text tl = true /\ forallb tree_ok cs = true.
Proof.
  intros t a tx tl cs H. cbn [tree_ok] in H.
  repeat (apply andb_true_iff in H; destruct H as [H ?]). tauto.
Qed.

Lemma flush_no_data : forall b, data b = [] -> flush b = b.
Proof. intros b H. unfold flush. now rewrite H. Qed.

Lemma root_done_flush : forall b, root_done (flush b) = root_done b.
Proof.
  intros b. unfold flush. destruct (data b); [reflexivity|].
  now destruct (stack b).
Qed.

Lemma stack_flush_nil : forall b, stack (flush b) = [] -> stack b = [].
Proof.
  intros b. unfold flush. destruct (data b); [auto|].
  destruct (stack b); [auto|]. discriminate.
Qed.

(** Feeding the text of an element right after its start tag. *)
Lemma feed_text : forall t a tx st rd rest,
  clean_text tx = true ->
  exists b, feed_all (mkBuilder (mkFrame t a None [] :: st) rd [] false)
                     (chardata tx ++ rest)
            = feed_all b rest
            /\ stack (flush b) = mkFrame t a tx [] :: st
            /\ root_done b = rd.
Proof.
  intros t a tx st rd rest H. destruct tx as [s|].
  - destruct (clean_text_some s H) as (Hne & Hx & Hn).
    destruct s as [|c s]; [congruence|].
    cbn [chardata app feed_all feed]. rewrite Hx. cbn [negb stack].
    rewrite Hn. eexists. split; [reflexivity|]. split; reflexivity.
  - eexists. split; [reflexivity|]. split; reflexivity.
Qed.

(** Feeding the tail of an element right after its end tag. *)
Lemma feed_tail : forall e tl g gs rd rest,
  clean_text tl = true ->
  exists b, feed_all (mkBuilder (push_kid (set_tail None e) g :: gs) rd [] true)
                     (chardata tl ++ rest)
            = feed_all b rest
            /\ stack (flush b) = push_kid (set_tail tl e) g :: gs
            /\ root_done b = rd.
Proof.
  intros e tl g gs rd rest H. destruct tl as [s|].
  - destruct (clean_text_some s H) as (Hne & Hx & Hn).
    destruct s as [|c s]; [congruence|].
    cbn [chardata app feed_all feed]. rewrite Hx. cbn [negb stack].
    rewrite Hn. eexists. split; [reflexivity|]. split; [|reflexivity].
    destruct e. reflexivity.
  - eexists. split; [reflexivity|]. split; reflexivity.
Qed.

Lemma feed_start : forall b t a,
  forallb (fun kv => str_forall xml_char (snd kv)) a = true ->
  stack b <> [] \/ root_done b = None ->
  feed b (Start t a)
  = Return (mkBuilder (mkFrame t a None [] :: stack (flush b)) (root_done b) [] false).
Proof.
  intros b t a Ha Hb. cbn [feed]. rewrite Ha. cbn [negb].
  rewrite root_done_flush.
  destruct (stack b) as [|f fs] eqn:Hs; [|reflexivity].
  destruct Hb as [Hb|Hb]; [congruence|]. now rewrite Hb.
Qed.

Lemma feed_end : forall b t a tx kids g gs,
  stack (flush b) = mkFrame t a tx kids :: g :: gs ->
  feed b (End_ t)
  = Return (mkBuilder (push_kid (mkElement t a tx None (rev kids)) g :: gs)
                      (root_done b) [] true).
Proof.
  intros b t a tx kids g gs H. cbn [feed]. rewrite H. cbn [ftag].
  rewrite String.eqb_refl. cbn [negb]. now rewrite root_done_flush.
Qed.

(** The events of a well-formed element, fed to a parser that has an open
    element, add that very element to its children. *)
Lemma feed_serialize : forall e,
  tree_ok e = true ->
  forall b g gs rest,
    stack (flush b) = g :: gs ->
    exists b', feed_all b (serialize e ++ rest) = feed_all b' rest
               /\ stack (flush b') = push_kid e g :: gs
               /\ root_done b' = root_done b.
Proof.
  induction e as [t a tx tl cs IH] using Element_rect'.
  intros Hok b g gs rest Hb.
  destruct (tree_ok_inv _ _ _ _ _ Hok) as (Ha & Htx & Htl & Hcs).
  cbn [serialize]. rewrite <- app_comm_cons. cbn [feed_all].
  rewrite feed_start; [|exact Ha|left; intros Hnil; rewrite (flush_no_data b) in Hb;
                                 [congruence|]].
  2:{ unfold flush in Hb. destruct (data b); [reflexivity|].
      rewrite Hnil in Hb. discriminate. }
  rewrite Hb, <- !app_assoc, <- app_comm_cons.
  destruct (feed_text t a tx (g :: gs) (root_done b)
              (flat_map serialize cs ++ End_ t :: chardata tl ++ rest) Htx)
    as (b2 & -> & Hs2 & Hr2).
  assert (Hkids : forall cs' b0 kids rest0,
            Forall (fun e => tree_ok e = true ->
                      forall b g gs rest, stack (flush b) = g :: gs ->
                        exists b', feed_all b (serialize e ++ rest) = feed_all b' rest
                                   /\ stack (flush b') = push_kid e g :: gs
                                   /\ root_done b' = root_done b) cs' ->
            forallb tree_ok cs' = true ->
            stack (flush b0) = mkFrame t a tx kids :: g :: gs ->
            exists b', feed_all b0 (flat_map serialize cs' ++ rest0) = feed_all b' rest0
                       /\ stack (flush b') = mkFrame t a tx (rev cs' ++ kids) :: g :: gs
                       /\ root_done b' = root_done b0).
  { clear. induction cs' as [|c cs' IHcs]; intros b0 kids rest0 Hall Hok Hs.
    - exists b0. repeat split. exact Hs.
    - inversion Hall as [|? ? Hc Hrest]; subst.
      cbn [forallb] in Hok. apply andb_true_iff in Hok. destruct Hok as [Hokc Hokcs].
      cbn [flat_map]. rewrite <- app_assoc.
      destruct (Hc Hokc b0 _ _ (flat_map serialize cs' ++ rest0) Hs)
        as (b1 & -> & Hs1 & Hr1).
      destruct (IHcs b1 (c :: kids) rest0 Hrest Hokcs Hs1) as (b2 & -> & Hs2 & Hr2).
      exists b2. repeat split; [|congruence].
      rewrite Hs2. cbn [rev]. now rewrite <- app_assoc. }
  destruct (Hkids cs b2 [] (End_ t :: chardata tl ++ rest) IH Hcs Hs2)
    as (b3 & -> & Hs3 & Hr3).
  rewrite app_nil_r in Hs3. cbn [feed_all].
  rewrite (feed_end b3 t a tx (rev cs) g gs Hs3), rev_involutive.
  destruct (feed_tail (mkElement t a tx None cs) tl g gs (root_done b3) rest Htl)
    as (b4 & Hf4 & Hs4 & Hr4).
  cbn [set_tail] in Hf4. rewrite Hf4.
  exists b4. repeat split; [exact Hs4|congruence].
Qed.

Lemma feed_children : forall cs,
  forallb tree_ok cs = true ->
  forall b f fs rest,
    stack (flush b) = f :: fs ->
    exists b', feed_all b (flat_map serialize cs ++ rest) = feed_all b' rest
               /\ stack (flush b')
                  = mkFrame (ftag f) (fattrib f) (ftext f) (rev cs ++ fkids f) :: fs
               /\ root_done b' = root_done b.
Proof.
  induction cs as [|c cs IH]; intros Hok b f fs rest Hs.
  - exists b. repeat split. rewrite Hs. now destruct f.
  - cbn [forallb] in Hok. apply andb_true_iff in Hok. destruct Hok as [Hc Hcs].
    cbn [flat_map]. rewrite <- app_assoc.
    destruct (feed_serialize c Hc b f fs (flat_map serialize cs ++ rest) Hs)
      as (b1 & -> & Hs1 & Hr1).
    destruct (IH Hcs b1 _ fs rest Hs1) as (b2 & -> & Hs2 & Hr2).
    exists b2. repeat split; [|congruence].
    rewrite Hs2. cbn [push_kid ftag fattrib ftext fkids rev].
    now rewrite <- app_assoc.
Qed.

(** A well-formed tree without a tail on the root reads back as it was
    written. *)
Lemma parse_serialize : forall root,
  tree_ok root = true -> tail root = None ->
  parse (serialize root) = Return root.
Proof.
  intros [t a tx tl cs] Hok Htl. cbn [tail] in Htl. subst tl.
  destruct (tree_ok_inv _ _ _ _ _ Hok) as (Ha & Htx & _ & Hcs).
  unfold parse. cbn [serialize chardata]. cbn [feed_all].
  rewrite feed_start; [|exact Ha|now right].
  cbn [flush data stack root_done].
  destruct (feed_text t a tx [] None (flat_map serialize cs ++ [End_ t]) Htx)
    as (b2 & -> & Hs2 & Hr2).
  destruct (feed_children cs Hcs b2 _ [] [End_ t] Hs2) as (b3 & -> & Hs3 & Hr3).
  cbn [ftag fattrib ftext fkids] in Hs3. rewrite app_nil_r in Hs3.
  cbn [feed_all feed]. rewrite Hs3. cbn [ftag fattrib ftext fkids].
  rewrite String.eqb_refl, rev_involutive. reflexivity.
Qed.

(** *** Indentation changes layout only *)

Lemma clean_append : forall a b,
  clean a = true -> clean b = true -> clean (a +++ b) = true.
Proof.
  unfold clean, in_str. induction a as [|c a IH]; intros b Ha Hb; [exact Hb|].
  cbn [String.append str_forall list_ascii_of_string existsb] in *.
  apply andb_true_iff in Ha. destruct Ha as [Ha1 Ha2].
  apply andb_true_iff in Ha1. destruct Ha1 as [Hc Ha1].
  apply negb_true_iff, orb_false_iff in Ha2. destruct Ha2 as [Hc2 Ha2].
  specialize (IH b). rewrite Ha1, Ha2 in IH. specialize (IH eq_refl Hb).
  apply andb_true_iff in IH. destruct IH as [IH1 IH2].
  apply negb_true_iff in IH2.
  now rewrite Hc, IH1, Hc2, IH2.
Qed.

Lemma indentation_clean : forall level,
  clean_text (Some (indentation level)) = true.
Proof.
  intros level. unfold clean_text, indentation, newline.
  apply andb_true_iff. split; [reflexivity|].
  apply clean_append; [reflexivity|].
  induction level as [|n IHn]; [reflexivity|].
  cbn [repeat_str]. now apply clean_append.
Qed.

Lemma tree_ok_set_tail : forall tl e,
  clean_text tl = true -> tree_ok e = true -> tree_ok (set_tail tl e) = true.
Proof.
  intros tl [t a tx tl0 cs] Htl H.
  destruct (tree_ok_inv _ _ _ _ _ H) as (Ha & Htx & _ & Hcs).
  cbn [set_tail tree_ok]. now rewrite Ha, Htx, Htl, Hcs.
Qed.

Lemma tree_ok_indent_children : forall e level,
  tree_ok e = true -> tree_ok (indent_children level e) = true.
Proof.
  induction e as [t a tx tl cs IH] using Element_rect'. intros level H.
  destruct (tree_ok_inv _ _ _ _ _ H) as (Ha & Htx & Htl & Hcs).
  cbn [indent_children tree_ok]. rewrite Ha, Htl. cbn [andb].
  apply andb_true_iff. split.
  - rewrite andb_true_r.
    destruct (blank tx); [apply indentation_clean|exact Htx].
  - clear H Htx. revert IH Hcs. induction cs as [|c cs IHcs]; intros IH Hcs; [reflexivity|].
    inversion IH as [|? ? Hc Hrest]; subst.
    cbn [forallb] in *. apply andb_true_iff in Hcs. destruct Hcs as [Hokc Hokcs].
    apply andb_true_iff. split; [|now apply IHcs].
    assert (Hc1 : tree_ok match c with
                          | mkElement _ _ _ _ (_ :: _) => indent_children (S level) c
                          | _ => c
                          end = true).
    { destruct c as [? ? ? ? [|? ?]]; [exact Hokc|now apply Hc]. }
    destruct (blank (tail _)); [|exact Hc1].
    apply tree_ok_set_tail; [|exact Hc1].
    destruct cs; apply indentation_clean.
Qed.

Lemma tree_ok_indent : forall e, tree_ok e = true -> tree_ok (indent e) = true.
Proof.
  intros e H. unfold indent.
  destruct (has_children e); [now apply tree_ok_indent_children|exact H].
Qed.

Lemma skeleton_set_tail : forall tl e, skeleton (set_tail tl e) = skeleton e.
Proof. now destruct e. Qed.

Lemma skeleton_indent_children : forall e level,
  has_children e = true -> skeleton (indent_children level e) = skeleton e.
Proof.
  induction e as [t a tx tl cs IH] using Element_rect'. intros level H.
  destruct cs as [|c0 cs0]; [discriminate|]. clear H.
  cbn [indent_children skeleton].
  set (cs := c0 :: cs0) in *.
  assert (Hmap : map skeleton
            ((fix each (cs : list Element) : list Element :=
                match cs with
                | [] => []
                | c :: r =>
                    (if blank (tail match c with
                                    | mkElement _ _ _ _ (_ :: _) =>
                                        indent_children (S level) c
                                    | _ => c
                                    end)
                     then set_tail (Some match r with
                                         | [] => indentation level
                                         | _ :: _ => indentation (S level)
                                         end)
                            match c with
                            | mkElement _ _ _ _ (_ :: _) => indent_children (S level) c
                            | _ => c
                            end
                     else match c with
                          | mkElement _ _ _ _ (_ :: _) => indent_children (S level) c
                          | _ => c
                          end) :: each r
                end) cs) = map skeleton cs).
  { clearbody cs. clear c0 cs0.
    induction cs as [|c cs IHcs]; [reflexivity|].
    inversion IH as [|? ? Hc Hrest]; subst.
    cbn [map]. f_equal; [|now apply IHcs].
    assert (Hc1 : skeleton match c with
                           | mkElement _ _ _ _ (_ :: _) => indent_children (S level) c
                           | _ => c
                           end = skeleton c).
    { destruct c as [? ? ? ? [|? ?]]; [reflexivity|now apply Hc]. }
    destruct (blank (tail _)); [now rewrite skeleton_set_tail|exact Hc1]. }
  unfold cs in Hmap at 1. cbv beta iota in Hmap.
  unfold cs in *. cbn [map] in *.
  injection Hmap as H1 H2.
  f_equal. f_equal; assumption.
Qed.

Lemma skeleton_indent : forall e, skeleton (indent e) = skeleton e.
Proof.
  intros e. unfold indent. destruct (has_children e) eqn:H; [|reflexivity].
  now apply skeleton_indent_children.
Qed.

Lemma tail_indent : forall e, tail (indent e) = tail e.
Proof.
  intros e. unfold indent. destruct (has_children e); [|reflexivity].
  now destruct e.
Qed.

(** *** Appending a note keeps the tree well formed *)

Lemma forallb_update_nth {A} (P : A -> bool) (g : A -> A) : forall i l,
  forallb P l = true -> (forall x, P x = true -> P (g x) = true) ->
  forallb P (update_nth i g l) = true.
Proof.
  induction i as [|i IH]; destruct l as [|x l]; cbn [update_nth forallb];
    intros H Hg; auto; apply andb_true_iff in H; destruct H as [Hx Hl];
    apply andb_true_iff; split; auto.
Qed.

Lemma tree_ok_update : forall p f root,
  tree_ok root = true -> (forall e, tree_ok e = true -> tree_ok (f e) = true) ->
  tree_ok (update p f root) = true.
Proof.
  induction p as [|i p IH]; intros f [t a tx tl cs] H Hf; [now apply Hf|].
  destruct (tree_ok_inv _ _ _ _ _ H) as (Ha & Htx & Htl & Hcs).
  cbn [update tree_ok]. rewrite Ha, Htx, Htl. cbn [andb].
  apply forallb_update_nth; [exact Hcs|]. intros x Hx. now apply IH.
Qed.

Lemma tree_ok_append_child : forall c e,
  tree_ok c = true -> tree_ok e = true -> tree_ok (append_child c e) = true.
Proof.
  intros c [t a tx tl cs] Hc H.
  destruct (tree_ok_inv _ _ _ _ _ H) as (Ha & Htx & Htl & Hcs).
  cbn [append_child tree_ok]. rewrite Ha, Htx, Htl, forallb_app, Hcs.
  cbn [andb forallb]. now rewrite Hc.
Qed.

Lemma str_forall_take : forall p n s,
  str_forall p s = true -> str_forall p (take n s) = true.
Proof.
  intros p. induction n as [|n IH]; destruct s as [|c s]; cbn [take str_forall];
    intros H; auto.
  apply andb_true_iff in H. destruct H as [Hc Hs]. now rewrite Hc, IH.
Qed.

Lemma tree_ok_note_element : forall text timestamp,
  clean_text (Some text) = true -> clean_text (Some timestamp) = true ->
  tree_ok (note_element text timestamp) = true.
Proof.
  intros text timestamp Htext Hts.
  destruct (clean_text_some text Htext) as (_ & Hx & _).
  unfold note_element. cbn [tree_ok forallb snd].
  rewrite Htext, Hts. change (clean_text None) with true. cbn [andb].
  rewrite !andb_true_r.
  destruct (String.length text <=? 30)%nat; [exact Hx|].
  now apply str_forall_take.
Qed.

Lemma tail_update_child : forall i p f root,
  tail (update (i :: p) f root) = tail root.
Proof. now destruct root. Qed.

Lemma tail_append_child : forall c e, tail (append_child c e) = tail e.
Proof. now destruct e. Qed.

(** *** Appending a note is [nb_add] *)

Lemma skeleton_note_tree : forall n, skeleton (note_tree n) = note_tree n.
Proof. reflexivity. Qed.

Lemma skeleton_append_note : forall c name notes n,
  skeleton c = topic_tree (name, notes) ->
  skeleton (append_child (note_tree n) c) = topic_tree (name, notes ++ [n]).
Proof.
  intros [t a tx tl cs] name notes n H.
  unfold topic_tree in *. cbn [skeleton append_child fst snd] in *.
  injection H as Ht Ha _ Hcs. subst t a.
  rewrite !map_app, Hcs. cbn [map]. rewrite skeleton_note_tree.
  destruct cs; reflexivity.
Qed.

Lemma nb_add_existing : forall topic n nb cs i,
  map skeleton cs = map topic_tree nb ->
  nb_index topic nb = Some i ->
  map skeleton (update_nth i (append_child (note_tree n)) cs)
  = map topic_tree (nb_add topic n nb).
Proof.
  intros topic n. induction nb as [|[name notes] nb IH]; intros cs i Hcs Hi;
    [discriminate|].
  destruct cs as [|c cs]; [discriminate|].
  cbn [map] in Hcs. injection Hcs as Hc Hcs.
  cbn [nb_index nb_add] in *.
  destruct (String.eqb name topic).
  - injection Hi as <-. cbn [update_nth map]. f_equal; [|exact Hcs].
    now apply skeleton_append_note.
  - destruct (nb_index topic nb) as [j|] eqn:Hj; [|discriminate].
    injection Hi as <-. cbn [update_nth map]. f_equal; [exact Hc|].
    now apply IH.
Qed.

Lemma nb_add_new : forall topic n nb,
  nb_index topic nb = None -> nb_add topic n nb = nb ++ [(topic, [n])].
Proof.
  intros topic n. induction nb as [|[name notes] nb IH]; intros H; [reflexivity|].
  cbn [nb_index nb_add app] in *.
  destruct (String.eqb name topic); [discriminate|].
  destruct (nb_index topic nb); [discriminate|]. now rewrite IH.
Qed.

(** The tree [add_note] writes, without its layout, is the tree of the
    notebook with the note added. *)
Lemma skeleton_add_note : forall root nb topic n,
  skeleton root = notebook_tree nb ->
  let topic_el := option_map (fun i => [i]) (nb_index topic nb) in
  skeleton (update (snd (located_topic root topic_el topic))
                   (append_child (note_tree n))
                   (fst (located_topic root topic_el topic)))
  = notebook_tree (nb_add topic n nb).
Proof.
  intros [t a tx tl cs] nb topic n H topic_el. subst topic_el.
  unfold notebook_tree in *. cbn [skeleton] in H.
  injection H as Ht Ha Htx Hcs. subst t a.
  destruct (nb_index topic nb) as [i|] eqn:Hi; cbn [option_map located_topic fst snd].
  - cbn [update skeleton].
    change (fun e : Element => append_child (note_tree n) e)
      with (append_child (note_tree n)).
    rewrite (nb_add_existing topic n nb cs i Hcs Hi).
    destruct nb as [|x nb]; [discriminate|]. destruct cs as [|c cs]; [discriminate|].
    destruct i; reflexivity.
  - unfold SubElement. cbn [subtree children fst snd update app append_child].
    rewrite update_nth_app_length. cbn [skeleton].
    rewrite map_app, Hcs, (nb_add_new topic n nb Hi), map_app.
    cbn [map]. destruct cs; reflexivity.
Qed.

(** *** The operations on a file that holds a notebook *)

Lemma load_holds : forall f nb,
  holds f nb ->
  exists root, _load_tree f = (Return root, Some (serialize root))
               /\ tree_ok root = true /\ tail root = None
               /\ skeleton root = notebook_tree nb.
Proof.
  intros [doc|] nb H; cbn [holds] in H.
  - destruct H as (root & -> & Hok & Htl & Hsk).
    exists root. cbn [_load_tree]. now rewrite parse_serialize.
  - subst nb. exists (new_element "data" []). repeat split.
Qed.

Lemma located_topic_ok : forall root topic_el topic,
  tree_ok root = true -> str_forall xml_char topic = true ->
  tree_ok (fst (located_topic root topic_el topic)) = true.
Proof.
  intros root [p|] topic H Ht; [exact H|].
  unfold located_topic, SubElement. cbn [fst update].
  apply tree_ok_append_child; [|exact H].
  cbn [new_element tree_ok forallb snd]. now rewrite Ht.
Qed.

Lemma located_topic_tail : forall root i topic,
  tail (fst (located_topic root i topic)) = tail root.
Proof.
  intros root [p|] topic; [reflexivity|].
  unfold located_topic, SubElement. cbn [fst update]. apply tail_append_child.
Qed.

Lemma located_topic_child : forall root i topic,
  exists j, snd (located_topic root (option_map (fun i => [i]) i) topic) = [j].
Proof.
  intros root [i|] topic; cbn [option_map located_topic snd SubElement app]; eauto.
Qed.

(** [add_note] with a plain call on a file that holds [nb] returns [True]
    and leaves a file that holds [nb] with the note added. *)
Lemma add_note_holds : forall f nb c,
  holds f nb -> plain_call c = true ->
  exists f', add_note (c_topic c) (c_text c) (c_timestamp c) (c_now c) f
             = (Return true, f')
             /\ holds f' (nb_add (c_topic c) (call_note c) nb).
Proof.
  intros f nb [topic text timestamp now] Hf Hc.
  unfold plain_call in Hc. cbn [c_topic c_text c_timestamp c_now] in *.
  repeat (apply andb_true_iff in Hc; destruct Hc as [Hc ?]).
  destruct (load_holds f nb Hf) as (root & Hload & Hok & Htl & Hsk).
  unfold add_note. rewrite Hload.
  pose proof (find_topic_path root topic Hc) as Hfind.
  rewrite (first_index_skeleton root topic nb Hsk) in Hfind.
  rewrite Hfind. eexists. split; [reflexivity|].
  rewrite add_note_tree_appends
    by (now apply (located_topic_valid root (topic_path topic))).
  cbn [holds]. eexists. split; [reflexivity|].
  split; [|split].
  - apply tree_ok_indent, tree_ok_update; [now apply located_topic_ok|].
    intros e He. apply tree_ok_append_child; [|exact He].
    now apply tree_ok_note_element.
  - rewrite tail_indent.
    destruct (located_topic_child root (nb_index topic nb) topic) as [j ->].
    now rewrite tail_update_child, located_topic_tail.
  - rewrite skeleton_indent.
    apply (skeleton_add_note root nb topic
             (timestamp_or_now timestamp now, text) Hsk).
Qed.

Lemma nb_index_none : forall topic nb,
  nb_index topic nb = None -> nb_get topic nb = [].
Proof.
  intros topic. induction nb as [|[name notes] nb IH]; intros H; [reflexivity|].
  cbn [nb_index nb_get] in *. destruct (String.eqb name topic); [discriminate|].
  destruct (nb_index topic nb); [discriminate|]. now apply IH.
Qed.

Lemma nb_index_some : forall topic nb i,
  nb_index topic nb = Some i ->
  exists name, nth_error nb i = Some (name, nb_get topic nb).
Proof.
  intros topic. induction nb as [|[name notes] nb IH]; intros i H; [discriminate|].
  cbn [nb_index nb_get] in *. destruct (String.eqb name topic).
  - injection H as <-. now exists name.
  - destruct (nb_index topic nb) as [j|]; [|discriminate].
    injection H as <-. now apply IH.
Qed.

Lemma child_text_note : forall k n,
  skeleton k = note_tree n ->
  tag k = "note"
  /\ child_text k "timestamp" = VStr (fst n)
  /\ child_text k "text" = VStr (snd n).
Proof.
  intros [t a tx tl cs] [ts text] H. unfold note_tree, note_element in H.
  cbn [skeleton fst snd] in H. injection H as Ht _ _ Hcs. subst t.
  destruct cs as [|[t1 a1 tx1 tl1 [|? ?]] [|[t2 a2 tx2 tl2 [|? ?]] [|? ?]]];
    try discriminate.
  cbn [map skeleton] in Hcs.
  injection Hcs as -> _ -> -> _ ->.
  repeat split.
Qed.

Lemma notes_of_topic : forall te name notes,
  skeleton te = topic_tree (name, notes) ->
  map (fun note => VList [child_text note "timestamp"; child_text note "text"])
      (filter (fun c => String.eqb (tag c) "note") (children te))
  = map (fun n => VList [VStr (fst n); VStr (snd n)]) notes.
Proof.
  intros [t a tx tl cs] name notes H. unfold topic_tree in H.
  cbn [skeleton fst snd children] in *. injection H as _ _ _ Hcs.
  revert notes Hcs. induction cs as [|k cs IH]; intros [|n notes] Hcs;
    try discriminate; [reflexivity|].
  cbn [map] in Hcs. injection Hcs as Hk Hcs.
  destruct (child_text_note k n Hk) as (Ht & Hts & Htext).
  cbn [filter]. rewrite Ht. cbn [String.eqb Ascii.eqb Bool.eqb map].
  rewrite Hts, Htext. f_equal. now apply IH.
Qed.

(** [get_notes] with a topic without an apostrophe on a file that holds
    [nb] returns the notes of that topic and leaves a file that holds
    [nb]. *)
Lemma get_notes_holds : forall f nb topic,
  holds f nb -> no_apostrophe topic = true ->
  exists f', get_notes topic f = (Return (notes_value (nb_get topic nb)), f')
             /\ holds f' nb
             /\ (f <> None -> f' = f).
Proof.
  intros f nb topic Hf Ht.
  destruct (load_holds f nb Hf) as (root & Hload & Hok & Htl & Hsk).
  unfold get_notes. rewrite Hload.
  rewrite (find_topic_path root topic Ht), (first_index_skeleton root topic nb Hsk).
  assert (Hholds : holds (Some (serialize root)) nb).
  { cbn [holds]. now exists root. }
  assert (Hsame : f <> None -> Some (serialize root) = f).
  { destruct f as [doc|]; [|congruence]. intros _.
    cbn [_load_tree] in Hload. now injection Hload as _ <-. }
  destruct (nb_index topic nb) as [i|] eqn:Hi; cbn [option_map].
  - destruct (nb_index_some topic nb i Hi) as (name & Hnth).
    assert (Hte : exists te, nth_error (children root) i = Some te
                             /\ skeleton te = topic_tree (name, nb_get topic nb)).
    { assert (Hmap : map skeleton (children root) = map topic_tree nb).
      { rewrite <- skeleton_children, Hsk. reflexivity. }
      apply (f_equal (fun l => nth_error l i)) in Hmap.
      rewrite !nth_error_map, Hnth in Hmap.
      destruct (nth_error (children root) i) as [te|]; [|discriminate].
      exists te. split; [reflexivity|]. cbn [option_map] in Hmap. congruence. }
    destruct Hte as (te & Hnte & Hskte).
    cbn [subtree]. rewrite Hnte.
    eexists. split; [|split; [exact Hholds|exact Hsame]].
    unfold notes_value. rewrite <- (notes_of_topic te name _ Hskte).
    destruct te as [t a tx tl [|k ks]]; reflexivity.
  - rewrite (nb_index_none topic nb Hi).
    eexists. split; [reflexivity|]. split; [exact Hholds|exact Hsame].
Qed.

Lemma list_topics_holds : forall f nb,
  holds f nb ->
  fst (list_topics f) = Return (VList (map (fun t => VStr (fst t)) nb)).
Proof.
  intros f nb Hf.
  destruct (load_holds f nb Hf) as (root & Hload & Hok & Htl & Hsk).
  unfold list_topics. rewrite Hload.
  assert (Hmap : map skeleton (children root) = map topic_tree nb).
  { rewrite <- skeleton_children, Hsk. reflexivity. }
  assert (Hnames : topic_names (filter (fun c => String.eqb (tag c) "topic")
                                       (children root))
                   = Return (map (fun t => VStr (fst t)) nb)).
  { revert Hmap. generalize (children root) as cs. clear.
    induction nb as [|[name notes] nb IH]; intros [|c cs] Hmap; try discriminate;
      [reflexivity|].
    cbn [map] in Hmap. injection Hmap as Hc Hcs.
    destruct c as [t a tx tl ks]. unfold topic_tree in Hc.
    cbn [skeleton fst snd] in Hc. injection Hc as -> -> _ _.
    cbn [filter tag]. replace (String.eqb "topic" "topic") with true by reflexivity.
    cbn [topic_names attrib get].
    replace (String.eqb "name" "name") with true by reflexivity.
    now rewrite (IH cs Hcs). }
  now rewrite Hnames.
Qed.

(** *** Sequences of calls *)

Lemma run_calls_holds : forall calls f nb,
  holds f nb -> forallb plain_call calls = true ->
  holds (run_calls calls f) (nb_run calls nb).
Proof.
  induction calls as [|c calls IH]; intros f nb Hf Hcalls; [exact Hf|].
  cbn [forallb] in Hcalls. apply andb_true_iff in Hcalls.
  destruct Hcalls as [Hc Hcalls].
  destruct (add_note_holds f nb c Hf Hc) as (f' & Hadd & Hf').
  unfold run_calls, nb_run. cbn [fold_left]. rewrite Hadd. cbn [snd].
  now apply IH.
Qed.

Lemma nb_get_add : forall topic topic' n nb,
  nb_get topic (nb_add topic' n nb)
  = if String.eqb topic' topic then nb_get topic nb ++ [n] else nb_get topic nb.
Proof.
  intros topic topic' n. induction nb as [|[name notes] nb IH].
  - cbn [nb_add nb_get]. now destruct (String.eqb topic' topic).
  - cbn [nb_add nb_get]. destruct (String.eqb name topic') eqn:E.
    + apply String.eqb_eq in E. subst topic'. cbn [nb_get].
      now destruct (String.eqb name topic).
    + cbn [nb_get]. destruct (String.eqb name topic) eqn:E2; [|exact IH].
      apply String.eqb_eq in E2. subst topic.
      rewrite String.eqb_sym in E. now rewrite E.
Qed.

Lemma nb_get_run : forall topic calls nb,
  nb_get topic (nb_run calls nb) = nb_get topic nb ++ notes_under topic calls.
Proof.
  intros topic. unfold nb_run, notes_under.
  induction calls as [|c calls IH]; intros nb; [now rewrite app_nil_r|].
  cbn [fold_left filter]. rewrite IH, nb_get_add.
  destruct (String.eqb (c_topic c) topic); [|reflexivity].
  cbn [map]. now rewrite <- app_assoc.
Qed.

Lemma nb_names_add : forall topic n nb,
  map fst (nb_add topic n nb)
  = if existsb (fun t => String.eqb (fst t) topic) nb then map fst nb
    else map fst nb ++ [topic].
Proof.
  intros topic n. induction nb as [|[name notes] nb IH]; [reflexivity|].
  cbn [nb_add existsb fst]. destruct (String.eqb name topic); [reflexivity|].
  cbn [map orb fst]. rewrite IH.
  now destruct (existsb _ nb).
Qed.

Lemma nb_names_nodup : forall calls nb,
  NoDup (map fst nb) -> NoDup (map fst (nb_run calls nb)).
Proof.
  unfold nb_run. induction calls as [|c calls IH]; intros nb H; [exact H|].
  cbn [fold_left]. apply IH. rewrite nb_names_add.
  destruct (existsb _ nb) eqn:E; [exact H|].
  apply NoDup_app; [exact H|repeat constructor; intros []|].
  intros x Hx [<-|[]].
  apply in_map_iff in Hx. destruct Hx as (t & Ht & Hin).
  assert (Hex : existsb (fun t => String.eqb (fst t) (c_topic c)) nb = true).
  { apply existsb_exists. exists t. split; [exact Hin|].
    rewrite Ht. apply String.eqb_refl. }
  congruence.
Qed.

(** X1.  The round trip for plain calls: starting without a database file,
    after any sequence of plain [add_note] calls, [get_notes] for a topic
    without an apostrophe returns the notes added under that topic, in the
    order of the calls, with their texts and time stamps; and [list_topics]
    returns pairwise different names. *)
Theorem get_notes_after_plain_calls : forall calls topic,
  forallb plain_call calls = true ->
  no_apostrophe topic = true ->
  fst (get_notes topic (run_calls calls None))
  = Return (notes_value (notes_under topic calls))
  /\ exists names,
       fst (list_topics (run_calls calls None)) = Return (VList (map VStr names))
       /\ NoDup names.
Proof.
  intros calls topic Hcalls Htopic.
  assert (Hholds : holds (run_calls calls None) (nb_run calls []))
    by (apply run_calls_holds; [reflexivity|exact Hcalls]).
  split.
  - destruct (get_notes_holds _ _ topic Hholds Htopic) as (f' & -> & _).
    cbn [fst]. now rewrite nb_get_run.
  - exists (map fst (nb_run calls [])). split.
    + rewrite (list_topics_holds _ _ Hholds). now rewrite map_map.
    + apply nb_names_nodup. constructor.
Qed.

(** X3.  A topic without an apostrophe that no call has used: [get_notes]
    returns the empty list and leaves the database file as it is. *)
Lemma get_notes_unknown_plain_topic : forall calls topic,
  forallb plain_call calls = true ->
  no_apostrophe topic = true ->
  notes_under topic calls = [] ->
  calls <> [] ->
  get_notes topic (run_calls calls None)
  = (Return (VList []), run_calls calls None).
Proof.
  intros calls topic Hcalls Htopic Hnone Hne.
  assert (Hholds : holds (run_calls calls None) (nb_run calls []))
    by (apply run_calls_holds; [reflexivity|exact Hcalls]).
  destruct (get_notes_holds _ _ topic Hholds Htopic) as (f' & -> & _ & Hsame).
  rewrite nb_get_run, Hnone. cbn [nb_get app notes_value map].
  f_equal. apply Hsame.
  destruct calls as [|c calls]; [congruence|].
  cbn [forallb] in Hcalls. apply andb_true_iff in Hcalls. destruct Hcalls as [Hc Hcs].
  destruct (add_note_holds None [] c eq_refl Hc) as (f1 & Hadd & Hf1).
  unfold run_calls. cbn [fold_left]. rewrite Hadd. cbn [snd].
  assert (Hsome : forall calls f, f <> None ->
            forallb plain_call calls = true ->
            (exists nb, holds f nb) ->
            fold_left (fun f c => snd (add_note (c_topic c) (c_text c) (c_timestamp c)
                                                (c_now c) f)) calls f <> None).
  { clear. induction calls as [|c calls IH]; intros f Hf Hcalls [nb Hnb]; [exact Hf|].
    cbn [forallb] in Hcalls. apply andb_true_iff in Hcalls. destruct Hcalls as [Hc Hcs].
    destruct (add_note_holds f nb c Hnb Hc) as (f1 & Hadd & Hf1).
    cbn [fold_left]. rewrite Hadd. cbn [snd]. apply IH; [|exact Hcs|eauto].
    unfold add_note in Hadd. destruct (_load_tree f) as [[root|e] f0]; [|discriminate].
    destruct (find root _); [|discriminate]. injection Hadd as <-. discriminate. }
  apply Hsome; [|exact Hcs|eauto].
  unfold add_note in Hadd. cbn [_load_tree] in Hadd.
  destruct (parse _) as [root|e]; [|discriminate].
  destruct (find root _); [|discriminate]. injection Hadd as <-. discriminate.
Qed.

End StoreFacts.

(** * Time stamps of recorded notes *)

Module TimestampFacts.

Import ET Server Store TreeFacts ServerFacts StoreFacts Scenario.

Lemma isdigit_plain : forall c,
  isdigit c = true -> xml_char c = true /\ Ascii.eqb (chr 13) c = false.
Proof.
  intros c H. unfold isdigit in H. apply andb_true_iff in H.
  destruct H as [Hlo Hhi]. apply Nat.leb_le in Hlo.
  split.
  - unfold xml_char. replace (32 <=? nat_of_ascii c)%nat with true; [reflexivity|].
    symmetry. apply Nat.leb_le. lia.
  - apply Ascii.eqb_neq. intros <-. unfold chr in Hlo.
    rewrite nat_ascii_embedding in Hlo; lia.
Qed.

Lemma clean_cons : forall c s,
  xml_char c = true -> Ascii.eqb (chr 13) c = false -> clean s = true ->
  clean (String c s) = true.
Proof.
  intros c s Hc Hcr Hs. unfold clean, in_str in *.
  cbn [str_forall list_ascii_of_string existsb].
  apply andb_true_iff in Hs. destruct Hs as [H1 H2].
  apply negb_true_iff in H2. now rewrite Hc, H1, Hcr, H2.
Qed.

(** A generated time stamp reads back as it was written. *)
Lemma strftime_clean : forall d,
  valid_datetime d -> clean_text (Some (strftime d)) = true.
Proof.
  intros d (Hy & Hm & Hd & Hh & Hmi & Hs). unfold strftime.
  destruct (pad2_two_digits (month d)) as (m1 & m2 & -> & ? & ?); [lia|].
  destruct (pad2_two_digits (day d)) as (d1 & d2 & -> & ? & ?); [lia|].
  destruct (pad2_two_digits (year d mod 100)%Z) as (y1 & y2 & -> & ? & ?).
  { apply Z.mod_pos_bound. lia. }
  destruct (pad2_two_digits (hour d)) as (h1 & h2 & -> & ? & ?); [lia|].
  destruct (pad2_two_digits (minute d)) as (n1 & n2 & -> & ? & ?); [lia|].
  destruct (pad2_two_digits (second d)) as (s1 & s2 & -> & ? & ?); [lia|].
  unfold clean_text. apply andb_true_iff. split; [reflexivity|].
  cbn [String.append].
  repeat match goal with
         | H : isdigit ?c = true |- clean (String ?c _) = true =>
             apply clean_cons; [apply (isdigit_plain c H)|apply (isdigit_plain c H)|]
         | |- clean (String _ _) = true =>
             apply clean_cons; [reflexivity|reflexivity|]
         end.
  reflexivity.
Qed.

(** X4.  On a store that holds a notebook, [add_note] without a time stamp
    returns [True] and leaves a store that holds the notebook with the note
    added under the topic, carrying the time stamp generated from the clock,
    which has the shape [MM/DD/YY - HH:MM:SS].  The conditions: the topic
    has no apostrophe and consists of characters XML allows; the text is not
    empty, consists of characters XML allows and has no carriage return; the
    clock reading is one [utcnow()] can give. *)
Lemma add_note_generates_timestamp : forall f nb topic text now,
  holds f nb ->
  no_apostrophe topic = true -> str_forall xml_char topic = true ->
  clean_text (Some text) = true ->
  valid_datetime now ->
  exists f', add_note topic text None now f = (Return true, f')
             /\ holds f' (nb_add topic (strftime now, text) nb)
             /\ timestamp_format (strftime now) = true.
Proof.
  intros f nb topic text now Hf Ht Hx Htext Hnow.
  destruct (add_note_holds f nb (mkCall topic text None now) Hf) as (f' & Hadd & Hf').
  { unfold plain_call. cbn [c_topic c_text c_timestamp c_now timestamp_or_now].
    now rewrite Ht, Hx, Htext, (strftime_clean now Hnow). }
  exists f'. repeat split; [exact Hadd|exact Hf'|now apply strftime_format].
Qed.

(** C10.  An empty [timestamp] argument is treated exactly like a missing
    one: the two calls behave the same in every respect.  The note a call
    records carries the generated time stamp (never empty) in that case, and
    a non-empty argument character for character otherwise: so says the tree
    the call writes, and so says the notebook the file holds afterwards when
    the call is a plain one. *)
Theorem empty_timestamp_is_replaced : forall topic text now f,
  add_note topic text (Some "") now f = add_note topic text None now f
  /\ strftime now <> ""
  /\ (forall ts f',
        add_note topic text (Some ts) now f = (Return true, f') ->
        exists root topic_el,
          fst (_load_tree f) = Return root
          /\ find root (topic_path topic) = Return topic_el
          /\ f' = Some (serialize (indent
                    (update (snd (located_topic root topic_el topic))
                            (append_child
                               (note_element text
                                  (if String.eqb ts "" then strftime now else ts)))
                            (fst (located_topic root topic_el topic))))))
  /\ (forall ts nb,
        holds f nb ->
        plain_call (mkCall topic text (Some ts) now) = true ->
        exists f',
          add_note topic text (Some ts) now f = (Return true, f')
          /\ holds f' (nb_add topic
                         (if String.eqb ts "" then strftime now else ts, text) nb)).
Proof.
  intros topic text now f. split; [reflexivity|]. split; [apply strftime_nonempty|].
  split.
  - intros ts f' H. apply add_note_returns in H. destruct H as [_ H].
    destruct ts; exact H.
  - intros ts nb Hf Hplain.
    destruct (add_note_holds f nb _ Hf Hplain) as (f' & Hadd & Hf').
    exists f'. split; [exact Hadd|].
    unfold call_note in Hf'. cbn [c_topic c_text c_timestamp c_now] in Hf'.
    destruct ts; exact Hf'.
Qed.

Lemma empty_timestamp_is_replaced_witness :
  (exists root topic_el,
     fst (_load_tree None) = Return root
     /\ find root (topic_path "cooking") = Return topic_el
     /\ snd (add_note "cooking" "boil water" (Some "yesterday") morning None)
        = Some (serialize (indent
            (update (snd (located_topic root topic_el "cooking"))
                    (append_child (note_element "boil water" "yesterday"))
                    (fst (located_topic root topic_el "cooking"))))))
  /\ (exists f',
        add_note "cooking" "boil water" (Some "") morning None = (Return true, f')
        /\ holds f' [("cooking", [("03/07/25 - 09:05:59", "boil water")])]).
Proof.
  destruct (empty_timestamp_is_replaced "cooking" "boil water" morning None)
    as (_ & _ & H3 & H4).
  split.
  - apply (H3 "yesterday" (snd (add_note "cooking" "boil water" (Some "yesterday")
                                         morning None))).
    reflexivity.
  - apply (H4 "" []); reflexivity.
Defined.

End TimestampFacts.

(** * The database file *)

Module FileFacts.

Import ET Server Store TreeFacts ServerFacts StoreFacts Usage Scenario.

Lemma feed_raises_parse_error : forall b ev e,
  feed b ev = Raise e -> exists msg, e = parse_error msg.
Proof.
  intros b ev e. unfold feed.
  destruct ev as [t a|s|t].
  - destruct (negb _); [intros [= <-]; eauto|].
    destruct (stack b); [destruct (root_done b)|]; intros [= <-] || discriminate; eauto.
  - destruct (negb _); [intros [= <-]; eauto|].
    destruct (stack b); [destruct (str_forall xml_space s)|];
      intros [= <-] || discriminate; eauto.
  - destruct (stack (flush b)) as [|f fs]; [intros [= <-]; eauto|].
    destruct (negb _); [intros [= <-]; eauto|].
    destruct fs; discriminate.
Qed.

Lemma feed_all_raises_parse_error : forall evs b e,
  feed_all b evs = Raise e -> exists msg, e = parse_error msg.
Proof.
  induction evs as [|ev evs IH]; intros b e; cbn [feed_all]; [discriminate|].
  destruct (feed b ev) as [b'|e'] eqn:E.
  - apply IH.
  - intros [= <-]. eapply feed_raises_parse_error, E.
Qed.

Lemma parse_raises_parse_error : forall evs e,
  parse evs = Raise e -> exists msg, e = parse_error msg.
Proof.
  intros evs e. unfold parse.
  destruct (feed_all _ evs) as [b|e'] eqn:E.
  - destruct (stack b); [destruct (root_done b)|]; intros [= <-] || discriminate; eauto.
  - intros [= <-]. eapply feed_all_raises_parse_error, E.
Qed.

(** X5.  [_load_tree] never fails for want of a file: without one it writes
    the document of an empty [<data>] root and returns that root.  Once it
    has returned, the file exists and loading again returns the same tree
    and leaves the file as it is.  When it raises, the exception is a
    [ParseError] of the file that was there, and the file is untouched. *)
Theorem load_tree_settles : forall f,
  _load_tree None = (Return (new_element "data" []), Some [Start "data" []; End_ "data"])
  /\ (forall root f1, _load_tree f = (Return root, f1) ->
        f1 <> None /\ _load_tree f1 = (Return root, f1))
  /\ (forall e f1, _load_tree f = (Raise e, f1) ->
        f1 = f /\ f <> None /\ exists msg, e = PyExc "ParseError" msg).
Proof.
  intros f. split; [reflexivity|]. split.
  - intros root f1. destruct f as [doc|]; cbn [_load_tree].
    + intros [= H <-]. split; [discriminate|]. cbn [_load_tree]. now rewrite H.
    + intros [= <- <-]. split; [discriminate|reflexivity].
  - intros e f1. destruct f as [doc|].
    + cbn [_load_tree]. intros [= H <-]. repeat split; [discriminate|].
      apply parse_raises_parse_error in H. exact H.
    + discriminate.
Qed.


(** *** Topics in order of first use *)

Lemma existsb_names : forall topic (nb : notebook),
  existsb (fun t => String.eqb (fst t) topic) nb
  = existsb (fun n => String.eqb n topic) (map fst nb).
Proof. induction nb as [|t nb IH]; [reflexivity|]. simpl. now rewrite IH. Qed.

Lemma nb_names_run : forall calls nb,
  map fst (nb_run calls nb)
  = map fst nb ++ first_uses (map fst nb) (map c_topic calls).
Proof.
  induction calls as [|c calls IH]; intros nb.
  - simpl. now rewrite app_nil_r.
  - unfold nb_run in *. cbn [fold_left map first_uses]. rewrite IH, nb_names_add.
    rewrite <- existsb_names.
    destruct (existsb _ nb); [reflexivity|]. now rewrite <- app_assoc.
Qed.

(** X2.  Starting without a database file, after any sequence of plain
    [add_note] calls [list_topics] returns the topics of the calls in the
    order of their first use, each of them once. *)
Theorem list_topics_after_plain_calls : forall calls,
  forallb plain_call calls = true ->
  fst (list_topics (run_calls calls None))
  = Return (VList (map VStr (first_uses [] (map c_topic calls)))).
Proof.
  intros calls Hcalls.
  assert (Hholds : holds (run_calls calls None) (nb_run calls []))
    by (apply run_calls_holds; [reflexivity|exact Hcalls]).
  rewrite (list_topics_holds _ _ Hholds).
  rewrite <- (map_map fst VStr), nb_names_run. reflexivity.
Qed.

End FileFacts.

(** * Characters the file cannot hold *)

Module PoisonFacts.

Import ET Server Store TreeFacts ServerFacts StoreFacts FileFacts Usage Scenario.








End PoisonFacts.

(** * Topic names that close the quoted value *)

Module QuoteFacts.

Import ET Server Store TreeFacts ServerFacts StoreFacts FileFacts Usage Scenario.

Lemma topic_path_two_names : forall a b,
  topic_path (two_names a b)
  = "./topic[@name='" +++ a +++ "'][@name='" +++ b +++ "']".
Proof.
  intros a b. unfold topic_path, two_names. now rewrite !append_assoc.
Qed.

Lemma findall_tokens_two_names : forall a b,
  no_apostrophe a = true -> no_apostrophe b = true ->
  xpath_tokenizer (topic_path (two_names a b)) =
  map Return [(".", ""); ("/", ""); ("", "topic");
              ("[", ""); ("@", ""); ("", "name"); ("=", "");
              ("'" +++ a +++ "'", ""); ("]", "");
              ("[", ""); ("@", ""); ("", "name"); ("=", "");
              ("'" +++ b +++ "'", ""); ("]", "")].
Proof.
  intros a b Ha Hb. rewrite topic_path_two_names. unfold xpath_tokenizer.
  rewrite !length_append.
  cbn [String.length Nat.add String.append].
  do 7 (erewrite findall_tokens_step; [|lazy; reflexivity]).
  erewrite findall_tokens_step;
    [|apply (next_match_quoted a ("][@name='" +++ b +++ "']") Ha)].
  cbn [String.append].
  rewrite !Nat.add_succ_r.
  do 5 (erewrite findall_tokens_step; [|lazy; reflexivity]).
  erewrite findall_tokens_step; [|apply (next_match_quoted b "]" Hb)].
  erewrite findall_tokens_step; [|lazy; reflexivity].
  rewrite findall_tokens_empty. reflexivity.
Qed.

Lemma prepare_predicate_name_then : forall topic rest,
  prepare_predicate
    (Return ("@", "") :: Return ("", "name") :: Return ("=", "")
     :: Return ("'" +++ topic +++ "'", "") :: Return ("]", "") :: rest)
  = Return (SelAttrEq "name" topic, rest).
Proof.
  intros topic rest. unfold prepare_predicate.
  cbn -[String.append slice_1_m1].
  change (String "'" (topic +++ "'")) with ("'" +++ topic +++ "'").
  rewrite slice_quoted. reflexivity.
Qed.

(** The path of such a name holds two predicates on the attribute. *)
Lemma compile_two_names : forall a b,
  no_apostrophe a = true -> no_apostrophe b = true ->
  compile (topic_path (two_names a b))
  = Return (Some [SelSelf; SelChild (TagIs "topic");
                  SelAttrEq "name" a; SelAttrEq "name" b]).
Proof.
  intros a b Ha Hb. unfold compile.
  assert (Hlast : take_last 1 (topic_path (two_names a b)) = "]").
  { rewrite topic_path_two_names.
    replace ("./topic[@name='" +++ a +++ "'][@name='" +++ b +++ "']")
      with (("./topic[@name='" +++ a +++ "'][@name='" +++ b +++ "'") +++ "]")
      by (now rewrite !append_assoc).
    apply (take_last_append _ "]"). }
  rewrite Hlast.
  replace (String.eqb "]" "/") with false by reflexivity.
  replace (String.eqb (take 1 (topic_path (two_names a b))) "/") with false
    by reflexivity.
  rewrite (findall_tokens_two_names a b Ha Hb).
  cbn [map length].
  rewrite compile_loop_eq.
  replace (prepare (".", "") _) with
    (Return (SelSelf,
       map (@Return token)
           [("/", ""); ("", "topic");
            ("[", ""); ("@", ""); ("", "name"); ("=", "");
            ("'" +++ a +++ "'", ""); ("]", "");
            ("[", ""); ("@", ""); ("", "name"); ("=", "");
            ("'" +++ b +++ "'", ""); ("]", "")]))
    by reflexivity.
  cbn [map]. cbv iota zeta beta.
  replace (String.eqb "/" "/") with true by reflexivity. cbv iota.
  rewrite compile_loop_eq.
  replace (prepare ("", "topic") _) with
    (Return (SelChild (TagIs "topic"),
       map (@Return token)
           [("[", ""); ("@", ""); ("", "name"); ("=", "");
            ("'" +++ a +++ "'", ""); ("]", "");
            ("[", ""); ("@", ""); ("", "name"); ("=", "");
            ("'" +++ b +++ "'", ""); ("]", "")]))
    by reflexivity.
  cbn [map]. cbv iota zeta beta.
  replace (String.eqb "[" "/") with false by reflexivity. cbv iota.
  rewrite compile_loop_eq.
  replace (prepare ("[", "") _) with
    (prepare_predicate
       (Return ("@", "") :: Return ("", "name") :: Return ("=", "")
        :: Return ("'" +++ a +++ "'", "") :: Return ("]", "")
        :: [Return ("[", ""); Return ("@", ""); Return ("", "name");
            Return ("=", ""); Return ("'" +++ b +++ "'", ""); Return ("]", "")]))
    by reflexivity.
  rewrite prepare_predicate_name_then.
  cbv iota zeta beta.
  replace (String.eqb "[" "/") with false by reflexivity. cbv iota.
  rewrite compile_loop_eq.
  replace (prepare ("[", "") _) with
    (prepare_predicate
       (Return ("@", "") :: Return ("", "name") :: Return ("=", "")
        :: Return ("'" +++ b +++ "'", "") :: Return ("]", "") :: []))
    by reflexivity.
  rewrite prepare_predicate_name_then. reflexivity.
Qed.

(** The lookup under such a name: the first topic element whose name is
    [a] and is [b]. *)
Lemma find_two_names : forall root a b,
  no_apostrophe a = true -> no_apostrophe b = true ->
  find root (topic_path (two_names a b))
  = Return (option_map (fun i => [i])
              (first_index (fun c => is_topic a c && is_topic b c) (children root))).
Proof.
  intros root a b Ha Hb. unfold find, findall.
  replace (checkpath (topic_path (two_names a b))) with true.
  2:{ rewrite topic_path_two_names. reflexivity. }
  unfold path_findall. rewrite (compile_two_names a b Ha Hb).
  cbn [existsb is_none orb fold_left select flat_map].
  rewrite app_nil_r, !filter_filter.
  f_equal. unfold child_positions. cbn [subtree app].
  apply (hd_filter_positions _ (fun c => is_topic a c && is_topic b c) (children root) 0).
  intros i c Hi. unfold tag_at, attrib_at, is_topic. cbn [Nat.add subtree].
  rewrite Hi. cbn [tag_matches].
  destruct (String.eqb (tag c) "topic"); [|reflexivity].
  cbn [andb]. reflexivity.
Qed.


Lemma is_topic_both : forall a b c,
  is_topic a c && is_topic b c = is_topic a c && String.eqb a b.
Proof.
  intros a b c. unfold is_topic.
  destruct (String.eqb (tag c) "topic"); [|reflexivity]. cbn [andb].
  destruct (get (attrib c) "name") as [v|]; [|reflexivity].
  destruct (String.eqb v a) eqn:Ea; [|reflexivity].
  apply String.eqb_eq in Ea. subst v. reflexivity.
Qed.

Lemma find_same_name : forall root a,
  no_apostrophe a = true ->
  find root (topic_path (two_names a a)) = find root (topic_path a).
Proof.
  intros root a Ha. rewrite (find_two_names root a a Ha Ha), (find_topic_path root a Ha).
  do 2 f_equal. apply first_index_ext. intros c.
  now rewrite is_topic_both, String.eqb_refl, andb_true_r.
Qed.


(** X8.  A topic name of the form [a'][@name='a] is an alias of the topic
    [a]: on every database file [get_notes] returns for it what it returns
    for [a], and where the topic [a] exists [add_note] under the alias does
    what [add_note] under [a] does, so the note lands in the topic [a]. *)
Theorem alias_of_topic : forall a f,
  no_apostrophe a = true ->
  get_notes (two_names a a) f = get_notes a f
  /\ forall text timestamp now,
       fst (get_notes a f) <> Return (VList []) ->
       add_note (two_names a a) text timestamp now f
       = add_note a text timestamp now f.
Proof.
  intros a f Ha. split.
  - unfold get_notes. destruct (_load_tree f) as [[root|e] f1]; [|reflexivity].
    now rewrite (find_same_name root a Ha).
  - intros text timestamp now. unfold get_notes, add_note.
    destruct (_load_tree f) as [[root|e] f1]; [|reflexivity].
    rewrite (find_same_name root a Ha).
    destruct (find root (topic_path a)) as [[p|]|e]; try reflexivity.
    cbn [fst]. congruence.
Qed.




End QuoteFacts.

(** * Sequences of calls through the dispatcher *)

Module DispatchFacts.

Import Client Usage ClientFacts.

Section Dispatcher.

Variable pool : list string.
Variable Net : Type.
Variable xmlrpc_call : string -> string -> list value -> Net -> result value * Net.

Notation N := (length pool).
Notation perform_rpc := (perform_rpc pool Net xmlrpc_call).
Notation perform_all := (perform_all pool Net xmlrpc_call).
Notation failing := (failing Net xmlrpc_call).
Notation cycle_take := (cycle_take pool).
Notation rotation := (rotation pool).
Notation advance := (advance pool).
Notation up := (up Net xmlrpc_call).

Lemma perform_rpc_up : forall method args st,
  (forall url, In url pool -> up url) ->
  server_cycle st < N ->
  exists v n',
    perform_rpc method args st
    = (v, mkState (advance (server_cycle st) 1) (stdout st)
                  (wire st ++ cycle_take (server_cycle st) 1) n').
Proof.
  intros method args st Hup Hc.
  destruct (Hup (nth (server_cycle st) pool "") (nth_In _ _ Hc) method args (net st))
    as (v & n' & Hcall).
  exists v, n'.
  rewrite (perform_rpc_success pool Net xmlrpc_call method args st 0 [] (net st) v n');
    [|lia|constructor|exact Hcall].
  cbn [Client.cycle_take error_lines]. now rewrite app_nil_r.
Qed.

Lemma perform_all_up : forall requests st,
  (forall url, In url pool -> up url) ->
  server_cycle st < N ->
  wire (snd (perform_all requests st))
  = wire st ++ cycle_take (server_cycle st) (length requests)
  /\ stdout (snd (perform_all requests st)) = stdout st
  /\ server_cycle (snd (perform_all requests st))
     = advance (server_cycle st) (length requests)
  /\ length (fst (perform_all requests st)) = length requests.
Proof.
  induction requests as [|[method args] requests IH]; intros st Hup Hc.
  - cbn [Usage.perform_all snd fst length Client.cycle_take]. rewrite app_nil_r.
    repeat split.
  - cbn [Usage.perform_all].
    destruct (perform_rpc_up method args st Hup Hc) as (v & n' & ->).
    match goal with |- context [perform_all requests ?s] => set (st1 := s) end.
    destruct (IH st1 Hup) as (Hw & Ho & Hcur & Hlen).
    { subst st1. cbn [server_cycle]. now apply advance_lt. }
    destruct (perform_all requests st1) as [vs st2].
    cbn [snd fst] in *. subst st1. cbn [wire stdout server_cycle] in *.
    rewrite Hw, Ho, Hcur, <- app_assoc.
    change (length ((method, args) :: requests)) with (1 + length requests).
    rewrite cycle_take_app. repeat split.
    + unfold Client.advance. now rewrite <- Nat.iter_add, Nat.add_comm.
    + cbn [length]. now rewrite Hlen.
Qed.

(** X10.  While every replica answers, the dispatcher is a round robin:
    a sequence of calls is sent to the endpoints the cycle yields, one
    request per call, nothing is printed, and [N] consecutive calls reach
    every endpoint of the pool exactly once. *)
Theorem round_robin : forall requests st,
  (forall url, In url pool -> up url) ->
  server_cycle st < N ->
  let st' := snd (perform_all requests st) in
  wire st' = wire st ++ cycle_take (server_cycle st) (length requests)
  /\ stdout st' = stdout st
  /\ server_cycle st' = (server_cycle st + length requests) mod N
  /\ length (fst (perform_all requests st)) = length requests
  /\ (length requests = N ->
      exists urls, wire st' = wire st ++ urls /\ Permutation urls pool).
Proof.
  intros requests st Hup Hc st'. subst st'.
  destruct (perform_all_up requests st Hup Hc) as (Hw & Ho & Hcur & Hlen).
  repeat split; try assumption.
  - rewrite Hcur. destruct (length requests) as [|k] eqn:E.
    + cbn [Client.advance Nat.iter]. rewrite Nat.add_0_r.
      symmetry. now apply Nat.mod_small.
    + apply advance_mod. lia.
  - intros HN. exists (rotation (server_cycle st)). split.
    + now rewrite Hw, HN, cycle_take_rotation.
    + apply rotation_permutation.
Qed.

End Dispatcher.

(** X11.  With two endpoints of which one fails every call and the other
    answers, any call leaves the iterator on the failing endpoint; so every
    call after the first is sent to the failing endpoint first, prints one
    error line, and is then answered by the other endpoint. *)
Theorem one_of_two_down :
  forall Net (xmlrpc_call : string -> string -> list value -> Net -> result value * Net)
         a b d st method args,
  d < 2 ->
  down Net xmlrpc_call (nth d [a; b] "") ->
  up Net xmlrpc_call (nth (1 - d) [a; b] "") ->
  server_cycle st < 2 ->
  server_cycle (snd (perform_rpc [a; b] Net xmlrpc_call method args st)) = d
  /\ forall st2 method2 args2,
       server_cycle st2 = d ->
       exists e v n',
         perform_rpc [a; b] Net xmlrpc_call method2 args2 st2
         = (v, mkState d
                 (stdout st2 ++ [error_line (nth d [a; b] "") e])
                 (wire st2 ++ [nth d [a; b] ""; nth (1 - d) [a; b] ""]) n').
Proof.
  intros Net xmlrpc_call a b d st method args Hd Hdown Hup Hc.
  assert (Hsticky : forall st2 method2 args2,
            server_cycle st2 = d ->
            exists e v n',
              perform_rpc [a; b] Net xmlrpc_call method2 args2 st2
              = (v, mkState d
                      (stdout st2 ++ [error_line (nth d [a; b] "") e])
                      (wire st2 ++ [nth d [a; b] ""; nth (1 - d) [a; b] ""]) n')).
  { intros [c2 out2 w2 n2] m2 a2 Hc2. cbn [server_cycle] in Hc2. subst c2.
    destruct (Hdown m2 a2 n2) as (e & n3 & Hfail).
    destruct (Hup m2 a2 n3) as (v & n4 & Hok).
    exists e, v, n4.
    unfold perform_rpc. cbn [length attempts cycle_next server_cycle net stdout wire].
    rewrite Hfail.
    cbn [print attempts cycle_next server_cycle net stdout wire].
    destruct d as [|[|d]]; [| |lia]; cbn [nth Nat.sub] in *;
      change (1 mod 2) with 1; change (2 mod 2) with 0;
      cbn [nth]; rewrite Hok; now rewrite <- app_assoc. }
  split; [|exact Hsticky].
  destruct st as [c out w n]. cbn [server_cycle] in Hc.
  destruct (Nat.eq_dec c d) as [->|Hne].
  - destruct (Hsticky (mkState d out w n) method args eq_refl) as (e & v & n' & ->).
    reflexivity.
  - destruct (Hup method args n) as (v & n' & Hok).
    assert (Hcd : c = 1 - d) by lia. subst c.
    unfold perform_rpc. cbn [length attempts cycle_next server_cycle net stdout wire].
    rewrite Hok. cbn [snd server_cycle].
    destruct d as [|[|d]]; [reflexivity|reflexivity|lia].
Qed.

End DispatchFacts.

(** * The menu loop *)

Module ConsoleFacts.

Import Client PyText Console Usage ClientFacts.

Section Loop.

Variable pool : list string.
Variable Net : Type.
Variable xmlrpc_call : string -> string -> list value -> Net -> result value * Net.

Notation N := (length pool).
Notation call := (Client.perform_rpc pool Net xmlrpc_call).
Notation failing := (failing Net xmlrpc_call).
Notation rotation := (rotation pool).
Notation session := (session Net).
Notation M := (M Net).
Notation bind := (bind Net).
Notation print := (Console.print Net).
Notation input := (Console.input Net).
Notation perform_rpc := (Console.perform_rpc pool Net xmlrpc_call).
Notation menu := (Console.menu Net).
Notation print_notes := (Console.print_notes Net).
Notation round := (Console.round pool Net xmlrpc_call).
Notation main_loop := (Console.main_loop pool Net xmlrpc_call).
Notation main := (Console.main pool Net xmlrpc_call).

Lemma bind_return {A B} (m : M A) (k : A -> M B) : forall s a s1,
  m s = (Return a, s1) -> bind m k s = k a s1.
Proof. intros s a s1 H. unfold Console.bind. now rewrite H. Qed.

Lemma bind_raise {A B} (m : M A) (k : A -> M B) : forall s e s1,
  m s = (Raise e, s1) -> bind m k s = (Raise e, s1).
Proof. intros s e s1 H. unfold Console.bind. now rewrite H. Qed.

Lemma printed_printed : forall l1 l2 (st : state Net),
  printed l2 (printed l1 st) = printed (l1 ++ l2) st.
Proof. intros l1 l2 st. unfold printed. cbn. now rewrite app_assoc. Qed.

Lemma printed_nil : forall st : state Net, printed [] st = st.
Proof. intros [c o w n]. unfold printed. cbn. now rewrite app_nil_r. Qed.

Lemma print_eq : forall line c i,
  print line (mkSession c i) = (Return tt, mkSession (printed [line] c) i).
Proof. reflexivity. Qed.

Lemma input_eq : forall prompt c line rest,
  input prompt (mkSession c (line :: rest))
  = (Return line, mkSession (printed [prompt] c) rest).
Proof. reflexivity. Qed.

Lemma input_eof : forall prompt c,
  input prompt (mkSession c [])
  = (Raise (PyExc "EOFError" "EOF when reading a line"),
     mkSession (printed [prompt] c) []).
Proof. reflexivity. Qed.

Lemma perform_rpc_eq : forall method args c i,
  perform_rpc method args (mkSession c i)
  = (Return (fst (call method args c)), mkSession (snd (call method args c)) i).
Proof.
  intros method args c i. unfold Console.perform_rpc. cbn [client stdin].
  now destruct (call method args c).
Qed.

Lemma menu_eq : forall c choice rest,
  menu (mkSession c (choice :: rest))
  = (Return choice, mkSession (printed (menu_lines) c) rest).
Proof.
  intros c choice rest. unfold Console.menu.
  do 4 (erewrite bind_return; [|apply print_eq]; cbv beta).
  rewrite input_eq, !printed_printed. reflexivity.
Qed.

Lemma menu_eof : forall c,
  menu (mkSession c [])
  = (Raise (PyExc "EOFError" "EOF when reading a line"),
     mkSession (printed menu_lines c) []).
Proof.
  intros c. unfold Console.menu.
  do 4 (erewrite bind_return; [|apply print_eq]; cbv beta).
  rewrite input_eof, !printed_printed. reflexivity.
Qed.

(** X12.  Any choice other than [1], [2] and [3] ends the session, not
    only the empty line the menu announces: the loop is left at once, no
    replica is contacted and the iterator stays where it is. *)
Theorem other_choice_ends_session : forall s choice rest,
  stdin s = choice :: rest ->
  choice <> "1" -> choice <> "2" -> choice <> "3" ->
  round s = (Return false, mkSession (printed menu_lines (client s)) rest)
  /\ main s = Some (Return tt, mkSession (printed menu_lines (client s)) rest).
Proof.
  intros [c i] choice rest Hin H1 H2 H3. cbn [stdin client] in *. subst i.
  assert (Hround : round (mkSession c (choice :: rest))
                   = (Return false, mkSession (printed menu_lines c) rest)).
  { unfold Console.round. rewrite (bind_return _ _ _ _ _ (menu_eq c choice rest)).
    apply String.eqb_neq in H1, H2, H3. now rewrite H1, H2, H3. }
  split; [exact Hround|].
  unfold Console.main. cbn [stdin length Console.main_loop]. now rewrite Hround.
Qed.

Lemma round_choice : forall c choice rest,
  round (mkSession c (choice :: rest))
  = (if String.eqb choice "1"
     then bind (Console.add_note_choice pool Net xmlrpc_call) (fun _ => ret Net true)
     else if String.eqb choice "2"
     then bind (Console.fetch_notes_choice pool Net xmlrpc_call) (fun _ => ret Net true)
     else if String.eqb choice "3"
     then bind (Console.wiki_choice pool Net xmlrpc_call) (fun _ => ret Net true)
     else ret Net false) (mkSession (printed menu_lines c) rest).
Proof.
  intros c choice rest. unfold Console.round.
  now rewrite (bind_return _ _ _ _ _ (menu_eq c choice rest)).
Qed.

(** X13.  Option 1 sends the topic and the text as they were typed, and
    prints what came back: [Success? True] when a replica answered [True],
    and [Success? None] when no replica could be reached; the loop goes on
    either way. *)
Theorem add_note_choice_reports : forall s topic text rest,
  stdin s = "1" :: topic :: text :: rest ->
  let st1 := printed (menu_lines ++ ["Topic: "; "Text: "]) (client s) in
  let r := call "add_note" [VStr topic; VStr text] st1 in
  round s = (Return true,
             mkSession (printed ["Success? " +++ py_str (fst r)] (snd r)) rest)
  /\ (forall es n',
        server_cycle (client s) < N ->
        failing "add_note" [VStr topic; VStr text]
                (rotation (server_cycle (client s))) (net (client s)) es n' ->
        round s
        = (Return true,
           mkSession
             (mkState (server_cycle (client s))
                (stdout st1 ++ error_lines (rotation (server_cycle (client s))) es
                 ++ ["All servers failed."; "Success? None"])
                (wire (client s) ++ rotation (server_cycle (client s))) n')
             rest)).
Proof.
  intros [c i] topic text rest Hin st1 r. cbn [stdin client] in *. subst i.
  assert (Hround : round (mkSession c ("1" :: topic :: text :: rest))
            = (Return true,
               mkSession (printed ["Success? " +++ py_str (fst r)] (snd r)) rest)).
  { rewrite round_choice. replace (String.eqb "1" "1") with true by reflexivity.
    cbv iota. unfold Console.add_note_choice.
    erewrite bind_return; [reflexivity|].
    erewrite bind_return; [|apply input_eq]. cbv beta.
    erewrite bind_return; [|apply input_eq]. cbv beta.
    erewrite bind_return; [|apply perform_rpc_eq]. cbv beta.
    rewrite !printed_printed. cbn [app]. apply print_eq. }
  split; [exact Hround|].
  intros es n' Hc Hfail. rewrite Hround. subst r.
  rewrite (perform_rpc_all_fail pool Net xmlrpc_call _ _ st1 es n' Hc Hfail).
  cbn [fst snd py_str py_repr]. unfold printed. cbn [server_cycle stdout wire net].
  now rewrite <- !app_assoc.
Qed.


Lemma advance_one : forall c, Client.advance pool c 1 = S c mod N.
Proof. reflexivity. Qed.

Lemma call_first_answers : forall method args st v n',
  server_cycle st < N ->
  xmlrpc_call (nth (server_cycle st) pool "") method args (net st) = (Return v, n') ->
  call method args st
  = (v, mkState (S (server_cycle st) mod N) (stdout st)
                (wire st ++ [nth (server_cycle st) pool ""]) n').
Proof.
  intros method args st v n' Hc Hcall.
  rewrite (perform_rpc_success pool Net xmlrpc_call method args st 0 [] (net st) v n');
    [|lia|constructor|exact Hcall].
  cbn [Client.cycle_take error_lines Client.cycle_next fst]. rewrite app_nil_r.
  reflexivity.
Qed.

Lemma call_exhausted : forall method args c o w n es n',
  c < N ->
  failing method args (rotation c) n es n' ->
  call method args (mkState c o w n)
  = (VNone, mkState c (o ++ error_lines (rotation c) es ++ ["All servers failed."])
                    (w ++ rotation c) n').
Proof.
  intros method args c o w n es n' Hc Hf.
  now rewrite (perform_rpc_all_fail pool Net xmlrpc_call method args
                 (mkState c o w n) es n' Hc Hf).
Qed.

Lemma call_answered : forall method args c o w n v n',
  c < N ->
  xmlrpc_call (nth c pool "") method args n = (Return v, n') ->
  call method args (mkState c o w n)
  = (v, mkState (S c mod N) o (w ++ [nth c pool ""]) n').
Proof.
  intros method args c o w n v n' Hc Hcall.
  now rewrite (call_first_answers method args (mkState c o w n) v n' Hc Hcall).
Qed.

(** X14.  Option 2 cannot tell an outage from an empty store.  When no
    replica can be reached, it prints [No notes found for '<topic>'.] and,
    after asking for the topics in vain as well, [There are currently no
    topics.], the same two messages it prints when the replicas answer both
    calls with an empty list; only the error lines of the failed attempts
    differ. *)
Theorem fetch_notes_choice_on_outage : forall s topic rest,
  stdin s = "2" :: topic :: rest ->
  server_cycle (client s) < N ->
  let c := server_cycle (client s) in
  let out := stdout (client s) ++ menu_lines ++ ["Topic: "] in
  (forall es1 n1 es2 n2,
     failing "get_notes" [VStr topic] (rotation c) (net (client s)) es1 n1 ->
     failing "list_topics" [] (rotation c) n1 es2 n2 ->
     round s
     = (Return true,
        mkSession
          (mkState c
             (out ++ error_lines (rotation c) es1
                  ++ ["All servers failed."; "No notes found for '" +++ topic +++ "'."]
                  ++ error_lines (rotation c) es2
                  ++ ["All servers failed."; "There are currently no topics."])
             (wire (client s) ++ rotation c ++ rotation c) n2)
          rest))
  /\ (forall n1 n2,
        xmlrpc_call (nth c pool "") "get_notes" [VStr topic] (net (client s))
        = (Return (VList []), n1) ->
        xmlrpc_call (nth (S c mod N) pool "") "list_topics" [] n1
        = (Return (VList []), n2) ->
        round s
        = (Return true,
           mkSession
             (mkState (S (S c mod N) mod N)
                (out ++ ["No notes found for '" +++ topic +++ "'.";
                         "There are currently no topics."])
                (wire (client s) ++ [nth c pool ""; nth (S c mod N) pool ""]) n2)
             rest)).
Proof.
  intros [[c o w n] i] topic rest Hin Hc c0 out.
  cbn [stdin client server_cycle stdout wire net] in *. subst i c0 out.
  rewrite round_choice.
  replace (String.eqb "2" "1") with false by reflexivity.
  replace (String.eqb "2" "2") with true by reflexivity. cbv iota.
  unfold Console.fetch_notes_choice.
  split.
  - intros es1 n1 es2 n2 Hf1 Hf2.
    erewrite bind_return; [reflexivity|].
    erewrite bind_return; [|apply input_eq]. cbv beta.
    erewrite bind_return; [|apply perform_rpc_eq]. cbv beta.
    rewrite !printed_printed.
    rewrite (call_exhausted "get_notes" [VStr topic] c _ w n es1 n1 Hc Hf1
             : call _ _ (printed (menu_lines ++ ["Topic: "]) (mkState c o w n)) = _).
    cbn [fst snd truthy negb].
    erewrite bind_return; [|apply print_eq]. cbv beta.
    erewrite bind_return; [|apply perform_rpc_eq]. cbv beta.
    rewrite (call_exhausted "list_topics" [] c _ _ n1 es2 n2 Hc Hf2
             : call _ _ (printed [_] (mkState c _ _ n1)) = _).
    cbn [fst snd truthy].
    rewrite print_eq. unfold printed. cbn [server_cycle stdout wire net].
    now rewrite <- !app_assoc.
  - intros n1 n2 H1 H2.
    erewrite bind_return; [reflexivity|].
    erewrite bind_return; [|apply input_eq]. cbv beta.
    erewrite bind_return; [|apply perform_rpc_eq]. cbv beta.
    rewrite !printed_printed.
    rewrite (call_answered "get_notes" [VStr topic] c _ w n (VList []) n1 Hc H1
             : call _ _ (printed (menu_lines ++ ["Topic: "]) (mkState c o w n)) = _).
    cbn [fst snd truthy negb].
    erewrite bind_return; [|apply print_eq]. cbv beta.
    erewrite bind_return; [|apply perform_rpc_eq]. cbv beta.
    assert (Hc1 : S c mod N < N) by (apply Nat.mod_upper_bound; lia).
    rewrite (call_answered "list_topics" [] (S c mod N) _ _ n1 (VList []) n2 Hc1 H2
             : call _ _ (printed [_] (mkState (S c mod N) _ _ n1)) = _).
    cbn [fst snd truthy].
    rewrite print_eq. unfold printed. cbn [server_cycle stdout wire net].
    now rewrite <- !app_assoc.
Qed.

Lemma print_notes_pairs : forall (notes : list (value * value)) c i,
  print_notes (map (fun n => VList [fst n; snd n]) notes) (mkSession c i)
  = (Return tt,
     mkSession
       (printed (map (fun n => py_str (fst n) +++ " " +++ em_dash +++ " "
                               +++ py_str (snd n)) notes) c) i).
Proof.
  induction notes as [|[ts txt] notes IH]; intros c i.
  - cbn [map Console.print_notes]. now rewrite printed_nil.
  - cbn [map Console.print_notes unpack2 iterate fst snd].
    erewrite bind_return; [|apply print_eq]. cbv beta.
    rewrite IH, printed_printed. reflexivity.
Qed.

(** X15.  When [get_notes] comes back with notes, option 2 prints them in
    the order received, one line per note, the time stamp before the text,
    each as [str] renders it (a text that came back as [None] is printed
    as the word [None]); [list_topics] is not asked. *)
Theorem fetch_notes_choice_lists : forall s topic rest (notes : list (value * value)) st2,
  stdin s = "2" :: topic :: rest ->
  call "get_notes" [VStr topic] (printed (menu_lines ++ ["Topic: "]) (client s))
  = (VList (map (fun n => VList [fst n; snd n]) notes), st2) ->
  notes <> [] ->
  round s
  = (Return true,
     mkSession
       (printed (map (fun n => py_str (fst n) +++ " " +++ em_dash +++ " "
                               +++ py_str (snd n)) notes) st2) rest).
Proof.
  intros [c i] topic rest notes st2 Hin Hcall Hne.
  cbn [stdin client] in *. subst i.
  rewrite round_choice.
  replace (String.eqb "2" "1") with false by reflexivity.
  replace (String.eqb "2" "2") with true by reflexivity. cbv iota.
  unfold Console.fetch_notes_choice.
  erewrite bind_return; [reflexivity|].
  erewrite bind_return; [|apply input_eq]. cbv beta.
  erewrite bind_return; [|apply perform_rpc_eq]. cbv beta.
  rewrite !printed_printed, Hcall. cbn [fst snd].
  destruct notes as [|n notes]; [congruence|].
  cbn [map truthy negb iterate].
  apply (print_notes_pairs (n :: notes)).
Qed.

Lemma lower_y : forall answer, answer = "y" \/ answer = "Y" -> lower answer = "y".
Proof. intros answer [->| ->]; reflexivity. Qed.

(** X16.  Option 3 prints [Success] whatever became of the note: once the
    lookup has returned a link and the user has answered [y] or [Y], the
    note [Wikipedia link: <link>] is sent under the topic typed, the result
    of that call is dropped and [Success] is printed, also when no replica
    could be reached and nothing was stored. *)
Theorem wiki_choice_reports_success : forall s topic answer notebook rest link st2,
  stdin s = "3" :: topic :: answer :: notebook :: rest ->
  call "wiki_lookup" [VStr topic] (printed (menu_lines ++ ["Wiki topic: "]) (client s))
  = (link, st2) ->
  truthy link = true ->
  answer = "y" \/ answer = "Y" ->
  let st3 := printed ["Found: " +++ py_str link;
                      "Append to a notebook topic? (y/n) "; "Notebook topic: "] st2 in
  let args := [VStr notebook; VStr ("Wikipedia link: " +++ py_str link)] in
  round s
  = (Return true, mkSession (printed ["Success"] (snd (call "add_note" args st3))) rest)
  /\ (forall es n',
        server_cycle st2 < N ->
        failing "add_note" args (rotation (server_cycle st2)) (net st2) es n' ->
        fst (call "add_note" args st3) = VNone
        /\ round s
           = (Return true,
              mkSession
                (mkState (server_cycle st2)
                   (stdout st3 ++ error_lines (rotation (server_cycle st2)) es
                    ++ ["All servers failed."; "Success"])
                   (wire st2 ++ rotation (server_cycle st2)) n')
                rest)).
Proof.
  intros [c i] topic answer notebook rest link st2 Hin Hcall Hlink Hans st3 args.
  cbn [stdin client] in *. subst i.
  assert (Hround : round (mkSession c ("3" :: topic :: answer :: notebook :: rest))
            = (Return true,
               mkSession (printed ["Success"] (snd (call "add_note" args st3))) rest)).
  { rewrite round_choice.
    replace (String.eqb "3" "1") with false by reflexivity.
    replace (String.eqb "3" "2") with false by reflexivity.
    replace (String.eqb "3" "3") with true by reflexivity. cbv iota.
    unfold Console.wiki_choice.
    erewrite bind_return; [reflexivity|].
    erewrite bind_return; [|apply input_eq]. cbv beta.
    erewrite bind_return; [|apply perform_rpc_eq]. cbv beta.
    rewrite !printed_printed, Hcall. cbn [fst snd]. rewrite Hlink.
    erewrite bind_return; [|apply print_eq]. cbv beta.
    erewrite bind_return; [|apply input_eq]. cbv beta.
    rewrite (lower_y answer Hans).
    replace (String.eqb "y" "y") with true by reflexivity. cbv iota.
    erewrite bind_return; [|apply input_eq]. cbv beta.
    erewrite bind_return; [|apply perform_rpc_eq]. cbv beta.
    rewrite !printed_printed. cbn [app]. apply print_eq. }
  split; [exact Hround|].
  intros es n' Hc Hfail. rewrite Hround.
  destruct st2 as [c2 o2 w2 n2]. cbn [server_cycle stdout wire net] in *.
  subst st3.
  rewrite (call_exhausted "add_note" args c2 _ w2 n2 es n' Hc Hfail
           : call _ _ (printed [_; _; _] (mkState c2 o2 w2 n2)) = _).
  split; [reflexivity|].
  cbn [snd]. unfold printed. cbn [server_cycle stdout wire net].
  now rewrite <- !app_assoc.
Qed.


(** *** The session ends *)

Notation steady m :=
  (forall s r s1, m s = (r, s1) -> length (stdin s1) <= length (stdin s)).

Lemma bind_steady {A B} (m : M A) (k : A -> M B) :
  steady m -> (forall a, steady (k a)) -> steady (bind m k).
Proof.
  intros Hm Hk s r s1. unfold Console.bind.
  destruct (m s) as [[a|e] s0] eqn:E.
  - intros H. apply Hk in H. apply Hm in E. lia.
  - intros [= <- <-]. now apply Hm in E.
Qed.

Lemma ret_steady {A} (a : A) : steady (ret Net a).
Proof. intros s r s1 [= <- <-]. lia. Qed.

Lemma raise_steady {A} (e : exn) : steady (@raise Net A e).
Proof. intros s r s1 [= <- <-]. lia. Qed.

Lemma print_steady : forall line, steady (print line).
Proof. intros line s r s1 [= <- <-]. cbn [stdin]. lia. Qed.

Lemma input_steady : forall prompt, steady (input prompt).
Proof.
  intros prompt s r s1. unfold Console.input.
  destruct (stdin s) as [|line rest]; intros [= <- <-]; cbn [stdin length]; lia.
Qed.

Lemma perform_rpc_steady : forall method args, steady (perform_rpc method args).
Proof.
  intros method args s r s1. unfold Console.perform_rpc.
  destruct (call method args (client s)). intros [= <- <-]. cbn [stdin]. lia.
Qed.

Lemma print_notes_steady : forall notes, steady (print_notes notes).
Proof.
  induction notes as [|note notes IH]; cbn [Console.print_notes].
  - apply ret_steady.
  - destruct (unpack2 note) as [[ts txt]|e]; [|apply raise_steady].
    apply bind_steady; [apply print_steady|intros _; exact IH].
Qed.

Lemma add_note_choice_steady : steady (Console.add_note_choice pool Net xmlrpc_call).
Proof.
  unfold Console.add_note_choice.
  repeat (apply bind_steady; [first [apply input_steady|apply perform_rpc_steady]|intro]).
  apply print_steady.
Qed.

Lemma fetch_notes_choice_steady :
  steady (Console.fetch_notes_choice pool Net xmlrpc_call).
Proof.
  unfold Console.fetch_notes_choice.
  apply bind_steady; [apply input_steady|intros topic].
  apply bind_steady; [apply perform_rpc_steady|intros notes].
  destruct (negb (truthy notes)).
  - apply bind_steady; [apply print_steady|intros _].
    apply bind_steady; [apply perform_rpc_steady|intros topics].
    destruct (truthy topics); [|apply print_steady].
    destruct (join ", " topics); [apply print_steady|apply raise_steady].
  - destruct (iterate notes); [apply print_notes_steady|apply raise_steady].
Qed.

Lemma wiki_choice_steady : steady (Console.wiki_choice pool Net xmlrpc_call).
Proof.
  unfold Console.wiki_choice.
  apply bind_steady; [apply input_steady|intros topic].
  apply bind_steady; [apply perform_rpc_steady|intros link].
  destruct (truthy link); [|apply print_steady].
  apply bind_steady; [apply print_steady|intros _].
  apply bind_steady; [apply input_steady|intros answer].
  destruct (String.eqb (lower answer) "y"); [|apply ret_steady].
  apply bind_steady; [apply input_steady|intros notebook].
  apply bind_steady; [apply perform_rpc_steady|intros _].
  apply print_steady.
Qed.

Lemma round_reads : forall s r s1,
  round s = (r, s1) ->
  length (stdin s1) <= length (stdin s)
  /\ (forall b, r = Return b -> length (stdin s1) < length (stdin s)).
Proof.
  intros [c [|choice rest]] r s1.
  - unfold Console.round. rewrite (bind_raise _ _ _ _ _ (menu_eof c)).
    intros [= <- <-]. split; [cbn; lia|discriminate].
  - rewrite round_choice. intros H.
    assert (Hle : length (stdin s1)
                  <= length (stdin (mkSession (printed menu_lines c) rest))).
    { revert H. generalize (mkSession (printed menu_lines c) rest). intros s0.
      destruct (String.eqb choice "1");
        [|destruct (String.eqb choice "2"); [|destruct (String.eqb choice "3")]].
      - apply bind_steady; [apply add_note_choice_steady|intros ?; apply ret_steady].
      - apply bind_steady; [apply fetch_notes_choice_steady|intros ?; apply ret_steady].
      - apply bind_steady; [apply wiki_choice_steady|intros ?; apply ret_steady].
      - apply ret_steady. }
    cbn [stdin length] in *. split; [lia|intros; lia].
Qed.

(** [EOFError] is raised by [input] alone, when no line is left. *)
Notation eof_at_end m :=
  (forall s msg s1, m s = (Raise (PyExc "EOFError" msg), s1) -> stdin s1 = []).

Lemma bind_eof {A B} (m : M A) (k : A -> M B) :
  eof_at_end m -> (forall a, eof_at_end (k a)) -> eof_at_end (bind m k).
Proof.
  intros Hm Hk s msg s1. unfold Console.bind.
  destruct (m s) as [[a|e] s0] eqn:E.
  - apply Hk.
  - intros [= -> <-]. eapply Hm, E.
Qed.

Lemma ret_eof {A} (a : A) : eof_at_end (ret Net a).
Proof. intros s msg s1. discriminate. Qed.

Lemma raise_eof {A} (cls text : string) :
  cls <> "EOFError" -> eof_at_end (@raise Net A (PyExc cls text)).
Proof. intros H s msg s1 [= -> _]. congruence. Qed.

Lemma print_eof : forall line, eof_at_end (print line).
Proof. intros line s msg s1. discriminate. Qed.

Lemma input_eof_at_end : forall prompt, eof_at_end (input prompt).
Proof.
  intros prompt s msg s1. unfold Console.input.
  destruct (stdin s) as [|line rest]; [|discriminate].
  now intros [= _ <-].
Qed.

Lemma perform_rpc_eof : forall method args, eof_at_end (perform_rpc method args).
Proof.
  intros method args s msg s1. unfold Console.perform_rpc.
  destruct (call method args (client s)). discriminate.
Qed.

Lemma iterate_raises : forall v e,
  iterate v = Raise e -> exists text, e = PyExc "TypeError" text.
Proof. intros [| | | |] e; intros [= <-] || discriminate; eauto. Qed.

Lemma unpack2_raises : forall v e,
  unpack2 v = Raise e ->
  exists cls text, e = PyExc cls text /\ cls <> "EOFError".
Proof.
  intros v e. unfold unpack2.
  destruct (iterate v) as [[|x [|y [|z l]]]|e0]; intros [= <-] || discriminate;
    do 2 eexists; (split; [reflexivity|discriminate]).
Qed.

Lemma join_items_raises : forall l i e,
  join_items i l = Raise e -> exists text, e = PyExc "TypeError" text.
Proof.
  induction l as [|v l IH]; intros i e; cbn [join_items]; [discriminate|].
  destruct v; try (intros [= <-]; eauto).
  destruct (join_items (S i) l) eqn:E; [discriminate|].
  intros [= <-]. eapply IH, E.
Qed.

Lemma join_raises : forall sep v e,
  join sep v = Raise e -> exists text, e = PyExc "TypeError" text.
Proof.
  intros sep v e. unfold join.
  destruct (iterate v) as [l|e0]; [|intros [= <-]; eauto].
  destruct (join_items 0 l) eqn:E; [discriminate|].
  intros [= <-]. eapply join_items_raises, E.
Qed.

Lemma print_notes_eof : forall notes, eof_at_end (print_notes notes).
Proof.
  induction notes as [|note notes IH]; cbn [Console.print_notes].
  - apply ret_eof.
  - destruct (unpack2 note) as [[ts txt]|e] eqn:E.
    + apply bind_eof; [apply print_eof|intros _; exact IH].
    + destruct (unpack2_raises _ _ E) as (cls & text & -> & Hcls).
      now apply raise_eof.
Qed.

Lemma add_note_choice_eof : eof_at_end (Console.add_note_choice pool Net xmlrpc_call).
Proof.
  unfold Console.add_note_choice.
  repeat (apply bind_eof; [first [apply input_eof_at_end|apply perform_rpc_eof]|intro]).
  apply print_eof.
Qed.

Lemma fetch_notes_choice_eof :
  eof_at_end (Console.fetch_notes_choice pool Net xmlrpc_call).
Proof.
  unfold Console.fetch_notes_choice.
  apply bind_eof; [apply input_eof_at_end|intros topic].
  apply bind_eof; [apply perform_rpc_eof|intros notes].
  destruct (negb (truthy notes)).
  - apply bind_eof; [apply print_eof|intros _].
    apply bind_eof; [apply perform_rpc_eof|intros topics].
    destruct (truthy topics); [|apply print_eof].
    destruct (join ", " topics) eqn:E; [apply print_eof|].
    destruct (join_raises _ _ _ E) as [text ->].
    apply raise_eof. discriminate.
  - destruct (iterate notes) eqn:E; [apply print_notes_eof|].
    destruct (iterate_raises _ _ E) as [text ->].
    apply raise_eof. discriminate.
Qed.

Lemma wiki_choice_eof : eof_at_end (Console.wiki_choice pool Net xmlrpc_call).
Proof.
  unfold Console.wiki_choice.
  apply bind_eof; [apply input_eof_at_end|intros topic].
  apply bind_eof; [apply perform_rpc_eof|intros link].
  destruct (truthy link); [|apply print_eof].
  apply bind_eof; [apply print_eof|intros _].
  apply bind_eof; [apply input_eof_at_end|intros answer].
  destruct (String.eqb (lower answer) "y"); [|apply ret_eof].
  apply bind_eof; [apply input_eof_at_end|intros notebook].
  apply bind_eof; [apply perform_rpc_eof|intros _].
  apply print_eof.
Qed.

Lemma menu_eof_at_end : eof_at_end menu.
Proof.
  unfold Console.menu.
  repeat (apply bind_eof; [apply print_eof|intro]).
  apply input_eof_at_end.
Qed.

Lemma round_eof : eof_at_end round.
Proof.
  unfold Console.round.
  apply bind_eof; [apply menu_eof_at_end|intros choice].
  destruct (String.eqb choice "1");
    [|destruct (String.eqb choice "2"); [|destruct (String.eqb choice "3")]].
  - apply bind_eof; [apply add_note_choice_eof|intros ?; apply ret_eof].
  - apply bind_eof; [apply fetch_notes_choice_eof|intros ?; apply ret_eof].
  - apply bind_eof; [apply wiki_choice_eof|intros ?; apply ret_eof].
  - apply ret_eof.
Qed.

Lemma main_loop_ends : forall fuel s,
  length (stdin s) < fuel ->
  exists r s1,
    main_loop fuel s = Some (r, s1)
    /\ length (stdin s1) <= length (stdin s)
    /\ (r = Return tt -> length (stdin s1) < length (stdin s))
    /\ (forall msg, r = Raise (PyExc "EOFError" msg) -> stdin s1 = []).
Proof.
  induction fuel as [|fuel IH]; intros s Hfuel; [lia|].
  cbn [Console.main_loop].
  destruct (round s) as [[[|]|e] s1] eqn:E;
    destruct (round_reads s _ s1 E) as [Hle Hlt].
  - specialize (Hlt true eq_refl).
    destruct (IH s1) as (r & s2 & -> & Hle2 & Hlt2 & Heof); [lia|].
    exists r, s2. repeat split; [lia|intros; lia|exact Heof].
  - specialize (Hlt false eq_refl). exists (Return tt), s1.
    repeat split; [lia|lia|discriminate].
  - exists (Raise e), s1. repeat split; [lia|discriminate|].
    intros msg [= ->]. eapply round_eof, E.
Qed.

(** X17.  In this model every remote call comes back, with an answer or
    with an exception (the source sets no timeout: a replica that accepts
    the connection and stays silent would hold the client for ever, which
    the model leaves out).  On that condition the client stops on every
    input: the rounds allowed for in [main] suffice, and the session ends
    by leaving the loop, which takes a line of input, or by an exception,
    without reading more lines than there are.  It ends with [EOFError]
    only when every line has been read; without any input it is the
    [input] of the menu that raises it, after the menu has been printed. *)
Theorem session_ends : forall s,
  (exists r s1,
     main s = Some (r, s1)
     /\ length (stdin s1) <= length (stdin s)
     /\ (r = Return tt -> length (stdin s1) < length (stdin s))
     /\ (forall msg, r = Raise (PyExc "EOFError" msg) -> stdin s1 = []))
  /\ (stdin s = [] ->
      main s = Some (Raise (PyExc "EOFError" "EOF when reading a line"),
                     mkSession (printed menu_lines (client s)) [])).
Proof.
  intros s. split.
  - apply main_loop_ends. lia.
  - destruct s as [c i]. cbn [stdin client]. intros ->.
    unfold Console.main. cbn [stdin length Console.main_loop].
    unfold Console.round. now rewrite (bind_raise _ _ _ _ _ (menu_eof c)).
Qed.

End Loop.

End ConsoleFacts.

(** * The port the server listens on *)

Module BootstrapFacts.

Import PyText Bootstrap.

(** *** Decimal numerals read back *)

Lemma digits_value_acc : forall d a,
  ET.digits_value (NilEmpty.string_of_uint d) (Z.pos a)
  = Z.pos (Pos.of_uint_acc d a).
Proof.
  induction d; intros a; cbn [NilEmpty.string_of_uint ET.digits_value Pos.of_uint_acc];
    [reflexivity|..];
    match goal with
    | |- context [Ascii.eqb ?c "_"] =>
        replace (Ascii.eqb c "_") with false by reflexivity
    end;
    match goal with
    | |- ET.digits_value _ ?x = Z.pos (Pos.of_uint_acc _ ?y) =>
        replace x with (Z.pos y)
          by (match goal with
              | |- context [Z.of_nat ?n] =>
                  let v := eval vm_compute in (Z.of_nat n) in
                  change (Z.of_nat n) with v
              end; lia)
    end;
    apply IHd.
Qed.

Lemma digits_value_uint : forall d,
  ET.digits_value (NilEmpty.string_of_uint d) 0 = Z.of_N (Pos.of_uint d).
Proof.
  induction d; cbn [NilEmpty.string_of_uint ET.digits_value Pos.of_uint];
    [reflexivity|..];
    match goal with
    | |- context [Ascii.eqb ?c "_"] =>
        replace (Ascii.eqb c "_") with false by reflexivity
    end;
    [exact IHd|..]; apply digits_value_acc.
Qed.

Lemma string_of_uint_digits : forall d,
  str_forall isdigit (NilEmpty.string_of_uint d) = true.
Proof. induction d; cbn [NilEmpty.string_of_uint str_forall]; auto. Qed.

Lemma string_of_uint_nonempty : forall d,
  d <> Decimal.Nil -> NilEmpty.string_of_uint d <> "".
Proof. destruct d; cbn; congruence. Qed.

(** *** What [int] does with a run of digits *)

Lemma isdigit_plain_char : forall c,
  isdigit c = true ->
  int_space c = false /\ Ascii.eqb c "-" = false /\ Ascii.eqb c "+" = false
  /\ Ascii.eqb c "_" = false.
Proof.
  intros c H.
  destruct c as [[] [] [] [] [] [] [] []]; try discriminate H; repeat split.
Qed.

Lemma str_forall_list : forall p s,
  str_forall p s = forallb p (list_ascii_of_string s).
Proof. induction s; cbn; congruence. Qed.

Lemma reverse_reverse : forall s, reverse (reverse s) = s.
Proof.
  intros s. unfold reverse.
  now rewrite list_ascii_of_string_of_list_ascii, rev_involutive,
    string_of_list_ascii_of_string.
Qed.

Lemma reverse_cons : forall c s, reverse (String c s) = reverse s +++ String c "".
Proof.
  intros c s. unfold reverse. cbn [list_ascii_of_string rev].
  generalize (rev (list_ascii_of_string s)). intros l.
  induction l as [|x l IH]; [reflexivity|]. cbn. now rewrite IH.
Qed.

Lemma str_forall_reverse : forall p s, str_forall p (reverse s) = str_forall p s.
Proof.
  intros p s. unfold reverse.
  rewrite !str_forall_list, list_ascii_of_string_of_list_ascii.
  induction (list_ascii_of_string s) as [|c l IH]; [reflexivity|].
  cbn [rev forallb]. rewrite forallb_app, IH. cbn [forallb].
  now rewrite andb_true_r, andb_comm.
Qed.

Lemma lstrip_digits : forall s rest,
  str_forall isdigit s = true -> s <> "" ->
  lstrip int_space (s +++ rest) = s +++ rest.
Proof.
  intros [|c s] rest H Hne; [congruence|].
  cbn [str_forall] in H. apply andb_true_iff in H. destruct H as [Hc _].
  cbn [String.append lstrip].
  now rewrite (proj1 (isdigit_plain_char c Hc)).
Qed.

Lemma reverse_nonempty : forall s, s <> "" -> reverse s <> "".
Proof.
  intros [|c s] H; [congruence|]. rewrite reverse_cons.
  destruct (reverse s); discriminate.
Qed.

Lemma append_empty : forall s, s +++ "" = s.
Proof. induction s; cbn; congruence. Qed.

Lemma strip_digits : forall sign s,
  str_forall isdigit s = true -> s <> "" ->
  sign = "" \/ sign = "-" ->
  strip int_space (sign +++ s) = sign +++ s.
Proof.
  intros sign s H Hne Hsign. unfold strip.
  assert (H1 : lstrip int_space (sign +++ s) = sign +++ s).
  { destruct Hsign as [->| ->]; [|reflexivity].
    change ("" +++ s) with s.
    rewrite <- (append_empty s). now apply lstrip_digits. }
  rewrite H1.
  assert (H2 : reverse (sign +++ s) = reverse s +++ sign).
  { destruct Hsign as [->| ->]; [now rewrite append_empty|].
    apply reverse_cons. }
  rewrite H2, lstrip_digits, <- H2; [apply reverse_reverse| |].
  - now rewrite str_forall_reverse.
  - now apply reverse_nonempty.
Qed.

Lemma span_digits : forall s,
  str_forall isdigit s = true -> span digit_or_underscore s = (s, "").
Proof.
  induction s as [|c s IH]; [reflexivity|]. cbn [str_forall span].
  intros H. apply andb_true_iff in H. destruct H as [Hc Hs].
  unfold digit_or_underscore at 1. rewrite Hc. cbn [orb]. now rewrite (IH Hs).
Qed.

Lemma digit_groups_digits : forall s b,
  str_forall isdigit s = true -> (s <> "" \/ b = true) ->
  ET.digit_groups s b = true.
Proof.
  induction s as [|c s IH]; intros b H Hb.
  - destruct Hb; [congruence|assumption].
  - cbn [str_forall] in H. apply andb_true_iff in H. destruct H as [Hc Hs].
    cbn [ET.digit_groups]. rewrite Hc. apply IH; auto.
Qed.

Lemma count_digits_digits : forall s,
  str_forall isdigit s = true -> count_digits s = String.length s.
Proof.
  unfold count_digits. induction s as [|c s IH]; [reflexivity|].
  cbn [str_forall list_ascii_of_string filter String.length].
  intros H. apply andb_true_iff in H. destruct H as [Hc Hs].
  rewrite Hc. cbn [length]. now rewrite IH.
Qed.

Lemma int_of_digits : forall s (neg : bool),
  str_forall isdigit s = true -> s <> "" ->
  (String.length s <= int_max_str_digits)%nat ->
  int_of_str ((if neg then "-" else "") +++ s)
  = Return (if neg then (- ET.digits_value s 0)%Z else ET.digits_value s 0).
Proof.
  intros s neg H Hne Hlen. unfold int_of_str.
  rewrite strip_digits; [|exact H|exact Hne|destruct neg; auto].
  assert (Hsign : split_sign ((if neg then "-" else "") +++ s) = (neg, s)).
  { destruct neg; [reflexivity|]. destruct s as [|c s]; [congruence|].
    cbn [str_forall] in H. apply andb_true_iff in H. destruct H as [Hc _].
    destruct (isdigit_plain_char c Hc) as (_ & Hm & Hp & _).
    cbn [String.append split_sign]. now rewrite Hm, Hp. }
  rewrite Hsign, (span_digits s H), (digit_groups_digits s false H (or_introl Hne)).
  rewrite (count_digits_digits s H).
  cbn [negb]. apply Nat.ltb_ge in Hlen. rewrite Hlen. reflexivity.
Qed.

(** [int] reads back the decimal numeral [str] writes, as long as the
    numeral stays within the limit on digits. *)
Lemma int_of_str_of_int : forall z,
  (String.length (str_of_int z) <= int_max_str_digits)%nat ->
  int_of_str (str_of_int z) = Return z.
Proof.
  intros z. unfold str_of_int.
  destruct z as [|p|p]; cbn [Z.to_int NilEmpty.string_of_int]; intros Hlen.
  - reflexivity.
  - rewrite (int_of_digits (NilEmpty.string_of_uint (Pos.to_uint p)) false
               (string_of_uint_digits _)
               (string_of_uint_nonempty _ (DecimalPos.Unsigned.to_uint_nonnil p))
               Hlen
             : int_of_str (NilEmpty.string_of_uint (Pos.to_uint p)) = _).
    now rewrite digits_value_uint, DecimalPos.Unsigned.of_to.
  - cbn [String.length] in Hlen.
    rewrite (int_of_digits (NilEmpty.string_of_uint (Pos.to_uint p)) true
               (string_of_uint_digits _)
               (string_of_uint_nonempty _ (DecimalPos.Unsigned.to_uint_nonnil p))
               (Nat.lt_le_incl _ _ Hlen)
             : int_of_str (String "-" (NilEmpty.string_of_uint (Pos.to_uint p))) = _).
    now rewrite digits_value_uint, DecimalPos.Unsigned.of_to.
Qed.

(** X18.  Started without an argument the server takes port 8000, the
    first of the two ports the client knows.  Started with a number written
    in decimal, the way the client writes its ports into the URLs, it
    takes that number for the port; further arguments are ignored. *)
Theorem port_of_command_line : forall prog z rest,
  (String.length (str_of_int z) <= int_max_str_digits)%nat ->
  port (prog :: str_of_int z :: rest) = Return z
  /\ port [prog] = Return 8000%Z
  /\ hd_error Client.ports = Some 8000%Z.
Proof.
  intros prog z rest Hlen. repeat split.
  cbn [port]. now apply int_of_str_of_int.
Qed.

End BootstrapFacts.

(** * The statements at work *)

Module Instances.

Import Client ET Server Store Scenario PyText Console Usage Examples.

Lemma get_notes_after_plain_calls_witness :
  fst (get_notes "cooking" (run_calls three_calls None))
  = Return (VList [VList [VStr "03/07/25 - 09:05:59"; VStr "boil water"];
                   VList [VStr "03/07/25 - 09:05:59"; VStr "add salt"]])
  /\ exists names,
       fst (list_topics (run_calls three_calls None)) = Return (VList (map VStr names))
       /\ NoDup names.
Proof.
  apply (StoreFacts.get_notes_after_plain_calls three_calls "cooking"); reflexivity.
Defined.

Lemma list_topics_after_plain_calls_witness :
  fst (list_topics (run_calls three_calls None))
  = Return (VList [VStr "cooking"; VStr "garden"]).
Proof.
  apply (FileFacts.list_topics_after_plain_calls three_calls). reflexivity.
Defined.

Lemma get_notes_unknown_plain_topic_witness :
  get_notes "travel" (run_calls three_calls None)
  = (Return (VList []), run_calls three_calls None).
Proof.
  apply (StoreFacts.get_notes_unknown_plain_topic three_calls "travel");
    [reflexivity|reflexivity|reflexivity|discriminate].
Defined.

Lemma add_note_generates_timestamp_witness :
  exists f',
    add_note "cooking" "boil water" None morning None = (Return true, f')
    /\ holds f' [("cooking", [("03/07/25 - 09:05:59", "boil water")])]
    /\ timestamp_format "03/07/25 - 09:05:59" = true.
Proof.
  apply (TimestampFacts.add_note_generates_timestamp None [] "cooking" "boil water"
           morning); try reflexivity.
  unfold valid_datetime. simpl. lia.
Defined.


Lemma alias_of_topic_witness :
  get_notes (two_names "cooking" "cooking") (run_calls three_calls None)
  = get_notes "cooking" (run_calls three_calls None)
  /\ forall text timestamp now,
       fst (get_notes "cooking" (run_calls three_calls None)) <> Return (VList []) ->
       add_note (two_names "cooking" "cooking") text timestamp now
                (run_calls three_calls None)
       = add_note "cooking" text timestamp now (run_calls three_calls None).
Proof.
  apply (QuoteFacts.alias_of_topic "cooking" (run_calls three_calls None)). reflexivity.
Defined.


Lemma round_robin_witness :
  let requests := [("add_note", [VStr "cooking"; VStr "boil water"]);
                   ("get_notes", [VStr "cooking"]); ("list_topics", [])] in
  let st' := snd (perform_all server_urls unit (answering (VBool true)) requests start) in
  wire st' = wire start ++ cycle_take server_urls (server_cycle start) (length requests)
  /\ stdout st' = stdout start
  /\ server_cycle st' = (server_cycle start + length requests) mod length server_urls
  /\ length (fst (perform_all server_urls unit (answering (VBool true)) requests start))
     = length requests
  /\ (length requests = length server_urls ->
      exists urls, wire st' = wire start ++ urls /\ Permutation urls server_urls).
Proof.
  apply (DispatchFacts.round_robin server_urls unit (answering (VBool true))).
  - intros url _ method args n. exists (VBool true), n. reflexivity.
  - simpl. lia.
Defined.

Lemma one_of_two_down_witness :
  server_cycle (snd (Client.perform_rpc ["http://localhost:8000"; "http://localhost:8001"]
                       unit (first_down (VBool true)) "add_note"
                       [VStr "cooking"; VStr "boil water"]
                       (mkState 1 [] [] tt))) = 0
  /\ forall st2 method2 args2,
       server_cycle st2 = 0 ->
       exists e v n',
         Client.perform_rpc ["http://localhost:8000"; "http://localhost:8001"]
                     unit (first_down (VBool true)) method2 args2 st2
         = (v, mkState 0
                 (stdout st2 ++ [error_line "http://localhost:8000" e])
                 (wire st2 ++ ["http://localhost:8000"; "http://localhost:8001"]) n').
Proof.
  apply (DispatchFacts.one_of_two_down unit (first_down (VBool true))
           "http://localhost:8000" "http://localhost:8001" 0).
  - lia.
  - intros method args n. exists refused, n. reflexivity.
  - intros method args n. exists (VBool true), n. reflexivity.
  - simpl. lia.
Defined.

Lemma other_choice_ends_session_witness :
  round server_urls unit all_down (mkSession start ["4"; "1"])
  = (Return false, mkSession (printed menu_lines start) ["1"])
  /\ main server_urls unit all_down (mkSession start ["4"; "1"])
     = Some (Return tt, mkSession (printed menu_lines start) ["1"]).
Proof.
  apply (ConsoleFacts.other_choice_ends_session server_urls unit all_down
           (mkSession start ["4"; "1"]) "4" ["1"]);
    [reflexivity|discriminate|discriminate|discriminate].
Defined.

Lemma add_note_choice_reports_witness :
  round server_urls unit all_down (mkSession start ["1"; "cooking"; "boil water"])
  = (Return true,
     mkSession
       (mkState 0
          (menu_lines ++
           ["Topic: "; "Text: ";
            "Error contacting server http://localhost:8000: [Errno 111] Connection refused";
            "Error contacting server http://localhost:8001: [Errno 111] Connection refused";
            "All servers failed."; "Success? None"])
          ["http://localhost:8000"; "http://localhost:8001"] tt)
       []).
Proof.
  apply (proj2 (ConsoleFacts.add_note_choice_reports server_urls unit all_down
                  (mkSession start ["1"; "cooking"; "boil water"])
                  "cooking" "boil water" [] eq_refl)
               [refused; refused] tt).
  - simpl. lia.
  - repeat econstructor.
Defined.

Lemma fetch_notes_choice_on_outage_witness :
  round server_urls unit all_down (mkSession start ["2"; "cooking"])
  = (Return true,
     mkSession
       (mkState 0
          (menu_lines ++
           ["Topic: ";
            "Error contacting server http://localhost:8000: [Errno 111] Connection refused";
            "Error contacting server http://localhost:8001: [Errno 111] Connection refused";
            "All servers failed."; "No notes found for 'cooking'.";
            "Error contacting server http://localhost:8000: [Errno 111] Connection refused";
            "Error contacting server http://localhost:8001: [Errno 111] Connection refused";
            "All servers failed."; "There are currently no topics."])
          ["http://localhost:8000"; "http://localhost:8001";
           "http://localhost:8000"; "http://localhost:8001"] tt)
       []).
Proof.
  apply (proj1 (ConsoleFacts.fetch_notes_choice_on_outage server_urls unit all_down
                  (mkSession start ["2"; "cooking"]) "cooking" [] eq_refl
                  ltac:(simpl; lia))
               [refused; refused] tt [refused; refused] tt);
    repeat econstructor.
Defined.

Lemma fetch_notes_choice_lists_witness :
  round server_urls unit
        (answering (VList (map (fun n => VList [fst n; snd n]) two_notes)))
        (mkSession start ["2"; "cooking"])
  = (Return true,
     mkSession
       (mkState 1
          (menu_lines ++
           ["Topic: ";
            "03/07/25 - 09:05:59 " +++ em_dash +++ " boil water";
            "03/07/25 - 09:06:10 " +++ em_dash +++ " None"])
          ["http://localhost:8000"] tt)
       []).
Proof.
  apply (ConsoleFacts.fetch_notes_choice_lists server_urls unit
           (answering (VList (map (fun n => VList [fst n; snd n]) two_notes)))
           (mkSession start ["2"; "cooking"]) "cooking" [] two_notes
           (mkState 1 (menu_lines ++ ["Topic: "]) ["http://localhost:8000"] tt));
    [reflexivity|reflexivity|discriminate].
Defined.

Lemma wiki_choice_reports_success_witness :
  round server_urls unit (lookup_only "https://en.wikipedia.org/wiki/Rocq")
        (mkSession start ["3"; "Rocq"; "y"; "provers"])
  = (Return true,
     mkSession
       (mkState 1
          (menu_lines ++
           ["Wiki topic: "; "Found: https://en.wikipedia.org/wiki/Rocq";
            "Append to a notebook topic? (y/n) "; "Notebook topic: ";
            "Error contacting server http://localhost:8001: [Errno 111] Connection refused";
            "Error contacting server http://localhost:8000: [Errno 111] Connection refused";
            "All servers failed."; "Success"])
          ["http://localhost:8000"; "http://localhost:8001"; "http://localhost:8000"] tt)
       []).
Proof.
  apply (proj2 (proj2 (ConsoleFacts.wiki_choice_reports_success server_urls unit
                  (lookup_only "https://en.wikipedia.org/wiki/Rocq")
                  (mkSession start ["3"; "Rocq"; "y"; "provers"])
                  "Rocq" "y" "provers" []
                  (VStr "https://en.wikipedia.org/wiki/Rocq")
                  (mkState 1 (menu_lines ++ ["Wiki topic: "])
                           ["http://localhost:8000"] tt)
                  eq_refl eq_refl eq_refl (or_introl eq_refl))
               [refused; refused] tt ltac:(simpl; lia) ltac:(repeat econstructor))).
Defined.

Lemma port_of_command_line_witness :
  Bootstrap.port ["notebook_server.py"; "8001"] = Return 8001%Z
  /\ Bootstrap.port ["notebook_server.py"] = Return 8000%Z
  /\ hd_error ports = Some 8000%Z.
Proof.
  apply (BootstrapFacts.port_of_command_line "notebook_server.py" 8001 []).
  apply Nat.leb_le. vm_compute. reflexivity.
Defined.

End Instances.
